(** * vkdemos: a shallow embedding of the single-file Vulkan examples

    The repository is a set of stand-alone example programs
    (vktriangle, vktriangle_glfw, vktriangle_subpass,
    vktriangle_external_memory, vkcompute, and the info tool vkmininfo)
    and their GLSL shaders.  This
    development embeds the parts of them that carry logic of their own:

    - the decoding of the two environment variables at the top of [main]
      (module [Env]);
    - the writer of the binary PPM dump at the bottom of every [main]
      (module [Ppm]);
    - [LoadSPIRV] (module [Spirv]);
    - the draw-and-present loop of the swapchain examples (module
      [FrameLoop]);
    - the shaders compute.comp and subpass_2_compose.frag (modules
      [ComputeShader] and [ComposeShader]);
    - [FindMemoryType], [FindQueueFamily] and the choice of the physical
      device (modules [MemoryType] and [QueueFamily]);
    - the version numbers, the extension list and the flag lists of
      vkmininfo (modules [Version] and [Info]);
    - [BuildShader] (module [Shader]), the fill loop of the compute
      example (module [ComputeExample]) and the uniform data of the
      subpass example (module [Uniform]);
    - the order of the calls of [CopyImageToLinearImage] and the objects
      it leaves (module [CopyImage]).

    Native Vulkan calls are not interpreted: what they return to the
    program is an input of the model. *)

From Stdlib Require Import ZArith NArith QArith Qround List String Ascii Lia Bool.
From Stdlib Require Import DecimalString DecimalN DecimalPos.
From Stdlib.Strings Require Import Byte.
From stdpp Require Import base list.
Import ListNotations.

Open Scope Z_scope.

(* ===================================================================== *)
(** * Part I: definitions *)
(* ===================================================================== *)

(** A C++ call either returns or throws a [std::runtime_error] that
    nothing catches, which ends the program. *)
Inductive Result (A : Type) : Type :=
| Returns (a : A)
| Throws (what : string).

Arguments Returns {A} a.
Arguments Throws {A} what.

(** ** Environment variables (the first lines of every [main]) *)

Module Env.

(** [getenv] of the C library: [None] is the NULL pointer. *)
Definition Environment := string -> option string.

(** The unsigned value of the character a C string holds at its start;
    past the end of the text the terminating NUL is read. *)
Definition head_char (s : string) : Z :=
  match s with
  | EmptyString => 0
  | String c _ => Z.of_nat (nat_of_ascii c)
  end.

Definition tail_chars (s : string) : string :=
  match s with
  | EmptyString => EmptyString
  | String _ r => r
  end.

(** [strncmp a b n] of the C library: compares at most [n] characters
    as unsigned chars and stops after a NUL. *)
Fixpoint strncmp (a b : string) (n : nat) : Z :=
  match n with
  | O => 0
  | S n' =>
      let ca := head_char a in
      let cb := head_char b in
      if negb (ca =? cb) then ca - cb
      else if ca =? 0 then 0
      else strncmp (tail_chars a) (tail_chars b) n'
  end.

Record Config := mkConfig {
  enableValidationLayers : bool;
  outputFileName : string
}.

(** <<
    const char *envValidation = getenv("DEMO_USE_VALIDATION");
    const char *envOutputName = getenv("DEMO_OUTPUT");
    bool enableValidationLayers = ((envValidation != NULL)
                                && (strncmp("1", envValidation, 2) == 0));
    const char *outputFileName = "out.ppm";
    if (envOutputName != NULL) { outputFileName = envOutputName; }
    >> *)
Definition decode (getenv : Environment) : Config :=
  let envValidation := getenv "DEMO_USE_VALIDATION"%string in
  let envOutputName := getenv "DEMO_OUTPUT"%string in
  let enable :=
    match envValidation with
    | None => false
    | Some v => strncmp "1" v 2 =? 0
    end in
  let outputFileName :=
    match envOutputName with
    | None => "out.ppm"%string
    | Some name => name
    end in
  mkConfig enable outputFileName.

(** The programs of the repository under src/. *)
Inductive Example :=
| vktriangle
| vktriangle_glfw
| vktriangle_subpass
| vktriangle_external_memory
| vkcompute
| vkmininfo.

(** <<
    const std::vector<const char*> g_validationLayers = {
        "VK_LAYER_KHRONOS_validation",
    };
    >> *)
Definition g_validationLayers : list string :=
  ["VK_LAYER_KHRONOS_validation"%string].

(** The layers a program enables when it creates its Vulkan instance
    (and its device).  The five rendering and compute programs decode the
    environment with the same lines at the top of [main] (vktriangle.cpp
    lines 108-116, vktriangle_glfw.cpp lines 115-123, and likewise in the
    subpass, external-memory and compute examples) and then do
    <<
    createInfo.enabledLayerCount = 0;
    if (enableValidationLayers) {
        createInfo.enabledLayerCount = static_cast<uint32_t>(g_validationLayers.size());
        createInfo.ppEnabledLayerNames = g_validationLayers.data();
    }
    >>
    vkmininfo never calls [getenv]; its [CreateInstance] passes
    [std::vector<const char*> layers = {}]. *)
Definition enabled_layers (e : Example) (getenv : Environment) : list string :=
  match e with
  | vkmininfo => []
  | _ => if enableValidationLayers (decode getenv) then g_validationLayers else []
  end.

(** The file the image of the run is written to at the end of [main];
    vkmininfo writes no file. *)
Definition output_file (e : Example) (getenv : Environment) : option string :=
  match e with
  | vkmininfo => None
  | _ => Some (outputFileName (decode getenv))
  end.

(** Validation layers are enabled. *)
Definition validation_enabled (e : Example) (getenv : Environment) : Prop :=
  In "VK_LAYER_KHRONOS_validation"%string (enabled_layers e getenv).

(** A C string has no NUL inside its text. *)
Fixpoint c_string (s : string) : Prop :=
  match s with
  | EmptyString => True
  | String c r => c <> zero /\ c_string r
  end.

End Env.

(** ** The PPM dump (step 25 of every [main], and [DumpImage]) *)

Module Ppm.

(** The mapped device memory, byte by byte; the addresses are those of
    the process. *)
Definition Memory := N -> byte.

(** What [vkGetImageSubresourceLayout] reports and the dump uses. *)
Record SubresourceLayout := mkLayout {
  offset : N;
  rowPitch : N
}.

(** [file << n] for an unsigned number: its decimal digits. *)
Definition decimal (n : N) : list byte :=
  list_byte_of_string (NilZero.string_of_uint (N.to_uint n)).

Definition newline : byte := x0a.

(** <<
    file << "P6\n" << renderImageWidth << "\n" << renderImageHeight
         << "\n" << 255 << "\n";
    >> *)
Definition header (width height : N) : list byte :=
  [x50; x36; newline] ++ decimal width ++ [newline]
    ++ decimal height ++ [newline] ++ decimal 255 ++ [newline].

(** [file.write((const char* )row, 3)]. *)
Definition write3 (mem : Memory) (row : N) : list byte :=
  [mem row; mem (row + 1)%N; mem (row + 2)%N].

(** The inner loop over x: [row] is a [uint32_t*], so [row++] moves on
    by four bytes; [n] pixels are left to write. *)
Fixpoint write_row (mem : Memory) (row : N) (n : nat) : list byte :=
  match n with
  | O => []
  | S n' => write3 mem row ++ write_row mem (row + 4)%N n'
  end.

(** The outer loop over y: [data += subResourceLayout.rowPitch] after
    each row; [rows] rows are left to write. *)
Fixpoint write_rows (mem : Memory) (data pitch : N) (width rows : nat)
  : list byte :=
  match rows with
  | O => []
  | S r => write_row mem data width
             ++ write_rows mem (data + pitch)%N pitch width r
  end.

(** Steps 24 and 25: [mapped] is the address [vkMapMemory] returned. *)
Definition dump (width height : N) (mapped : N) (layout : SubresourceLayout)
    (mem : Memory) : list byte :=
  let data := (mapped + offset layout)%N in
  header width height
    ++ write_rows mem data (rowPitch layout) (N.to_nat width) (N.to_nat height).

(** The places where an image is dumped. *)
Inductive Dumper :=
| triangle_main            (* vktriangle.cpp, step 25 *)
| glfw_main                (* vktriangle_glfw.cpp, step 25 *)
| subpass_main             (* vktriangle_subpass.cpp, step 25 *)
| external_memory_main     (* vktriangle_external_memory.cpp, main *)
| external_memory_thread   (* ... and VulkanImageProducerThread *)
| compute_source           (* vkcompute: DumpImage(sourceImage) *)
| compute_destination.     (* vkcompute: DumpImage(destinationImage) *)

Definition UINT32_MAX : N := 4294967295.

(** <<
    VkExtent2D swapExtent = { windowWidth, windowHeight };
    if (surfaceCapabilities.currentExtent.width != UINT32_MAX) {
        swapExtent = surfaceCapabilities.currentExtent;
    }
    >> *)
Definition select_extent (window currentExtent : N * N) : N * N :=
  if negb (fst currentExtent =? UINT32_MAX)%N then currentExtent else window.

(** The render size each of them is configured with: the constant
    256x256 of the off-screen images, or the extent of the swapchain
    ([renderImageWidth = swapExtent.width]), which is taken from what
    the surface reports as its current extent. *)
Definition render_size (d : Dumper) (currentExtent : N * N) : N * N :=
  match d with
  | triangle_main => (256, 256)%N
  | glfw_main => select_extent (512, 512)%N currentExtent
  | subpass_main => select_extent (512, 512)%N currentExtent
  | external_memory_main => select_extent (1024, 512)%N currentExtent
  | external_memory_thread => (256, 256)%N
  | compute_source => (256, 256)%N
  | compute_destination => (256, 256)%N
  end.

Definition dump_of (d : Dumper) (currentExtent : N * N) (mapped : N)
    (layout : SubresourceLayout) (mem : Memory) : list byte :=
  dump (fst (render_size d currentExtent)) (snd (render_size d currentExtent))
       mapped layout mem.

(** The address of channel [c] of pixel (x, y) in the mapped image. *)
Definition texel_addr (mapped : N) (layout : SubresourceLayout)
    (x y c : nat) : N :=
  (mapped + offset layout + N.of_nat y * rowPitch layout
     + 4 * N.of_nat x + N.of_nat c)%N.

(** Reading a decimal number back. *)
Definition parse_decimal (l : list byte) : option N :=
  option_map N.of_uint (NilZero.uint_of_string (string_of_list_byte l)).

(** What follows the header in a dumped file. *)
Definition pixel_data (width height : N) (file : list byte) : list byte :=
  drop (length (header width height)) file.

(** The pixel data [body] holds the R, G and B bytes of the mapped image
    in rows that start [stride] bytes apart. *)
Definition rows_at_stride (stride : nat) (width height : nat) (mapped : N)
    (layout : SubresourceLayout) (mem : Memory) (body : list byte) : Prop :=
  forall x y c : nat,
    (x < width)%nat -> (y < height)%nat -> (c < 3)%nat ->
    body !! (y * stride + 3 * x + c)%nat
    = Some (mem (texel_addr mapped layout x y c)).




End Ppm.

(** ** [LoadSPIRV] (the same text in all five programs) *)

Module Spirv.

(** The files a program can open for reading, with their bytes. *)
Definition FileSystem := string -> option (list byte).

Definition byte_of_N (n : N) : byte :=
  match Byte.of_N n with
  | Some b => b
  | None => x00
  end.

(** A [uint32_t] as it lies in the memory of a little-endian host. *)
Definition bytes_of_word (w : N) : list byte :=
  [byte_of_N (w mod 256)%N; byte_of_N (w / 256 mod 256)%N;
   byte_of_N (w / 65536 mod 256)%N; byte_of_N (w / 16777216 mod 256)%N].

Definition word_of_bytes (b0 b1 b2 b3 : byte) : N :=
  (Byte.to_N b0 + 256 * Byte.to_N b1 + 65536 * Byte.to_N b2
     + 16777216 * Byte.to_N b3)%N.

(** The memory of a [std::vector<uint32_t>], and the vector that a
    memory of whole words holds. *)
Definition bytes_of_words (ws : list N) : list byte :=
  concat (map bytes_of_word ws).

Fixpoint words_of_bytes (l : list byte) : list N :=
  match l with
  | b0 :: b1 :: b2 :: b3 :: r => word_of_bytes b0 b1 b2 b3 :: words_of_bytes r
  | _ => []
  end.

(** [file.read((char* )buffer.data(), count)] at the start of the file:
    the first [count] bytes of the file overwrite the memory of the
    buffer. *)
Definition file_read (buffer : list N) (content : list byte) (count : nat)
  : list N :=
  words_of_bytes (take count content ++ drop count (bytes_of_words buffer)).

(** <<
    std::ifstream file(name, std::ios::ate | std::ios::binary);
    if (!file.is_open()) {
        throw std::runtime_error("failed to open file: " + name);
    }
    size_t fileSize = (size_t) file.tellg();
    if ((fileSize % sizeof(uint32_t)) != 0) {
        throw std::runtime_error("spirv file is not divisable by 4: " + name);
    }
    std::vector<uint32_t> buffer(fileSize / sizeof(uint32_t));
    file.seekg(0);
    file.read((char* )buffer.data(), fileSize);
    file.close();
    return buffer;
    >> *)
Definition LoadSPIRV (fs : FileSystem) (name : string) : Result (list N) :=
  match fs name with
  | None => Throws ("failed to open file: " ++ name)%string
  | Some content =>
      let fileSize := length content in
      if negb (fileSize mod 4 =? 0)%nat
      then Throws ("spirv file is not divisable by 4: " ++ name)%string
      else
        let buffer := repeat 0%N (fileSize / 4)%nat in
        Returns (file_read buffer content fileSize)
  end.

Definition raises {A : Type} (r : Result A) : Prop :=
  exists what, r = Throws what.

End Spirv.

(** ** GLSL values shared by the two shaders

    Shader floats are taken as exact rationals. *)

Module Glsl.

Record vec3 := mkVec3 { r3 : Q; g3 : Q; b3 : Q }.
Record vec4 := mkVec4 { r : Q; g : Q; b : Q; a : Q }.

Definition rgb (v : vec4) : vec3 := mkVec3 (r v) (g v) (b v).

(** [vec4(v, w)]. *)
Definition vec4_of (v : vec3) (w : Q) : vec4 := mkVec4 (r3 v) (g3 v) (b3 v) w.

(** Two colours with the same value in every channel. *)
Definition vec4_eq (u v : vec4) : Prop :=
  r u == r v /\ g u == g v /\ b u == b v /\ a u == a v.

(** [x < y] on floats. *)
Definition ltb (x y : Q) : bool := negb (Qle_bool y x).

(** A texel of an 8-bit UNORM image with four channels. *)
Record Texel := mkTexel { red : Z; green : Z; blue : Z; alpha : Z }.

(** The format conversions of the Vulkan specification: a channel [c]
    is read as c/255, and a float is stored as its clamp to [0, 1] times
    255, rounded to the nearest integer. *)
Definition unorm8_to_float (c : Z) : Q := inject_Z c / 255.

Definition clamp01 (q : Q) : Q :=
  if Qle_bool q 0 then 0 else if Qle_bool 1 q then 1 else q.

Definition float_to_unorm8 (q : Q) : Z := Qfloor (clamp01 q * 255 + (1 # 2)).

Definition decode_texel (t : Texel) : vec4 :=
  mkVec4 (unorm8_to_float (red t)) (unorm8_to_float (green t))
         (unorm8_to_float (blue t)) (unorm8_to_float (alpha t)).

Definition encode_texel (v : vec4) : Texel :=
  mkTexel (float_to_unorm8 (r v)) (float_to_unorm8 (g v))
          (float_to_unorm8 (b v)) (float_to_unorm8 (a v)).

End Glsl.

(** ** compute.comp and its dispatch in the compute example *)

Module ComputeShader.
Import Glsl.

(** An rgba8 storage image. *)
Record Image := mkImage {
  width : Z;
  height : Z;
  texel : Z -> Z -> Texel
}.

Definition ivec2 := (Z * Z)%type.
Definition uvec3 := (Z * Z * Z)%type.

Definition imageSize (img : Image) : ivec2 := (width img, height img).

Definition inside (img : Image) (p : ivec2) : Prop :=
  0 <= fst p < width img /\ 0 <= snd p < height img.

Definition insideb (img : Image) (p : ivec2) : bool :=
  (0 <=? fst p) && (fst p <? width img) && (0 <=? snd p) && (snd p <? height img).

(** [imageLoad]; a load outside the image gives zeros, as with robust
    image access. *)
Definition imageLoad (img : Image) (p : ivec2) : vec4 :=
  if insideb img p then decode_texel (texel img (fst p) (snd p))
  else mkVec4 0 0 0 0.

(** [imageStore]; a store outside the image is dropped. *)
Definition imageStore (img : Image) (p : ivec2) (v : vec4) : Image :=
  if insideb img p
  then mkImage (width img) (height img)
         (fun x y => if (x =? fst p) && (y =? snd p)
                     then encode_texel v else texel img x y)
  else img.

(** The conversion of a 32-bit [uint] to [int] keeps the bits. *)
Definition int_of_uint (u : Z) : Z :=
  if u <? 2147483648 then u else u - 4294967296.

(** [ivec2(gl_GlobalInvocationID.xy)]. *)
Definition pixel_coord_of (gl_GlobalInvocationID : uvec3) : ivec2 :=
  (int_of_uint (fst (fst gl_GlobalInvocationID)),
   int_of_uint (snd (fst gl_GlobalInvocationID))).

(** The image stores an invocation performs on [u_output_image]. *)
Inductive StoreOp := Store (p : ivec2) (v : vec4).

(** <<
    ivec2 size = imageSize(u_input_image);
    ivec2 pixel_coord = ivec2(gl_GlobalInvocationID.xy);
    if (pixel_coord.x < size.x && pixel_coord.y < size.y)
    {
        vec4 pixel = imageLoad(u_input_image, pixel_coord);
        vec3 invert = 1.0 - pixel.rgb;
        imageStore(u_output_image, pixel_coord, vec4(invert, 1.0));
    }
    >> *)
Definition main (u_input_image : Image) (gl_GlobalInvocationID : uvec3)
  : list StoreOp :=
  let size := imageSize u_input_image in
  let pixel_coord := pixel_coord_of gl_GlobalInvocationID in
  if (fst pixel_coord <? fst size) && (snd pixel_coord <? snd size) then
    let pixel := imageLoad u_input_image pixel_coord in
    let invert := mkVec3 (1 - r pixel) (1 - g pixel) (1 - b pixel) in
    [Store pixel_coord (vec4_of invert 1)]
  else [].

Definition perform (img : Image) (op : StoreOp) : Image :=
  match op with
  | Store p v => imageStore img p v
  end.

(** One invocation, and a sequence of invocations in the order they
    happen to run, on the output image. *)
Definition invoke (u_input_image : Image) (u_output_image : Image)
    (id : uvec3) : Image :=
  fold_left perform (main u_input_image id) u_output_image.

Definition run (u_input_image : Image) (order : list uvec3)
    (u_output_image : Image) : Image :=
  fold_left (invoke u_input_image) order u_output_image.

(** The global invocation ids along one axis: workgroup times local size
    plus local id. *)
Definition axis_ids (groupCount localSize : nat) : list Z :=
  flat_map (fun w => map (fun l => Z.of_nat (w * localSize + l)) (seq 0 localSize))
           (seq 0 groupCount).

(** [layout(local_size_x = 16, local_size_y = 16) in;] and
    [vkCmdDispatch(cmdBuffer, groupCountX, groupCountY, groupCountZ)]. *)
Definition dispatch_ids (groupCountX groupCountY groupCountZ : nat)
  : list uvec3 :=
  flat_map (fun z =>
    flat_map (fun y =>
      map (fun x => (x, y, z)) (axis_ids groupCountX 16))
      (axis_ids groupCountY 16))
    (axis_ids groupCountZ 1).

(** [vkCmdDispatch(cmdBuffer, 256 / 16, 256/16, 1)]. *)
Definition example_dispatch : list uvec3 :=
  dispatch_ids (256 / 16) (256 / 16) 1.

(** The colour-inverted texel: every colour channel c becomes 255 - c
    and alpha becomes 255. *)
Definition inverted (t : Texel) : Texel :=
  mkTexel (255 - red t) (255 - green t) (255 - blue t) 255.

Definition valid_texel (t : Texel) : Prop :=
  0 <= red t <= 255 /\ 0 <= green t <= 255
  /\ 0 <= blue t <= 255 /\ 0 <= alpha t <= 255.

End ComputeShader.

(** ** subpass_0_colorizer.frag and subpass_2_compose.frag *)

Module ComposeShader.
Import Glsl.

(** What an invocation of the colorizer writes to its three outputs
    (locations 1, 2 and 3); [None] is an output it does not write. *)
Record ColorizerOutputs := mkOutputs {
  colorRed : option vec4;
  colorGreen : option vec4;
  colorBlue : option vec4
}.

(** subpass_0_colorizer.frag (the local [color] is never read):
    <<
    switch(instanceId) {
        case 0: colorRed = vec4(fragColor.r, 0.0, 0.0, 1.0); break;
        case 1: colorGreen = vec4(0.0, fragColor.g, 0.0, 1.0); break;
        case 2: colorBlue = vec4(0.0, 0.0, fragColor.b, 1.0); break;
    }
    >> *)
Definition colorizer_main (fragColor : vec3) (instanceId : Z)
  : ColorizerOutputs :=
  if instanceId =? 0 then
    mkOutputs (Some (mkVec4 (r3 fragColor) 0 0 1)) None None
  else if instanceId =? 1 then
    mkOutputs None (Some (mkVec4 0 (g3 fragColor) 0 1)) None
  else if instanceId =? 2 then
    mkOutputs None None (Some (mkVec4 0 0 (b3 fragColor) 1))
  else mkOutputs None None None.

(** [VkClearValue clearColor = { { { 0.0f, 0.0f, 0.0f, 1.0f } } }],
    used for all four attachments. *)
Definition clearColor : vec4 := mkVec4 0 0 0 1.

(** The red, green and blue attachments at one pixel. *)
Record Attachments := mkAttachments {
  samplerRed : vec4;
  samplerGreen : vec4;
  samplerBlue : vec4
}.

(** What a colour attachment of the subpass receives from an output of
    the fragment shader: the value written, or some value [undef] that
    the Vulkan specification leaves open when the shader has not written
    the output (all pipelines have the full colour write mask and no
    blending). *)
Definition stored (out : option vec4) (undef : vec4) : vec4 :=
  match out with
  | Some v => v
  | None => undef
  end.

(** The attachments at a pixel that the triangle of instance
    [instanceId] covers and the two other triangles do not.  All
    attachments are cleared.  The triangles of instances 0 and 1 are drawn
    in subpass 0, whose colour attachments are the red and the green
    image (outputs 1 and 2); the triangle of instance 2 is drawn in
    subpass 1, whose only colour attachment is the blue image (output
    3). *)
Definition covered_by_one (fragColor : vec3) (instanceId : Z) (undef : vec4)
  : Attachments :=
  let out := colorizer_main fragColor instanceId in
  if instanceId <? 2
  then mkAttachments (stored (colorRed out) undef)
                     (stored (colorGreen out) undef)
                     clearColor
  else mkAttachments clearColor clearColor (stored (colorBlue out) undef).

Definition target : vec3 := mkVec3 (1 # 100) (1 # 100) (1 # 100).

(** [any(lessThan(x, y))]. *)
Definition any_lessThan (x y : vec3) : bool :=
  ltb (r3 x) (r3 y) || ltb (g3 x) (g3 y) || ltb (b3 x) (b3 y).

(** [mod(x, y)] is x - y * floor(x / y). *)
Definition mod_ (x y : Q) : Q := x - y * inject_Z (Qfloor (x / y)).

(** [vec3(int(b))]: 1.0 or 0.0 in every component. *)
Definition vec3_of_bool (t : bool) : vec3 :=
  if t then mkVec3 1 1 1 else mkVec3 0 0 0.

Definition mul3 (x y : vec3) : vec3 :=
  mkVec3 (r3 x * r3 y) (g3 x * g3 y) (b3 x * b3 y).

(** <<
    const vec3 target = vec3(0.01, 0.01, 0.01);
    float colorRed = subpassLoad(samplerRed).r;
    float colorGreen = subpassLoad(samplerGreen).g;
    float colorBlue = subpassLoad(samplerBlue).b;
    vec3 color = vec3(colorRed, colorGreen, colorBlue);
    if (any(lessThan(color, target))) {
        color = vec3(0.1, 0.1, 0.1);
        color.rgb *= vec3(int(mod(gl_FragCoord.x, 40) < 20));
        color.rgb *= vec3(int(mod(gl_FragCoord.y, 40) < 20));
    }
    outColor = vec4(color, 1.0);
    >> *)
Definition main (att : Attachments) (gl_FragCoord : Q * Q) : vec4 :=
  let colorRed := r (samplerRed att) in
  let colorGreen := g (samplerGreen att) in
  let colorBlue := b (samplerBlue att) in
  let color := mkVec3 colorRed colorGreen colorBlue in
  let color :=
    if any_lessThan color target then
      let color := mkVec3 (1 # 10) (1 # 10) (1 # 10) in
      let color := mul3 color (vec3_of_bool (ltb (mod_ (fst gl_FragCoord) 40) 20)) in
      let color := mul3 color (vec3_of_bool (ltb (mod_ (snd gl_FragCoord) 40) 20)) in
      color
    else color in
  vec4_of color 1.

(** The checkerboard background: gray 0.1 where both mod(x,40) < 20
    and mod(y,40) < 20, black otherwise. *)
Definition checkerboard (gl_FragCoord : Q * Q) : vec4 :=
  if ltb (mod_ (fst gl_FragCoord) 40) 20 && ltb (mod_ (snd gl_FragCoord) 40) 20
  then mkVec4 (1 # 10) (1 # 10) (1 # 10) 1
  else mkVec4 0 0 0 1.

(** A colour with only channel [instanceId] other than zero. *)
Definition only_channel (instanceId : Z) (c : vec4) : Prop :=
  (instanceId = 0 -> ~ r c == 0 /\ g c == 0 /\ b c == 0)
  /\ (instanceId = 1 -> r c == 0 /\ ~ g c == 0 /\ b c == 0)
  /\ (instanceId = 2 -> r c == 0 /\ g c == 0 /\ ~ b c == 0).

End ComposeShader.

(** ** The draw-and-present loop (step G.25 of vktriangle_glfw.cpp)

    The loop body is written in a small monad of its own: a native call
    takes its answer from a script of answers, the environment of the
    run, and every call is recorded in a trace. *)

Module FrameLoop.

Inductive VkResult :=
| VK_SUCCESS
| VK_NOT_READY
| VK_TIMEOUT
| VK_SUBOPTIMAL_KHR
| VK_ERROR_OUT_OF_HOST_MEMORY
| VK_ERROR_OUT_OF_DEVICE_MEMORY
| VK_ERROR_DEVICE_LOST
| VK_ERROR_OUT_OF_DATE_KHR
| VK_ERROR_SURFACE_LOST_KHR.

(** [r == VK_SUCCESS]. *)
Definition is_success (r : VkResult) : bool :=
  match r with
  | VK_SUCCESS => true
  | _ => false
  end.

(** [const uint32_t imagesInFlight = 2;] *)
Definition imagesInFlight : nat := 2.

(** The handles: fence [i] is [activeFences[i]]; command buffer [k]
    is [cmdBuffers[k]], which draws into swapchain image [k]. *)
Definition Fence := nat.

Inductive Semaphore :=
| imageAvailableSemaphores (i : nat)
| renderFinishedSemaphores (i : nat).

(** The calls of the loop whose answer the program takes from outside.
    Both waits and the acquire are made with the timeout UINT64_MAX. *)
Inductive Call :=
| glfwWindowShouldClose
| vkWaitForFences (fence : Fence)
| vkAcquireNextImageKHR (semaphore : Semaphore)
| vkResetFences (fence : Fence)
| vkQueueSubmit (waitSemaphore : Semaphore) (commandBuffer : nat)
                (signalSemaphore : Semaphore) (fence : Fence)
| vkQueuePresentKHR (waitSemaphore : Semaphore) (imageIndex : nat).

Inductive HostCall :=
| glfwPollEvents
| usleep (usec : Z).

(** What the device has in hand: which fences are signaled, and the
    submitted command buffers that have not finished, each with the
    fence it signals when it does. *)
Record Gpu := mkGpu {
  signaled : Fence -> bool;
  pending : list (nat * Fence)
}.

(** The work submitted with fence [f] finishes. *)
Definition complete (g : Gpu) (f : Fence) : Gpu :=
  if existsb (fun s => snd s =? f)%nat (pending g)
  then mkGpu (fun f' => if (f' =? f)%nat then true else signaled g f')
             (List.filter (fun s => negb (snd s =? f)%nat) (pending g))
  else g.

(** What a call does to the device when it returns [r]. *)
Definition effect (g : Gpu) (c : Call) (r : VkResult) : Gpu :=
  match c with
  | vkResetFences f =>
      if is_success r
      then mkGpu (fun f' => if (f' =? f)%nat then false else signaled g f')
                 (pending g)
      else g
  | vkQueueSubmit _ commandBuffer _ f =>
      if is_success r
      then mkGpu (signaled g) (pending g ++ [(commandBuffer, f)])
      else g
  | _ => g
  end.

(** The answer to one call: the work that has finished on the device
    since the call before, the result code, and the value written
    through the out-pointer ([imageIndex] for the acquire; not zero for
    "true" of [glfwWindowShouldClose]). *)
Record Answer := mkAnswer {
  completed : list Fence;
  result : VkResult;
  out : nat
}.

(** A call in the trace, with the state of the device at the call. *)
Inductive Event :=
| Native (c : Call) (ans : Answer) (before : Gpu)
| Host (h : HostCall).

Record World := mkWorld {
  gpu : Gpu;
  script : list Answer;
  trace : list Event
}.

(** How a piece of the program ends: with a value, with an uncaught
    [std::runtime_error], with undefined behaviour (a vector indexed out
    of range), or waiting for an answer the script does not have. *)
Inductive Outcome (A : Type) : Type :=
| Value (a : A)
| Thrown (what : string)
| Undefined
| Blocked.

Arguments Value {A} a.
Arguments Thrown {A} what.
Arguments Undefined {A}.
Arguments Blocked {A}.

Definition M (A : Type) : Type := World -> Outcome A * World.

Definition ret {A : Type} (a : A) : M A := fun w => (Value a, w).

Definition bind {A B : Type} (m : M A) (k : A -> M B) : M B :=
  fun w =>
    match m w with
    | (Value a, w') => k a w'
    | (Thrown what, w') => (Thrown what, w')
    | (Undefined, w') => (Undefined, w')
    | (Blocked, w') => (Blocked, w')
    end.

Definition throw {A : Type} (what : string) : M A := fun w => (Thrown what, w).

Definition native (c : Call) : M Answer :=
  fun w =>
    match script w with
    | [] => (Blocked, w)
    | ans :: rest =>
        let before := fold_left complete (completed ans) (gpu w) in
        (Value ans,
         mkWorld (effect before c (result ans)) rest
                 (trace w ++ [Native c ans before]))
    end.

Definition host (h : HostCall) : M unit :=
  fun w => (Value tt, mkWorld (gpu w) (script w) (trace w ++ [Host h])).

(** [v[i]] of a [std::vector]. *)
Definition at_ {A : Type} (v : list A) (i : nat) : M A :=
  fun w =>
    match v !! i with
    | Some a => (Value a, w)
    | None => (Undefined, w)
    end.

Notation "x <- m ;; k" := (bind m (fun x => k))
  (at level 62, m at next level, right associativity).
Notation "m ;;; k" := (bind m (fun _ => k))
  (at level 62, right associativity).

(** The variables of the loop: [activeSyncIdx] and the table
    [swapImagesFences], whose entries are a fence or VK_NULL_HANDLE. *)
Record Loop := mkLoop {
  activeSyncIdx : nat;
  swapImagesFences : list (option Fence)
}.

(** One turn of the loop body, vktriangle_glfw.cpp lines 1025-1087:
    <<
    glfwPollEvents();
    vkWaitForFences(device, 1, &activeFences[activeSyncIdx], VK_TRUE, UINT64_MAX);
    uint32_t imageIndex;
    vkAcquireNextImageKHR(device, swapchain, UINT64_MAX,
        imageAvailableSemaphores[activeSyncIdx], VK_NULL_HANDLE, &imageIndex);
    if (swapImagesFences[imageIndex] != VK_NULL_HANDLE) {
        vkWaitForFences(device, 1, &swapImagesFences[imageIndex], VK_TRUE, UINT64_MAX);
    }
    swapImagesFences[imageIndex] = activeFences[activeSyncIdx];
    ... submitInfo waits on imageAvailableSemaphores[activeSyncIdx], runs
        cmdBuffers[imageIndex], signals renderFinishedSemaphores[activeSyncIdx] ...
    vkResetFences(device, 1, &activeFences[activeSyncIdx]);
    if (vkQueueSubmit(queue, 1, &submitInfo, activeFences[activeSyncIdx]) != VK_SUCCESS) {
        throw std::runtime_error("failed to submit command buffer!");
    }
    ... presentInfo waits on renderFinishedSemaphores[activeSyncIdx] ...
    vkQueuePresentKHR(queue, &presentInfo);
    activeSyncIdx = (activeSyncIdx + 1) % imagesInFlight;
    usleep((int)(0.15 * 1000000));
    >> *)
Definition iteration (st : Loop) : M Loop :=
  let i := activeSyncIdx st in
  host glfwPollEvents ;;;
  native (vkWaitForFences i) ;;;
  acquired <- native (vkAcquireNextImageKHR (imageAvailableSemaphores i)) ;;
  let imageIndex := out acquired in
  entry <- at_ (swapImagesFences st) imageIndex ;;
  match entry with
  | Some f => native (vkWaitForFences f) ;;; ret tt
  | None => ret tt
  end ;;;
  let table := <[imageIndex := Some i]> (swapImagesFences st) in
  native (vkResetFences i) ;;;
  submitted <- native (vkQueueSubmit (imageAvailableSemaphores i) imageIndex
                                     (renderFinishedSemaphores i) i) ;;
  if negb (is_success (result submitted))
  then throw "failed to submit command buffer!"
  else
    native (vkQueuePresentKHR (renderFinishedSemaphores i) imageIndex) ;;;
    let next := ((i + 1) mod imagesInFlight)%nat in
    host (usleep 150000) ;;;
    ret (mkLoop next table).

(** [while (!glfwWindowShouldClose(window)) { ... }]; the fuel bounds
    the number of turns that are looked at. *)
Fixpoint loop (fuel : nat) (st : Loop) : M Loop :=
  match fuel with
  | O => fun w => (Blocked, w)
  | S fuel' =>
      closed <- native glfwWindowShouldClose ;;
      if negb (out closed =? 0)%nat then ret st
      else st' <- iteration st ;; loop fuel' st'
  end.

(** The state in which the loop is entered: [activeSyncIdx = 0], a
    table of VK_NULL_HANDLE for the [images] images of the swapchain,
    fences created signaled, nothing submitted. *)
Definition initial_loop (images : nat) : Loop :=
  mkLoop 0 (replicate images None).

Definition initial_gpu : Gpu := mkGpu (fun _ => true) [].

Definition initial_world (answers : list Answer) : World :=
  mkWorld initial_gpu answers [].

(** The call of an event, without its answer. *)
Inductive Op :=
| NativeOp (c : Call)
| HostOp (h : HostCall).

Definition op_of (e : Event) : Op :=
  match e with
  | Native c _ _ => NativeOp c
  | Host h => HostOp h
  end.

(** The calls of one turn of the loop in slot [i] that acquires image
    [imageIndex] and finds [entry] in the table. *)
Definition turn_ops (i imageIndex : nat) (entry : option Fence) : list Op :=
  [HostOp glfwPollEvents;
   NativeOp (vkWaitForFences i);
   NativeOp (vkAcquireNextImageKHR (imageAvailableSemaphores i))]
  ++ match entry with
     | Some f => [NativeOp (vkWaitForFences f)]
     | None => []
     end
  ++ [NativeOp (vkResetFences i);
      NativeOp (vkQueueSubmit (imageAvailableSemaphores i) imageIndex
                              (renderFinishedSemaphores i) i);
      NativeOp (vkQueuePresentKHR (renderFinishedSemaphores i) imageIndex);
      HostOp (usleep 150000)].

(** The calls of a turn that ends in the throw after the submit. *)
Definition failed_turn_ops (i imageIndex : nat) (entry : option Fence)
  : list Op :=
  [HostOp glfwPollEvents;
   NativeOp (vkWaitForFences i);
   NativeOp (vkAcquireNextImageKHR (imageAvailableSemaphores i))]
  ++ match entry with
     | Some f => [NativeOp (vkWaitForFences f)]
     | None => []
     end
  ++ [NativeOp (vkResetFences i);
      NativeOp (vkQueueSubmit (imageAvailableSemaphores i) imageIndex
                              (renderFinishedSemaphores i) i)].

(** The number of answers the guard of the loop takes. *)
Definition guard_calls (entry : option Fence) : nat :=
  match entry with
  | Some _ => 1
  | None => 0
  end.

(** A wait that returned VK_SUCCESS found its fence signaled: this is
    what the Vulkan specification says of [vkWaitForFences]. *)
Definition consistent (e : Event) : Prop :=
  match e with
  | Native (vkWaitForFences f) ans before =>
      result ans = VK_SUCCESS -> signaled before f = true
  | _ => True
  end.

(** The waits and the resets of fences, whose results the loop does not
    look at, returned VK_SUCCESS. *)
Definition unchecked_calls_succeeded (e : Event) : Prop :=
  match e with
  | Native (vkWaitForFences _) ans _ => result ans = VK_SUCCESS
  | Native (vkResetFences _) ans _ => result ans = VK_SUCCESS
  | _ => True
  end.

(** A submit is clean when no command buffer submitted earlier for the
    same image is still unfinished, that is, when the fence of the slot
    that owned the image has been signaled since. *)
Definition clean (e : Event) : Prop :=
  match e with
  | Native (vkQueueSubmit _ commandBuffer _ _) _ before =>
      forall f, ~ In (commandBuffer, f) (pending before)
  | _ => True
  end.

(** The two conditions together: the environment of a run in which the
    unchecked waits and resets do what they are called for. *)
Definition fair (e : Event) : Prop :=
  consistent e /\ unchecked_calls_succeeded e.

(** The fence table accounts for the unfinished work: a command buffer
    in flight for image [img] with fence [f] has [f] not signaled, and
    the table holds [f] for [img]. *)
Definition owned (table : list (option Fence)) (g : Gpu) : Prop :=
  forall img f,
    In (img, f) (pending g) ->
    signaled g f = false /\ table !! img = Some (Some f).

(** No unfinished work signals fence [f]; no unfinished work draws into
    image [img]. *)
Definition idle (f : Fence) (g : Gpu) : Prop :=
  forall img, ~ In (img, f) (pending g).

Definition free (img : nat) (g : Gpu) : Prop :=
  forall f, ~ In (img, f) (pending g).

(** [guarded R w]: if the run so far was fair, the device satisfies [R]
    and every submit so far was clean. *)
Definition guarded (R : Gpu -> Prop) (w : World) : Prop :=
  Forall fair (trace w) -> R (gpu w) /\ Forall clean (trace w).

(** A Hoare triple for guarded runs. *)
Definition triple {A : Type} (R : Gpu -> Prop) (m : M A)
    (R' : A -> Gpu -> Prop) : Prop :=
  forall w,
    guarded R w ->
    match m w with
    | (Value a, w') => guarded (R' a) w'
    | (_, w') => guarded (fun _ => True) w'
    end.

(** The claim that any result other than VK_SUCCESS ends the program. *)
Definition failure_is_fatal (e : Event) : Prop :=
  match e with
  | Native c ans _ =>
      match c with
      | glfwWindowShouldClose => True
      | _ => result ans = VK_SUCCESS
      end
  | Host _ => True
  end.

End FrameLoop.

(** ** Fixed-width integers of C++ *)

Module CInt.

(** A conversion to [uint8_t], [uint16_t] or [uint32_t] keeps the low
    bits. *)
Definition uint8 (z : Z) : Z := z mod 256.
Definition uint16 (z : Z) : Z := z mod 65536.
Definition uint32 (z : Z) : Z := z mod 4294967296.

(** The [int] with the same 32 bits (two's complement). *)
Definition int32 (z : Z) : Z := (z + 2147483648) mod 4294967296 - 2147483648.

End CInt.

(** ** [FindMemoryType] (the same text in all five programs) *)

Module MemoryType.

Definition VK_MAX_MEMORY_TYPES : nat := 32.

Record VkMemoryType := mkMemoryType {
  propertyFlags : Z;
  heapIndex : Z
}.

(** [VkPhysicalDeviceMemoryProperties] as
    [vkGetPhysicalDeviceMemoryProperties] fills it: [memoryTypes] is the
    array of VK_MAX_MEMORY_TYPES entries, of which the first
    [memoryTypeCount] are meant ([memoryHeaps] is not read). *)
Record VkPhysicalDeviceMemoryProperties := mkMemoryProperties {
  memoryTypeCount : nat;
  memoryTypes : list VkMemoryType
}.

(** [typeFilter & (1 << i)]: [1 << i] is an [int] that is converted to
    [uint32_t] for the [&]. *)
Definition filter_bit (typeFilter : Z) (i : nat) : Z :=
  Z.land typeFilter (CInt.uint32 (Z.shiftl 1 (Z.of_nat i))).

(** <<
    for (uint32_t i = 0; i < memProperties.memoryTypeCount; i++) {
        if ((typeFilter & (1 << i))
            && (memProperties.memoryTypes[i].propertyFlags & properties) == properties) {
            return i;
        }
    }
    throw std::runtime_error("failed to find suitable memory type!");
    >>
    [left] turns of the loop are left to run.  [1 << i] shifts an
    [int] of 32 bits: with [i] of 32 or more it is undefined.  The [&&]
    reads [memoryTypes[i]] only when the filter has bit [i]; a read past
    the end of the array is undefined. *)
Fixpoint search (memProperties : VkPhysicalDeviceMemoryProperties)
    (typeFilter properties : Z) (i left : nat) : FrameLoop.Outcome nat :=
  match left with
  | O => FrameLoop.Thrown "failed to find suitable memory type!"
  | S left' =>
      if (32 <=? i)%nat then FrameLoop.Undefined
      else if negb (filter_bit typeFilter i =? 0) then
        match memoryTypes memProperties !! i with
        | None => FrameLoop.Undefined
        | Some t =>
            if Z.land (propertyFlags t) properties =? properties
            then FrameLoop.Value i
            else search memProperties typeFilter properties (S i) left'
        end
      else search memProperties typeFilter properties (S i) left'
  end.

(** [memProperties] is what [vkGetPhysicalDeviceMemoryProperties]
    reports of [physicalDevice]. *)
Definition FindMemoryType (memProperties : VkPhysicalDeviceMemoryProperties)
    (typeFilter properties : Z) : FrameLoop.Outcome nat :=
  search memProperties typeFilter properties 0 (memoryTypeCount memProperties).

(** Memory type [i] suits a request: the filter has bit [i], and the
    type has every property bit that is asked for. *)
Definition suitable (memProperties : VkPhysicalDeviceMemoryProperties)
    (typeFilter properties : Z) (i : nat) : Prop :=
  Z.testbit typeFilter (Z.of_nat i) = true
  /\ exists t, memoryTypes memProperties !! i = Some t
               /\ forall b, Z.testbit properties b = true ->
                            Z.testbit (propertyFlags t) b = true.

End MemoryType.

(** ** [FindQueueFamily] and the choice of the physical device (step 2
    of every [main]) *)

Module QueueFamily.

Definition VK_QUEUE_GRAPHICS_BIT : Z := 1.
Definition UINT32_MAX : Z := 4294967295.
Definition VK_NULL_HANDLE : N := 0.

Record VkQueueFamilyProperties := mkQueueFamily {
  queueFlags : Z;
  queueCount : Z
}.

(** What the driver tells of one physical device: its handle, the
    queue families [vkGetPhysicalDeviceQueueFamilyProperties] lists, and
    the [VkBool32] that [vkGetPhysicalDeviceSurfaceSupportKHR] writes for
    a surface and a queue family index. *)
Record PhysicalDevice := mkPhysicalDevice {
  handle : N;
  queueFamilies : list VkQueueFamilyProperties;
  presentSupport : N -> Z -> Z
}.

(** [queueFamily.queueFlags & VK_QUEUE_GRAPHICS_BIT] as a condition. *)
Definition graphics (queueFamily : VkQueueFamilyProperties) : bool :=
  negb (Z.land (queueFlags queueFamily) VK_QUEUE_GRAPHICS_BIT =? 0).

(** [queueFamilyIdx++] on a [uint32_t]. *)
Definition next (queueFamilyIdx : Z) : Z := (queueFamilyIdx + 1) mod 4294967296.

(** vktriangle.cpp and the compute example (every caller passes a
    [hasIdx] that is not null; the function starts with [*hasIdx = false]):
    <<
    uint32_t queueFamilyIdx = 0;
    for (const VkQueueFamilyProperties& queueFamily : queueFamilies) {
        if (queueFamily.queueFlags & VK_QUEUE_GRAPHICS_BIT) {
            *hasIdx = true;
            return queueFamilyIdx;
        }
        queueFamilyIdx++;
    }
    return UINT32_MAX;
    >> *)
Module Offscreen.

Fixpoint scan (families : list VkQueueFamilyProperties) (queueFamilyIdx : Z)
    (hasIdx : bool) : Z * bool :=
  match families with
  | [] => (UINT32_MAX, hasIdx)
  | queueFamily :: rest =>
      if graphics queueFamily then (queueFamilyIdx, true)
      else scan rest (next queueFamilyIdx) hasIdx
  end.

Definition FindQueueFamily (device : PhysicalDevice) : Z * bool :=
  scan (queueFamilies device) 0 false.

End Offscreen.

(** vktriangle_glfw.cpp and vktriangle_subpass.cpp:
    <<
    if (queueFamily.queueFlags & VK_QUEUE_GRAPHICS_BIT) {
        *hasIdx = true;
        VkBool32 presentSupport;
        vkGetPhysicalDeviceSurfaceSupportKHR(device, queueFamilyIdx, surface, &presentSupport);
        if (presentSupport) {
            return queueFamilyIdx;
        }
    }
    queueFamilyIdx++;
    >> *)
Module Swapchain.

Fixpoint scan (device : PhysicalDevice) (surface : N)
    (families : list VkQueueFamilyProperties) (queueFamilyIdx : Z)
    (hasIdx : bool) : Z * bool :=
  match families with
  | [] => (UINT32_MAX, hasIdx)
  | queueFamily :: rest =>
      if graphics queueFamily then
        if negb (presentSupport device surface queueFamilyIdx =? 0)
        then (queueFamilyIdx, true)
        else scan device surface rest (next queueFamilyIdx) true
      else scan device surface rest (next queueFamilyIdx) hasIdx
  end.

Definition FindQueueFamily (surface : N) (device : PhysicalDevice) : Z * bool :=
  scan device surface (queueFamilies device) 0 false.

End Swapchain.

(** vktriangle_external_memory.cpp, whose producer thread passes
    VK_NULL_HANDLE for the surface:
    <<
    if (queueFamily.queueFlags & VK_QUEUE_GRAPHICS_BIT) {
        *hasIdx = true;
        if (surface != VK_NULL_HANDLE) {
            VkBool32 presentSupport;
            vkGetPhysicalDeviceSurfaceSupportKHR(device, queueFamilyIdx, surface, &presentSupport);
            if (presentSupport) {
                return queueFamilyIdx;
            }
        } else {
            return queueFamilyIdx;
        }
    }
    queueFamilyIdx++;
    >> *)
Module ExternalMemory.

Fixpoint scan (device : PhysicalDevice) (surface : N)
    (families : list VkQueueFamilyProperties) (queueFamilyIdx : Z)
    (hasIdx : bool) : Z * bool :=
  match families with
  | [] => (UINT32_MAX, hasIdx)
  | queueFamily :: rest =>
      if graphics queueFamily then
        if negb (surface =? VK_NULL_HANDLE)%N then
          if negb (presentSupport device surface queueFamilyIdx =? 0)
          then (queueFamilyIdx, true)
          else scan device surface rest (next queueFamilyIdx) true
        else (queueFamilyIdx, true)
      else scan device surface rest (next queueFamilyIdx) hasIdx
  end.

Definition FindQueueFamily (surface : N) (device : PhysicalDevice) : Z * bool :=
  scan device surface (queueFamilies device) 0 false.

End ExternalMemory.

(** Step 2.3 of [main]:
    <<
    for (const VkPhysicalDevice& device : devices) {
        bool hasIdx;
        graphicsQueueFamilyIdx = FindQueueFamily(device, surface, &hasIdx);
        if (hasIdx) {
            physicalDevice = device;
            break;
        }
    }
    >> *)
Fixpoint pick (find : PhysicalDevice -> Z * bool) (devices : list PhysicalDevice)
    (physicalDevice : N) (graphicsQueueFamilyIdx : Z) : N * Z :=
  match devices with
  | [] => (physicalDevice, graphicsQueueFamilyIdx)
  | device :: rest =>
      let (idx, hasIdx) := find device in
      if hasIdx then (handle device, idx)
      else pick find rest physicalDevice idx
  end.

(** Step 2 of [main].  [physicalDevice] and [graphicsQueueFamilyIdx]
    are declared without an initial value; [uninitialized] is what they
    hold then.
    <<
    VkPhysicalDevice physicalDevice;
    uint32_t graphicsQueueFamilyIdx;
    ...
    if (deviceCount == 0) {
        throw std::runtime_error("failed to find GPUs with Vulkan support!");
    }
    ... the loop of step 2.3 ...
    if (physicalDevice == VK_NULL_HANDLE) {
        throw std::runtime_error("failed to find a suitable GPU!");
    }
    >> *)
Definition select_physical_device (find : PhysicalDevice -> Z * bool)
    (devices : list PhysicalDevice) (uninitialized : N * Z) : Result (N * Z) :=
  let deviceCount := length devices in
  if (deviceCount =? 0)%nat
  then Throws "failed to find GPUs with Vulkan support!"
  else
    let (physicalDevice, graphicsQueueFamilyIdx) :=
      pick find devices (fst uninitialized) (snd uninitialized) in
    if (physicalDevice =? VK_NULL_HANDLE)%N
    then Throws "failed to find a suitable GPU!"
    else Returns (physicalDevice, graphicsQueueFamilyIdx).

(** Queue family [k] of the device has the graphics bit; it has the
    graphics bit and can present to the surface. *)
Definition graphics_at (device : PhysicalDevice) (k : nat) : Prop :=
  exists queueFamily,
    queueFamilies device !! k = Some queueFamily /\ graphics queueFamily = true.

Definition presentable_at (device : PhysicalDevice) (surface : N) (k : nat)
  : Prop :=
  graphics_at device k /\ presentSupport device surface (Z.of_nat k) <> 0.

(** [k] is the first number with [P]. *)
Definition first (P : nat -> Prop) (k : nat) : Prop :=
  P k /\ forall j, (j < k)%nat -> ~ P j.

(** The number of queue families is one a [uint32_t] count can report. *)
Definition representable (device : PhysicalDevice) : Prop :=
  Z.of_nat (length (queueFamilies device)) <= UINT32_MAX.

End QueueFamily.

(** ** vkmininfo: [GetVersionInfo], [DumpExtensions] and the flag lists
    of [DumpPhysicalDeviceInfos] *)

Module Version.
Import CInt.

(** <<
    struct VersionInfo { uint8_t variant; uint8_t major; uint16_t minor; uint16_t patch; };
    >> *)
Record VersionInfo := mkVersionInfo {
  variant : Z;
  major : Z;
  minor : Z;
  patch : Z
}.

(** <<
    #define VK_API_VERSION_VARIANT(version) ((uint32_t)(version) >> 29U)
    #define VK_API_VERSION_MAJOR(version) (((uint32_t)(version) >> 22U) & 0x7FU)
    #define VK_API_VERSION_MINOR(version) (((uint32_t)(version) >> 12U) & 0x3FFU)
    #define VK_API_VERSION_PATCH(version) ((uint32_t)(version) & 0xFFFU)
    >> *)
Definition VK_API_VERSION_VARIANT (version : Z) : Z :=
  Z.shiftr (uint32 version) 29.

Definition VK_API_VERSION_MAJOR (version : Z) : Z :=
  Z.land (Z.shiftr (uint32 version) 22) 127.

Definition VK_API_VERSION_MINOR (version : Z) : Z :=
  Z.land (Z.shiftr (uint32 version) 12) 1023.

Definition VK_API_VERSION_PATCH (version : Z) : Z :=
  Z.land (uint32 version) 4095.

(** The four values are converted to the types of the fields. *)
Definition GetVersionInfo (encodedVersion : Z) : VersionInfo :=
  mkVersionInfo (uint8 (VK_API_VERSION_VARIANT encodedVersion))
                (uint8 (VK_API_VERSION_MAJOR encodedVersion))
                (uint16 (VK_API_VERSION_MINOR encodedVersion))
                (uint16 (VK_API_VERSION_PATCH encodedVersion)).

(** In [CreateInstance]:
    <<
    #define VK_MAKE_API_VERSION(variant, major, minor, patch) \
        ((((uint32_t)(variant)) << 29) | (((uint32_t)(major)) << 22) \
         | (((uint32_t)(minor)) << 12) | ((uint32_t)(patch)))
    >> *)
Definition VK_MAKE_API_VERSION (variant major minor patch : Z) : Z :=
  Z.lor (Z.lor (Z.lor (uint32 (Z.shiftl (uint32 variant) 29))
                      (uint32 (Z.shiftl (uint32 major) 22)))
               (uint32 (Z.shiftl (uint32 minor) 12)))
        (uint32 patch).

End Version.

Module Info.
Import CInt.

(** [extensionName] is the text of the array of 256 chars up to its
    NUL. *)
Record VkExtensionProperties := mkExtension {
  extensionName : string;
  specVersion : Z
}.

Definition strnlen (s : string) (maxlen : nat) : nat :=
  Nat.min (String.length s) maxlen.

(** <<
    uint32_t maxWidth = std::accumulate(exts.begin(), exts.end(), 10u,
        [](uint32_t value, const VkExtensionProperties& extA) {
            return std::max(value, (uint32_t)strnlen(extA.extensionName, 256));
        });
    >> *)
Definition maxWidth (exts : list VkExtensionProperties) : Z :=
  fold_left
    (fun value extA =>
       Z.max value (uint32 (Z.of_nat (strnlen (extensionName extA) 256))))
    exts 10.

Fixpoint spaces (n : nat) : string :=
  match n with
  | O => EmptyString
  | S n' => String " " (spaces n')
  end.

(** The conversion [%*s] of [printf] with the [int] [width]: the text
    is padded with spaces to the width, on the right when the width is
    negative. *)
Definition pad (width : Z) (s : string) : string :=
  let fill := spaces (Z.to_nat (Z.abs width) - String.length s) in
  if width <? 0 then (s ++ fill)%string else (fill ++ s)%string.

(** The conversion [%u]. *)
Definition decimal (n : Z) : string :=
  NilZero.string_of_uint (N.to_uint (Z.to_N n)).

(** The line of one extension; [-maxWidth - 2] is computed in
    [uint32_t], and [printf] reads the argument as the [int] with the
    same bits:
    <<
    printf("    %*s : version %u\n", -maxWidth - 2, ext.extensionName, ext.specVersion);
    >> *)
Definition extension_line (maxWidth : Z) (ext : VkExtensionProperties) : string :=
  ("    " ++ pad (int32 (uint32 (uint32 (- maxWidth) - 2))) (extensionName ext)
     ++ " : version " ++ decimal (specVersion ext)
     ++ String "010" EmptyString)%string.

(** The lines [DumpExtensions] prints:
    <<
    printf("%s (count = %ld)\n", header.c_str(), exts.size());
    for (const VkExtensionProperties& ext : exts) { ... }
    >> *)
Definition DumpExtensions (header : string) (exts : list VkExtensionProperties)
  : list string :=
  (header ++ " (count = " ++ decimal (Z.of_nat (length exts)) ++ ")"
     ++ String "010" EmptyString)%string
  :: map (extension_line (maxWidth exts)) exts.

(** The flags whose names [DumpPhysicalDeviceInfos] prints under a
    memory type or a memory heap, in the order of the lines:
    <<
    for (uint32_t shift = 0; shift < 32; shift++) {
        VkMemoryPropertyFlagBits flag =
            static_cast<VkMemoryPropertyFlagBits>(memType.propertyFlags & (1U << shift));
        if (flag) {
            printf("         | %s\n", string_VkMemoryPropertyFlagBits(flag));
        }
    }
    >> *)
Fixpoint flag_lines (flags : Z) (shift left : nat) : list Z :=
  match left with
  | O => []
  | S left' =>
      let flag := Z.land flags (uint32 (Z.shiftl 1 (Z.of_nat shift))) in
      (if negb (flag =? 0) then [flag] else [])
        ++ flag_lines flags (S shift) left'
  end.

Definition printed_flags (flags : Z) : list Z := flag_lines flags 0 32.

End Info.

(** ** [BuildShader] of vktriangle_subpass.cpp (built without shaderc) *)

Module Shader.

(** The fields of [VkShaderModuleCreateInfo] that depend on the file. *)
Record VkShaderModuleCreateInfo := mkShaderModuleCreateInfo {
  codeSize : nat;
  pCode : list N
}.

(** [vkCreateShaderModule] is the answer of the driver: the result code
    and the handle it writes.
    <<
    std::vector<uint32_t> code = LoadSPIRV(filename + ".spv");
    if (code.size() == 0) {
        throw std::runtime_error("failed to load shader!");
    }
    ...
    info.codeSize = code.size() * sizeof(uint32_t);
    info.pCode = reinterpret_cast<uint32_t*>(code.data());
    VkShaderModule module;
    if (vkCreateShaderModule(device, &info, NULL, &module) != VK_SUCCESS) {
       throw std::runtime_error("failed to create shader module!");
    }
    return module;
    >> *)
Definition BuildShader (fs : Spirv.FileSystem)
    (vkCreateShaderModule : VkShaderModuleCreateInfo -> FrameLoop.VkResult * N)
    (filename : string) : Result N :=
  match Spirv.LoadSPIRV fs (filename ++ ".spv") with
  | Throws what => Throws what
  | Returns code =>
      if (length code =? 0)%nat then Throws "failed to load shader!"
      else
        let info := mkShaderModuleCreateInfo (length code * 4) code in
        let (result, module) := vkCreateShaderModule info in
        if negb (FrameLoop.is_success result)
        then Throws "failed to create shader module!"
        else Returns module
  end.

End Shader.

(** ** The compute example: the source image that [main] fills *)

Module ComputeExample.
Import CInt.

(** <<
    red = (((x & 0x8) == 0) ^ ((y & 0x8) == 0)) * 255;
    >>
    stored in a [uint8_t]. *)
Definition red_of (x y : Z) : Z :=
  uint8 (Z.b2z (xorb (Z.land x 8 =? 0) (Z.land y 8 =? 0)) * 255).

(** <<
    dataPtr[x * 256 + y] = red | (x << 8u) | (y << 16u) | (alpha << 24u);
    >>
    with [alpha = 255]; the shifts are computed in [int] ([255 << 24]
    does not fit an [int]: it is taken with the same 32 bits, as C++20
    defines it), and the value is converted to the [uint32_t] that is
    stored. *)
Definition texel_word (x y : Z) : Z :=
  let red := red_of x y in
  let alpha := 255 in
  uint32 (Z.lor (Z.lor (Z.lor red (int32 (Z.shiftl x 8)))
                       (int32 (Z.shiftl y 16)))
                (int32 (Z.shiftl alpha 24))).

(** [dataPtr[index] = word] for a [uint32_t* dataPtr] on a
    little-endian host. *)
Definition store32 (mem : Ppm.Memory) (dataPtr : N) (index : Z) (word : Z)
  : Ppm.Memory :=
  let base := (dataPtr + 4 * Z.to_N index)%N in
  fun a =>
    if (base <=? a)%N && (a <? base + 4)%N
    then nth (N.to_nat (a - base)) (Spirv.bytes_of_word (Z.to_N word)) x00
    else mem a.

(** The values 0, 1, ..., n-1 of a loop variable. *)
Definition range (n : nat) : list Z := map Z.of_nat (seq 0 n).

(** <<
    for (int x = 0; x < 256; x++) {
        for (int y = 0; y < 256; y++) {
            red = ...;
            dataPtr[x * 256 + y] = ...;
        }
    }
    >> *)
Definition fill_source (mem : Ppm.Memory) (dataPtr : N) : Ppm.Memory :=
  fold_left
    (fun mem x =>
       fold_left
         (fun mem y => store32 mem dataPtr (x * 256 + y) (texel_word x y))
         (range 256) mem)
    (range 256) mem.

(** One turn of the inner loop, for the pair of the two loop
    variables. *)
Definition store_texel (dataPtr : N) (mem : Ppm.Memory) (xy : Z * Z)
  : Ppm.Memory :=
  store32 mem dataPtr (fst xy * 256 + snd xy) (texel_word (fst xy) (snd xy)).

(** The memory of the process when the device memory with the bytes
    [content] is mapped at the address [mapped]. *)
Definition mapped_at (content : Ppm.Memory) (mapped : N) : Ppm.Memory :=
  fun a => content (a - mapped)%N.

(** Channel [c] of texel (x, y) of a linear R8G8B8A8 image that is
    bound at the start of the device memory [content]. *)
Definition channel (content : Ppm.Memory) (layout : Ppm.SubresourceLayout)
    (x y : Z) (c : nat) : Z :=
  Z.of_N (Byte.to_N (content (Ppm.texel_addr 0 layout (Z.to_nat x) (Z.to_nat y) c))).

(** The image the shader sees. *)
Definition linear_image (width height : Z) (layout : Ppm.SubresourceLayout)
    (content : Ppm.Memory) : ComputeShader.Image :=
  ComputeShader.mkImage width height
    (fun x y =>
       Glsl.mkTexel (channel content layout x y 0) (channel content layout x y 1)
                    (channel content layout x y 2) (channel content layout x y 3)).

End ComputeExample.

(** ** The uniform data of vktriangle_subpass.cpp *)

Module Uniform.

(** [std::rotate(first, first + n, last)]: the element at [first + n]
    becomes the first. *)
Definition rotate {A : Type} (n : nat) (l : list A) : list A :=
  drop n l ++ take n l.

(** <<
    std::vector<float> uniformData = {
        1.0, 0.0, 0.0, 1.0,
        0.0, 1.0, 0.0, 1.0,
        0.0, 0.0, 1.0, 1.0
    };
    >> *)
Definition uniformData : list Q :=
  [1; 0; 0; 1;
   0; 1; 0; 1;
   0; 0; 1; 1]%Q.

(** Step D.X at the top of every turn of the draw loop; [mapped] is what
    [vkMapMemory] returns, and the result is the vector that the [memcpy]
    puts into the uniform buffer:
    <<
    if (vkMapMemory(device, uniformBufferMemory, 0, VK_WHOLE_SIZE, 0, &data) != VK_SUCCESS) {
        throw std::runtime_error("failed to map uniform buffer!");
    }
    std::rotate(uniformData.begin(), uniformData.begin() + 4, uniformData.end());
    ::memcpy(data, uniformData.data(), sizeof(float) * uniformData.size());
    >> *)
Definition update (mapped : FrameLoop.VkResult) (uniformData : list Q)
  : Result (list Q) :=
  if negb (FrameLoop.is_success mapped)
  then Throws "failed to map uniform buffer!"
  else Returns (rotate 4 uniformData).

(** The uniform data after as many turns of the loop as [mapped] has
    results, when nothing else ends the loop. *)
Fixpoint frames (mapped : list FrameLoop.VkResult) (uniformData : list Q)
  : Result (list Q) :=
  match mapped with
  | [] => Returns uniformData
  | r :: rest =>
      match update r uniformData with
      | Throws what => Throws what
      | Returns data => frames rest data
      end
  end.

(** The [vec4] number [i] of a buffer of floats. *)
Definition colors (buffer : list Q) (i : nat) : list Q :=
  take 4 (drop (4 * i) buffer).

End Uniform.

(** ** The draw-and-present loop: what is in flight *)

Module InFlight.
Import FrameLoop.

(** At a call, at most [imagesInFlight] command buffers are
    unfinished. *)
Definition bounded (e : Event) : Prop :=
  match e with
  | Native _ _ before => (length (pending before) <= imagesInFlight)%nat
  | Host _ => True
  end.

(** The fence given to [vkQueueSubmit] is unsignaled and no unfinished
    work is going to signal it. *)
Definition fence_free (e : Event) : Prop :=
  match e with
  | Native (vkQueueSubmit _ _ _ f) _ before =>
      signaled before f = false /\ idle f before
  | _ => True
  end.

Definition sound (e : Event) : Prop := bounded e /\ fence_free e.

(** The unfinished command buffers have different fences, all of them
    fences of the slots. *)
Definition slots (g : Gpu) : Prop :=
  List.NoDup (map snd (pending g))
  /\ forall img f, In (img, f) (pending g) -> (f < imagesInFlight)%nat.

Definition inv (st : Loop) (g : Gpu) : Prop :=
  (activeSyncIdx st < imagesInFlight)%nat
  /\ owned (swapImagesFences st) g
  /\ slots g.

(** [guarded] and [triple] for a condition [C] on the calls. *)
Definition guarded_by (C : Event -> Prop) (R : Gpu -> Prop) (w : World) : Prop :=
  Forall fair (trace w) -> R (gpu w) /\ Forall C (trace w).

Definition triple_by {A : Type} (C : Event -> Prop) (R : Gpu -> Prop) (m : M A)
    (R' : A -> Gpu -> Prop) : Prop :=
  forall w,
    guarded_by C R w ->
    match m w with
    | (Value a, w') => guarded_by C (R' a) w'
    | (_, w') => guarded_by C (fun _ => True) w'
    end.

End InFlight.

(** ** [CopyImageToLinearImage] (the same calls in the four rendering
    programs) *)

Module CopyImage.

(** The objects the function creates. *)
Inductive Resource :=
| readableImage
| readableImageMemory
| cmdBuffer
| fence.

Definition same (r r' : Resource) : bool :=
  match r, r' with
  | readableImage, readableImage => true
  | readableImageMemory, readableImageMemory => true
  | cmdBuffer, cmdBuffer => true
  | fence, fence => true
  | _, _ => false
  end.

(** The native calls of the function. *)
Inductive Call :=
| vkCreateImage
| vkGetImageMemoryRequirements
| vkGetPhysicalDeviceMemoryProperties
| vkAllocateMemory
| vkBindImageMemory
| vkAllocateCommandBuffers
| vkBeginCommandBuffer
| vkCmdPipelineBarrier
| vkCmdCopyImage
| vkEndCommandBuffer
| vkCreateFence
| vkQueueSubmit
| vkWaitForFences
| vkDestroyFence
| vkFreeCommandBuffers.

Definition VK_MEMORY_PROPERTY_HOST_VISIBLE_BIT : Z := 2.

(** What the driver answers: the result of each call (each is made at
    most once), the memory properties of the physical device and the
    [memoryTypeBits] of the readable image. *)
Record Driver := mkDriver {
  answer : Call -> FrameLoop.VkResult;
  memProperties : MemoryType.VkPhysicalDeviceMemoryProperties;
  memoryTypeBits : Z
}.

(** The objects that exist, and the calls made so far. *)
Record State := mkState {
  live : list Resource;
  calls : list Call
}.

Definition Step (A : Type) : Type := State -> FrameLoop.Outcome A * State.

Definition ret {A : Type} (a : A) : Step A := fun s => (FrameLoop.Value a, s).

Definition bind {A B : Type} (m : Step A) (k : A -> Step B) : Step B :=
  fun s =>
    match m s with
    | (FrameLoop.Value a, s') => k a s'
    | (FrameLoop.Thrown what, s') => (FrameLoop.Thrown what, s')
    | (FrameLoop.Undefined, s') => (FrameLoop.Undefined, s')
    | (FrameLoop.Blocked, s') => (FrameLoop.Blocked, s')
    end.

Notation "x <- m ;; k" := (bind m (fun x => k))
  (at level 62, m at next level, right associativity).
Notation "m ;;; k" := (bind m (fun _ => k))
  (at level 62, right associativity).

(** A call whose result is not looked at, or that has none. *)
Definition call (c : Call) : Step unit :=
  fun s => (FrameLoop.Value tt, mkState (live s) (calls s ++ [c])).

(** [if (c(...) != VK_SUCCESS) { throw std::runtime_error(what); }];
    when it succeeds the objects [creates] exist. *)
Definition checked (d : Driver) (c : Call) (what : string)
    (creates : list Resource) : Step unit :=
  fun s =>
    if negb (FrameLoop.is_success (answer d c))
    then (FrameLoop.Thrown what, mkState (live s) (calls s ++ [c]))
    else (FrameLoop.Value tt, mkState (creates ++ live s) (calls s ++ [c])).

(** A call that destroys or frees [r]. *)
Definition release (c : Call) (r : Resource) : Step unit :=
  fun s =>
    (FrameLoop.Value tt,
     mkState (List.filter (fun r' => negb (same r r')) (live s))
             (calls s ++ [c])).

Definition FindMemoryType (d : Driver) (properties : Z) : Step nat :=
  fun s =>
    (MemoryType.FindMemoryType (memProperties d) (memoryTypeBits d) properties,
     mkState (live s) (calls s ++ [vkGetPhysicalDeviceMemoryProperties])).

(** Steps A.1 to A.11 and the two releases at the end
    (vktriangle.cpp lines 1058-1305). *)
Definition CopyImageToLinearImage (d : Driver) : Step unit :=
  checked d vkCreateImage "failed to create 2D image!" [readableImage] ;;;
  call vkGetImageMemoryRequirements ;;;
  memoryTypeIndex <- FindMemoryType d VK_MEMORY_PROPERTY_HOST_VISIBLE_BIT ;;
  checked d vkAllocateMemory "failed to allocate image memory!"
    [readableImageMemory] ;;;
  call vkBindImageMemory ;;;
  checked d vkAllocateCommandBuffers "failed to allocate command buffers!"
    [cmdBuffer] ;;;
  checked d vkBeginCommandBuffer "failed to begin recording command buffer!" [] ;;;
  call vkCmdPipelineBarrier ;;;
  call vkCmdPipelineBarrier ;;;
  call vkCmdCopyImage ;;;
  call vkCmdPipelineBarrier ;;;
  checked d vkEndCommandBuffer "failed to record command buffer!" [] ;;;
  checked d vkCreateFence "failed to create synchronization object!" [fence] ;;;
  checked d vkQueueSubmit "failed to submit command buffer!" [] ;;;
  checked d vkWaitForFences "failed to wait for fence!" [] ;;;
  release vkDestroyFence fence ;;;
  release vkFreeCommandBuffers cmdBuffer.

(** Nothing exists and nothing has been called. *)
Definition start : State := mkState [] [].

(** The calls whose result the function compares with VK_SUCCESS. *)
Definition checked_calls : list Call :=
  [vkCreateImage; vkAllocateMemory; vkAllocateCommandBuffers;
   vkBeginCommandBuffer; vkEndCommandBuffer; vkCreateFence; vkQueueSubmit;
   vkWaitForFences].

(** The ways the function ends in a throw: the last call made, the text
    of the error, and the objects that exist then. *)
Definition failures : list (Call * string * list Resource) :=
  [(vkCreateImage, "failed to create 2D image!"%string, []);
   (vkGetPhysicalDeviceMemoryProperties,
    "failed to find suitable memory type!"%string, [readableImage]);
   (vkAllocateMemory, "failed to allocate image memory!"%string, [readableImage]);
   (vkAllocateCommandBuffers, "failed to allocate command buffers!"%string,
    [readableImageMemory; readableImage]);
   (vkBeginCommandBuffer, "failed to begin recording command buffer!"%string,
    [cmdBuffer; readableImageMemory; readableImage]);
   (vkEndCommandBuffer, "failed to record command buffer!"%string,
    [cmdBuffer; readableImageMemory; readableImage]);
   (vkCreateFence, "failed to create synchronization object!"%string,
    [cmdBuffer; readableImageMemory; readableImage]);
   (vkQueueSubmit, "failed to submit command buffer!"%string,
    [fence; cmdBuffer; readableImageMemory; readableImage]);
   (vkWaitForFences, "failed to wait for fence!"%string,
    [fence; cmdBuffer; readableImageMemory; readableImage])].

End CopyImage.


(** ** Sample inputs, used where a statement is instanced *)

Definition sample_env : Env.Environment :=
  fun name =>
    if String.eqb name "DEMO_USE_VALIDATION" then Some "1"%string
    else if String.eqb name "DEMO_OUTPUT" then Some "frame.ppm"%string
    else None.



(** A directory with a shader of two words and a truncated file. *)
Definition sample_files : Spirv.FileSystem :=
  fun name =>
    if String.eqb name "triangle.vert.spv"
    then Some [x03; x02; x23; x07; x00; x00; x01; x00]
    else if String.eqb name "broken.spv" then Some [x03; x02; x23]
    else None.

(** A 256x256 input image with a gradient in red and green. *)
Definition sample_image : ComputeShader.Image :=
  ComputeShader.mkImage 256 256 (fun x y => Glsl.mkTexel (x mod 256) (y mod 256) 7 255).

Definition blank_image : ComputeShader.Image :=
  ComputeShader.mkImage 256 256 (fun _ _ => Glsl.mkTexel 0 0 0 0).

Definition sample_answer (n : nat) : FrameLoop.Answer :=
  FrameLoop.mkAnswer [] FrameLoop.VK_SUCCESS n.

(** A run of two turns' worth of answers on a swapchain of three images:
    the window stays open, image 0 is acquired, the present reports that
    the surface is out of date, and then the window is closed. *)
Definition out_of_date_run : list FrameLoop.Answer :=
  [sample_answer 0;                                     (* glfwWindowShouldClose *)
   sample_answer 0;                                     (* vkWaitForFences *)
   sample_answer 0;                                     (* vkAcquireNextImageKHR *)
   sample_answer 0;                                     (* vkResetFences *)
   sample_answer 0;                                     (* vkQueueSubmit *)
   FrameLoop.mkAnswer [] FrameLoop.VK_ERROR_OUT_OF_DATE_KHR 0;  (* vkQueuePresentKHR *)
   sample_answer 1].                                    (* glfwWindowShouldClose *)

(** Two turns on a swapchain of two images that both acquire image 0;
    the first submission has finished when the guard of the second turn
    returns. *)
Definition guarded_run : list FrameLoop.Answer :=
  [sample_answer 0;                                     (* glfwWindowShouldClose *)
   sample_answer 0;                                     (* vkWaitForFences, slot 0 *)
   sample_answer 0;                                     (* vkAcquireNextImageKHR: 0 *)
   sample_answer 0;                                     (* vkResetFences *)
   sample_answer 0;                                     (* vkQueueSubmit *)
   sample_answer 0;                                     (* vkQueuePresentKHR *)
   sample_answer 0;                                     (* glfwWindowShouldClose *)
   sample_answer 0;                                     (* vkWaitForFences, slot 1 *)
   sample_answer 0;                                     (* vkAcquireNextImageKHR: 0 *)
   FrameLoop.mkAnswer [0%nat] FrameLoop.VK_SUCCESS 0;   (* vkWaitForFences, guard *)
   sample_answer 0;                                     (* vkResetFences *)
   sample_answer 0;                                     (* vkQueueSubmit *)
   sample_answer 0;                                     (* vkQueuePresentKHR *)
   sample_answer 1].                                    (* glfwWindowShouldClose *)

(** The same two turns when the work of the first is still unfinished
    and the guard of the second returns VK_ERROR_OUT_OF_HOST_MEMORY. *)
Definition failed_guard_run : list FrameLoop.Answer :=
  [sample_answer 0;                                     (* glfwWindowShouldClose *)
   sample_answer 0;                                     (* vkWaitForFences, slot 0 *)
   sample_answer 0;                                     (* vkAcquireNextImageKHR: 0 *)
   sample_answer 0;                                     (* vkResetFences *)
   sample_answer 0;                                     (* vkQueueSubmit *)
   sample_answer 0;                                     (* vkQueuePresentKHR *)
   sample_answer 0;                                     (* glfwWindowShouldClose *)
   sample_answer 0;                                     (* vkWaitForFences, slot 1 *)
   sample_answer 0;                                     (* vkAcquireNextImageKHR: 0 *)
   FrameLoop.mkAnswer [] FrameLoop.VK_ERROR_OUT_OF_HOST_MEMORY 0;  (* guard *)
   sample_answer 0;                                     (* vkResetFences *)
   sample_answer 0;                                     (* vkQueueSubmit *)
   sample_answer 0;                                     (* vkQueuePresentKHR *)
   sample_answer 1].                                    (* glfwWindowShouldClose *)


(** A device with a device-local memory type and a host-visible,
    host-coherent one; the other entries of the array are unused. *)
Definition sample_memory : MemoryType.VkPhysicalDeviceMemoryProperties :=
  MemoryType.mkMemoryProperties 2
    (MemoryType.mkMemoryType 1 0 :: MemoryType.mkMemoryType 6 1
       :: repeat (MemoryType.mkMemoryType 0 0) 30).

(** A device with a transfer family and a graphics family that cannot
    present, and a device with a transfer family only. *)
Definition sample_device : QueueFamily.PhysicalDevice :=
  QueueFamily.mkPhysicalDevice 7
    [QueueFamily.mkQueueFamily 4 1; QueueFamily.mkQueueFamily 7 1]
    (fun _ _ => 0).

Definition transfer_device : QueueFamily.PhysicalDevice :=
  QueueFamily.mkPhysicalDevice 5 [QueueFamily.mkQueueFamily 4 2] (fun _ _ => 0).

Definition sample_extensions : list Info.VkExtensionProperties :=
  [Info.mkExtension "VK_KHR_surface" 25;
   Info.mkExtension "VK_EXT_debug_utils" 2].

(** A driver that creates every shader module, with the handle 42. *)
Definition sample_create (info : Shader.VkShaderModuleCreateInfo)
  : FrameLoop.VkResult * N :=
  (FrameLoop.VK_SUCCESS, 42%N).

(** The layout of a 256x256 image whose rows lie back to back. *)
Definition tight_layout : Ppm.SubresourceLayout := Ppm.mkLayout 0 1024.

(** A driver on which every call succeeds, and one on which the wait
    for the fence of the copy fails. *)
Definition sample_driver : CopyImage.Driver :=
  CopyImage.mkDriver (fun _ => FrameLoop.VK_SUCCESS) sample_memory 3.

Definition failing_wait : CopyImage.Driver :=
  CopyImage.mkDriver
    (fun c =>
       match c with
       | CopyImage.vkWaitForFences => FrameLoop.VK_ERROR_DEVICE_LOST
       | _ => FrameLoop.VK_SUCCESS
       end)
    sample_memory 3.


(* ===================================================================== *)
(** * Part II: properties *)
(* ===================================================================== *)

(** ** Environment variables *)

Lemma head_char_zero (c : ascii) (r : string) :
  Env.head_char (String c r) = 0 -> c = zero.
Proof.
  simpl. intros H.
  assert (nat_of_ascii c = 0%nat) as H0 by lia.
  rewrite <- (ascii_nat_embedding c), H0. reflexivity.
Qed.

Lemma head_char_49 (c : ascii) (r : string) :
  Env.head_char (String c r) = 49 -> c = "1"%char.
Proof.
  simpl. intros H.
  assert (nat_of_ascii c = 49%nat) as H0 by lia.
  rewrite <- (ascii_nat_embedding c), H0. reflexivity.
Qed.

(** [strncmp("1", v, 2) == 0] holds for the text "1" and for no other C
    string. *)
Lemma strncmp_one (v : string) :
  Env.c_string v -> (Env.strncmp "1" v 2 =? 0) = true <-> v = "1"%string.
Proof.
  intros Hc. split.
  - intros H. apply Z.eqb_eq in H.
    destruct v as [|c r].
    + simpl in H. discriminate.
    + cbn [Env.strncmp] in H.
      change (Env.head_char "1") with 49 in H.
      destruct (49 =? Env.head_char (String c r)) eqn:E; cbn [negb] in H.
      * apply Z.eqb_eq in E. symmetry in E. apply head_char_49 in E. subst c.
        change (49 =? 0) with false in H. cbn iota in H.
        change (Env.tail_chars "1") with ""%string in H.
        change (Env.head_char "") with 0 in H.
        cbn [Env.tail_chars] in H.
        destruct r as [|c' r']; [reflexivity|].
        destruct (0 =? Env.head_char (String c' r')) eqn:E'; cbn [negb] in H.
        -- apply Z.eqb_eq in E'. symmetry in E'. apply head_char_zero in E'.
           destruct Hc as [_ [Hc' _]]. contradiction.
        -- apply Z.eqb_neq in E'. lia.
      * apply Z.eqb_neq in E. lia.
  - intros ->. reflexivity.
Qed.

(** C7 (as the code has it). In every example but the info tool
    vkmininfo, validation layers are enabled exactly when
    DEMO_USE_VALIDATION is set to the text "1", and the output file name
    is the value of DEMO_OUTPUT when it is set and "out.ppm" otherwise;
    these five programs decode the environment alike.  vkmininfo takes no
    environment variable: it never enables a layer and writes no file. *)
Theorem env_decoding_uniform (e : Env.Example) (getenv : Env.Environment) :
  (forall v, getenv "DEMO_USE_VALIDATION"%string = Some v -> Env.c_string v) ->
  (e <> Env.vkmininfo ->
     (Env.validation_enabled e getenv
        <-> getenv "DEMO_USE_VALIDATION"%string = Some "1"%string)
     /\ (forall name, getenv "DEMO_OUTPUT"%string = Some name ->
           Env.output_file e getenv = Some name)
     /\ (getenv "DEMO_OUTPUT"%string = None ->
           Env.output_file e getenv = Some "out.ppm"%string)
     /\ (forall e', e' <> Env.vkmininfo ->
           Env.enabled_layers e' getenv = Env.enabled_layers e getenv
           /\ Env.output_file e' getenv = Env.output_file e getenv))
  /\ Env.enabled_layers Env.vkmininfo getenv = []
  /\ Env.output_file Env.vkmininfo getenv = None.
Proof.
  intros Hc. split; [|split; reflexivity].
  intros He.
  assert (Hl : forall x, x <> Env.vkmininfo ->
             Env.enabled_layers x getenv
             = if Env.enableValidationLayers (Env.decode getenv)
               then Env.g_validationLayers else [])
    by (intros [] Hx; try reflexivity; contradiction).
  assert (Ho : forall x, x <> Env.vkmininfo ->
             Env.output_file x getenv
             = Some (Env.outputFileName (Env.decode getenv)))
    by (intros [] Hx; try reflexivity; contradiction).
  unfold Env.validation_enabled. rewrite (Hl e He), (Ho e He).
  unfold Env.decode; cbn [Env.enableValidationLayers Env.outputFileName].
  split; [|split; [|split]].
  - destruct (getenv "DEMO_USE_VALIDATION"%string) as [v|] eqn:E.
    + destruct (Env.strncmp "1" v 2 =? 0) eqn:Es.
      * apply strncmp_one in Es; [subst v|auto]. split; [reflexivity|].
        intros _. left. reflexivity.
      * split; [intros []|]. intros H. injection H as ->.
        vm_compute in Es. discriminate Es.
    + split; [intros []|discriminate].
  - intros name ->. reflexivity.
  - intros ->. reflexivity.
  - intros e' He'. rewrite (Hl e' He'), (Ho e' He'). split; reflexivity.
Qed.

Lemma env_decoding_uniform_witness :
  Env.validation_enabled Env.vkcompute sample_env
  /\ Env.output_file Env.vkcompute sample_env = Some "frame.ppm"%string.
Proof.
  assert (Hc : forall v, sample_env "DEMO_USE_VALIDATION"%string = Some v -> Env.c_string v).
  { intros v H. vm_compute in H. injection H as <-. simpl. split; [discriminate | exact I]. }
  assert (He : Env.vkcompute <> Env.vkmininfo) by discriminate.
  destruct (env_decoding_uniform Env.vkcompute sample_env Hc)
    as (Hmain & _ & _).
  destruct (Hmain He) as (Hv & Hn & _ & _).
  split.
  - apply Hv. reflexivity.
  - apply Hn. reflexivity.
Defined.

(** C7 (as stated) fails: vkmininfo run with DEMO_USE_VALIDATION=1
    enables no validation layer. *)
Lemma vkmininfo_counterexample :
  ~ (Env.validation_enabled Env.vkmininfo sample_env
     <-> sample_env "DEMO_USE_VALIDATION"%string = Some "1"%string).
Proof.
  intros [_ H]. destruct (H eq_refl).
Qed.

(** ** The PPM dump *)

Lemma write_row_length (mem : Ppm.Memory) (row : N) (n : nat) :
  length (Ppm.write_row mem row n) = (3 * n)%nat.
Proof.
  revert row. induction n as [|n IH]; intros row; simpl; [reflexivity|].
  rewrite IH. lia.
Qed.

Lemma write_row_lookup (mem : Ppm.Memory) (n : nat) :
  forall (row : N) (x c : nat),
    (x < n)%nat -> (c < 3)%nat ->
    Ppm.write_row mem row n !! (3 * x + c)%nat
    = Some (mem (row + 4 * N.of_nat x + N.of_nat c)%N).
Proof.
  induction n as [|n IH]; intros row x c Hx Hc; [lia|].
  destruct x as [|x].
  - cbn [Ppm.write_row Ppm.write3].
    replace (row + 4 * N.of_nat 0)%N with row by lia.
    destruct c as [|[|[|c]]]; try lia; simpl.
    + f_equal. f_equal. lia.
    + reflexivity.
    + reflexivity.
  - cbn [Ppm.write_row Ppm.write3].
    rewrite lookup_app_r by (simpl; lia).
    replace (3 * S x + c - length (Ppm.write3 mem row))%nat
      with (3 * x + c)%nat by (simpl; lia).
    rewrite IH by lia. f_equal. f_equal. lia.
Qed.

Lemma write_rows_length (mem : Ppm.Memory) (data pitch : N) (w r : nat) :
  length (Ppm.write_rows mem data pitch w r) = (3 * w * r)%nat.
Proof.
  revert data. induction r as [|r IH]; intros data; simpl; [lia|].
  rewrite length_app, write_row_length, IH. lia.
Qed.

Lemma write_rows_lookup (mem : Ppm.Memory) (pitch : N) (w r : nat) :
  forall (data : N) (x y c : nat),
    (y < r)%nat -> (x < w)%nat -> (c < 3)%nat ->
    Ppm.write_rows mem data pitch w r !! (3 * (y * w + x) + c)%nat
    = Some (mem (data + N.of_nat y * pitch + 4 * N.of_nat x + N.of_nat c)%N).
Proof.
  induction r as [|r IH]; intros data x y c Hy Hx Hc; [lia|].
  cbn [Ppm.write_rows].
  destruct y as [|y].
  - rewrite lookup_app_l by (rewrite write_row_length; lia).
    replace (3 * (0 * w + x) + c)%nat with (3 * x + c)%nat by lia.
    rewrite write_row_lookup by lia. f_equal. f_equal. lia.
  - rewrite lookup_app_r by (rewrite write_row_length; lia).
    rewrite write_row_length.
    replace (3 * (S y * w + x) + c - 3 * w)%nat
      with (3 * (y * w + x) + c)%nat by lia.
    rewrite IH by lia. f_equal. f_equal. lia.
Qed.

Lemma parse_decimal_decimal (n : N) :
  Ppm.parse_decimal (Ppm.decimal n) = Some n.
Proof.
  unfold Ppm.parse_decimal, Ppm.decimal.
  rewrite string_of_list_byte_of_string.
  rewrite NilZero.usu.
  - simpl. f_equal. apply DecimalN.Unsigned.of_to.
  - destruct n as [|q]; simpl; [discriminate|].
    apply DecimalPos.Unsigned.to_uint_nonnil.
Qed.

Lemma pixel_data_dump (w h : N) (mapped : N) (layout : Ppm.SubresourceLayout)
    (mem : Ppm.Memory) :
  Ppm.pixel_data w h (Ppm.dump w h mapped layout mem)
  = Ppm.write_rows mem (mapped + Ppm.offset layout)%N (Ppm.rowPitch layout)
      (N.to_nat w) (N.to_nat h).
Proof.
  unfold Ppm.pixel_data, Ppm.dump. cbv zeta.
  rewrite drop_app_length. reflexivity.
Qed.

Lemma dump_rows_tight (w h : N) (mapped : N) (layout : Ppm.SubresourceLayout)
    (mem : Ppm.Memory) :
  Ppm.rows_at_stride (3 * N.to_nat w) (N.to_nat w) (N.to_nat h) mapped layout mem
    (Ppm.pixel_data w h (Ppm.dump w h mapped layout mem)).
Proof.
  intros x y c Hx Hy Hc. rewrite pixel_data_dump.
  replace (y * (3 * N.to_nat w) + 3 * x + c)%nat
    with (3 * (y * N.to_nat w + x) + c)%nat by lia.
  rewrite write_rows_lookup by lia.
  unfold Ppm.texel_addr. do 2 f_equal.
Qed.

(** C1 (as the code has it). Every dump is the header
    "P6\n<width>\n<height>\n255\n" with the configured render width and
    height in decimal, followed by exactly 3*width*height bytes: the R, G
    and B bytes of each pixel, row by row, with the alpha byte dropped.
    The rows are read from the mapped image [rowPitch] bytes apart and
    written back to back, 3*width bytes apart. *)
Theorem ppm_dump_format (d : Ppm.Dumper) (currentExtent : N * N) (mapped : N)
    (layout : Ppm.SubresourceLayout) (mem : Ppm.Memory) :
  let width := fst (Ppm.render_size d currentExtent) in
  let height := snd (Ppm.render_size d currentExtent) in
  let file := Ppm.dump_of d currentExtent mapped layout mem in
  file = Ppm.header width height ++ Ppm.pixel_data width height file
  /\ Ppm.header width height
     = [x50; x36; x0a] ++ Ppm.decimal width ++ [x0a] ++ Ppm.decimal height
         ++ [x0a; x32; x35; x35; x0a]
  /\ Ppm.parse_decimal (Ppm.decimal width) = Some width
  /\ Ppm.parse_decimal (Ppm.decimal height) = Some height
  /\ length (Ppm.pixel_data width height file)
     = (3 * N.to_nat width * N.to_nat height)%nat
  /\ Ppm.rows_at_stride (3 * N.to_nat width) (N.to_nat width) (N.to_nat height)
       mapped layout mem (Ppm.pixel_data width height file).
Proof.
  intros width height file. subst file. unfold Ppm.dump_of. fold width height.
  repeat split.
  - rewrite pixel_data_dump. reflexivity.
  - apply parse_decimal_decimal.
  - apply parse_decimal_decimal.
  - rewrite pixel_data_dump. apply write_rows_length.
  - apply dump_rows_tight.
Qed.

(** C1 (as stated) fails: in the dump of vktriangle (256x256) from an
    image whose reported row pitch is 1024 bytes, the rows of the written
    pixel data are not 1024 bytes apart. *)
Lemma ppm_dump_stride_counterexample :
  ~ Ppm.rows_at_stride 1024 256 256 0 (Ppm.mkLayout 0 1024) (fun _ => x00)
      (Ppm.pixel_data 256 256
         (Ppm.dump_of Ppm.triangle_main (256, 256)%N 0 (Ppm.mkLayout 0 1024)
            (fun _ => x00))).
Proof.
  intros H. specialize (H 0%nat 255%nat 0%nat).
  unfold Ppm.dump_of in H. cbn [Ppm.render_size fst snd] in H.
  rewrite pixel_data_dump in H.
  rewrite lookup_ge_None_2 in H.
  - assert (Hn : (0 < 256)%nat /\ (255 < 256)%nat /\ (0 < 3)%nat) by lia.
    destruct Hn as (H1 & H2 & H3). specialize (H H1 H2 H3). discriminate H.
  - rewrite write_rows_length. lia.
Qed.

(** ** Two runs of one example *)







(** ** [LoadSPIRV] *)

Lemma byte_of_to_N (b : byte) : Spirv.byte_of_N (Byte.to_N b) = b.
Proof. unfold Spirv.byte_of_N. rewrite Byte.of_to_N. reflexivity. Qed.

Lemma bytes_of_word_of_bytes (b0 b1 b2 b3 : byte) :
  Spirv.bytes_of_word (Spirv.word_of_bytes b0 b1 b2 b3) = [b0; b1; b2; b3].
Proof.
  pose proof (Byte.to_N_bounded b0) as H0.
  pose proof (Byte.to_N_bounded b1) as H1.
  pose proof (Byte.to_N_bounded b2) as H2.
  pose proof (Byte.to_N_bounded b3) as H3.
  unfold Spirv.bytes_of_word, Spirv.word_of_bytes.
  set (n0 := Byte.to_N b0) in *. set (n1 := Byte.to_N b1) in *.
  set (n2 := Byte.to_N b2) in *. set (n3 := Byte.to_N b3) in *.
  assert (E0 : ((n0 + 256 * n1 + 65536 * n2 + 16777216 * n3) mod 256 = n0)%N).
  { symmetry. apply (N.mod_unique _ _ (n1 + 256 * n2 + 65536 * n3)%N); lia. }
  assert (E1 : ((n0 + 256 * n1 + 65536 * n2 + 16777216 * n3) / 256 mod 256 = n1)%N).
  { replace ((n0 + 256 * n1 + 65536 * n2 + 16777216 * n3) / 256)%N
      with (n1 + 256 * n2 + 65536 * n3)%N
      by (apply (N.div_unique _ _ _ n0); lia).
    symmetry. apply (N.mod_unique _ _ (n2 + 256 * n3)%N); lia. }
  assert (E2 : ((n0 + 256 * n1 + 65536 * n2 + 16777216 * n3) / 65536 mod 256 = n2)%N).
  { replace ((n0 + 256 * n1 + 65536 * n2 + 16777216 * n3) / 65536)%N
      with (n2 + 256 * n3)%N
      by (apply (N.div_unique _ _ _ (n0 + 256 * n1)%N); lia).
    symmetry. apply (N.mod_unique _ _ n3); lia. }
  assert (E3 : ((n0 + 256 * n1 + 65536 * n2 + 16777216 * n3) / 16777216 mod 256 = n3)%N).
  { replace ((n0 + 256 * n1 + 65536 * n2 + 16777216 * n3) / 16777216)%N
      with n3
      by (apply (N.div_unique _ _ _ (n0 + 256 * n1 + 65536 * n2)%N); lia).
    apply N.mod_small. lia. }
  rewrite E0, E1, E2, E3. subst n0 n1 n2 n3.
  rewrite !byte_of_to_N. reflexivity.
Qed.

Lemma word_of_bytes_range (b0 b1 b2 b3 : byte) :
  (Spirv.word_of_bytes b0 b1 b2 b3 < 4294967296)%N.
Proof.
  pose proof (Byte.to_N_bounded b0). pose proof (Byte.to_N_bounded b1).
  pose proof (Byte.to_N_bounded b2). pose proof (Byte.to_N_bounded b3).
  unfold Spirv.word_of_bytes. lia.
Qed.

(** A memory of [n] whole words and the vector it holds. *)
Lemma words_of_bytes_whole (n : nat) :
  forall content : list byte,
    length content = (4 * n)%nat ->
    length (Spirv.words_of_bytes content) = n
    /\ Spirv.bytes_of_words (Spirv.words_of_bytes content) = content
    /\ Forall (fun w => (w < 4294967296)%N) (Spirv.words_of_bytes content).
Proof.
  induction n as [|n IH]; intros content Hlen.
  - destruct content; [|discriminate]. repeat split. constructor.
  - destruct content as [|b0 [|b1 [|b2 [|b3 r]]]]; try (simpl in Hlen; lia).
    assert (Hr : length r = (4 * n)%nat) by (simpl in Hlen; lia).
    destruct (IH r Hr) as (Hl & Hb & Hw).
    cbn [Spirv.words_of_bytes]. repeat split.
    + simpl. rewrite Hl. reflexivity.
    + unfold Spirv.bytes_of_words in *. cbn [map concat].
      rewrite bytes_of_word_of_bytes, Hb. reflexivity.
    + constructor; [apply word_of_bytes_range | exact Hw].
Qed.

Lemma bytes_of_words_length (ws : list N) :
  length (Spirv.bytes_of_words ws) = (4 * length ws)%nat.
Proof.
  induction ws as [|w ws IH]; [reflexivity|].
  unfold Spirv.bytes_of_words in *. cbn [map concat].
  rewrite length_app, IH. simpl. lia.
Qed.

Lemma file_read_whole (content : list byte) (n : nat) :
  length content = (4 * n)%nat ->
  Spirv.file_read (repeat 0%N n) content (length content)
  = Spirv.words_of_bytes content.
Proof.
  intros Hlen. unfold Spirv.file_read.
  rewrite firstn_all, drop_ge.
  - rewrite app_nil_r. reflexivity.
  - rewrite bytes_of_words_length, repeat_length. lia.
Qed.

(** C8. [LoadSPIRV] throws exactly when the file cannot be opened or its
    size is not a multiple of 4; otherwise it returns size/4 words of 32
    bits whose bytes are the bytes of the file. *)
Theorem LoadSPIRV_spec (fs : Spirv.FileSystem) (name : string) :
  (Spirv.raises (Spirv.LoadSPIRV fs name)
     <-> fs name = None
         \/ exists content, fs name = Some content
                            /\ (length content mod 4 <> 0)%nat)
  /\ (forall content,
        fs name = Some content -> (length content mod 4 = 0)%nat ->
        exists buffer,
          Spirv.LoadSPIRV fs name = Returns buffer
          /\ length buffer = (length content / 4)%nat
          /\ Forall (fun w => (w < 4294967296)%N) buffer
          /\ Spirv.bytes_of_words buffer = content).
Proof.
  unfold Spirv.LoadSPIRV, Spirv.raises. cbv zeta.
  destruct (fs name) as [content|] eqn:E.
  - destruct (Nat.eqb_spec (length content mod 4) 0) as [Hz|Hnz]; cbn [negb].
    + assert (Hlen : length content = (4 * (length content / 4))%nat).
      { pose proof (Nat.div_mod_eq (length content) 4). lia. }
      split.
      * split.
        -- intros [what H]. discriminate H.
        -- intros [H | (c & Hc & Hn)]; [discriminate H|].
           injection Hc as <-. contradiction.
      * intros c Hc _. injection Hc as <-.
        rewrite (file_read_whole _ _ Hlen).
        destruct (words_of_bytes_whole _ _ Hlen) as (Hl & Hb & Hw).
        eexists. repeat split; eauto.
    + split.
      * split.
        -- intros _. right. exists content. split; [reflexivity | exact Hnz].
        -- intros _. eexists. reflexivity.
      * intros c Hc Hz. injection Hc as <-. contradiction.
  - split.
    + split.
      * intros _. left. reflexivity.
      * intros _. eexists. reflexivity.
    + intros c Hc. discriminate Hc.
Qed.

Lemma LoadSPIRV_spec_witness :
  exists buffer,
    Spirv.LoadSPIRV sample_files "triangle.vert.spv" = Returns buffer
    /\ length buffer = 2%nat
    /\ Spirv.bytes_of_words buffer = [x03; x02; x23; x07; x00; x00; x01; x00].
Proof.
  destruct (proj2 (LoadSPIRV_spec sample_files "triangle.vert.spv")
              [x03; x02; x23; x07; x00; x00; x01; x00] eq_refl eq_refl)
    as (buffer & Hload & Hlen & _ & Hbytes).
  exists buffer. repeat split; assumption.
Defined.

(** ** compute.comp *)

Lemma Qfloor_unique (q : Q) (z : Z) :
  (inject_Z z <= q)%Q -> (q < inject_Z (z + 1))%Q -> Qfloor q = z.
Proof.
  intros Hle Hlt.
  pose proof (Qfloor_le q) as H1. pose proof (Qlt_floor q) as H2.
  assert (Ha : (inject_Z (Qfloor q) < inject_Z (z + 1))%Q)
    by (eapply Qle_lt_trans; eauto).
  assert (Hb : (inject_Z z < inject_Z (Qfloor q + 1))%Q)
    by (eapply Qle_lt_trans; eauto).
  rewrite <- Zlt_Qlt in Ha, Hb. lia.
Qed.

Lemma float_to_unorm8_invert (c : Z) :
  0 <= c <= 255 ->
  Glsl.float_to_unorm8 (1 - Glsl.unorm8_to_float c) = 255 - c.
Proof.
  intros Hc. unfold Glsl.float_to_unorm8, Glsl.unorm8_to_float, Glsl.clamp01.
  assert (E : (1 - inject_Z c / 255 == inject_Z (255 - c) / 255)%Q).
  { unfold Zminus. rewrite inject_Z_plus, inject_Z_opp. field. }
  assert (Hlo : (0 <= inject_Z (255 - c) / 255)%Q).
  { apply Qle_shift_div_l; [reflexivity|]. rewrite Qmult_0_l.
    change 0%Q with (inject_Z 0). rewrite <- Zle_Qle. lia. }
  assert (Hhi : (inject_Z (255 - c) / 255 <= 1)%Q).
  { apply Qle_shift_div_r; [reflexivity|]. rewrite Qmult_1_l.
    change 255%Q with (inject_Z 255). rewrite <- Zle_Qle. lia. }
  destruct (Qle_bool (1 - inject_Z c / 255) 0) eqn:E0.
  - apply Qle_bool_iff in E0. rewrite E in E0.
    assert (Hz : (inject_Z (255 - c) / 255 == 0)%Q) by (apply Qle_antisym; auto).
    assert (Hc' : c = 255).
    { assert (H255 : (inject_Z (255 - c) == 0)%Q).
      { rewrite <- (Qmult_div_r (inject_Z (255 - c)) 255) by discriminate.
        rewrite Hz. ring. }
      unfold Qeq in H255. simpl in H255. lia. }
    subst c. reflexivity.
  - destruct (Qle_bool 1 (1 - inject_Z c / 255)) eqn:E1.
    + apply Qle_bool_iff in E1. rewrite E in E1.
      assert (Hz : (inject_Z (255 - c) / 255 == 1)%Q) by (apply Qle_antisym; auto).
      assert (Hc' : c = 0).
      { assert (H255 : (inject_Z (255 - c) == 255)%Q).
        { rewrite <- (Qmult_div_r (inject_Z (255 - c)) 255) by discriminate.
          rewrite Hz. ring. }
        unfold Qeq in H255. simpl in H255. lia. }
      subst c. reflexivity.
    + apply Qfloor_unique.
      * assert (E2 : (inject_Z (255 - c) / 255 * 255 == inject_Z (255 - c))%Q)
          by field.
        rewrite E, E2.
        rewrite <- (Qplus_0_r (inject_Z (255 - c))) at 1.
        apply Qplus_le_r. discriminate.
      * assert (E2 : (inject_Z (255 - c) / 255 * 255 == inject_Z (255 - c))%Q)
          by field.
        rewrite E, E2.
        rewrite inject_Z_plus. apply Qplus_lt_r. reflexivity.
Qed.

Lemma encode_inverted (t : Glsl.Texel) :
  ComputeShader.valid_texel t ->
  Glsl.encode_texel
    (Glsl.vec4_of
       (Glsl.mkVec3 (1 - Glsl.r (Glsl.decode_texel t))
                    (1 - Glsl.g (Glsl.decode_texel t))
                    (1 - Glsl.b (Glsl.decode_texel t))) 1)
  = ComputeShader.inverted t.
Proof.
  intros (Hr & Hg & Hb & _).
  unfold Glsl.encode_texel, Glsl.vec4_of, Glsl.decode_texel, ComputeShader.inverted.
  cbn [Glsl.r Glsl.g Glsl.b Glsl.a Glsl.r3 Glsl.g3 Glsl.b3].
  rewrite !float_to_unorm8_invert by assumption.
  reflexivity.
Qed.

Lemma insideb_inside (img : ComputeShader.Image) (p : ComputeShader.ivec2) :
  ComputeShader.insideb img p = true <-> ComputeShader.inside img p.
Proof.
  unfold ComputeShader.insideb, ComputeShader.inside.
  rewrite !andb_true_iff, !Z.leb_le, !Z.ltb_lt. tauto.
Qed.

Lemma pixel_coord_small (x y z : Z) :
  0 <= x < 2147483648 -> 0 <= y < 2147483648 ->
  ComputeShader.pixel_coord_of (x, y, z) = (x, y).
Proof.
  intros Hx Hy. unfold ComputeShader.pixel_coord_of, ComputeShader.int_of_uint.
  cbn [fst snd].
  destruct (Z.ltb_spec x 2147483648); [|lia].
  destruct (Z.ltb_spec y 2147483648); [|lia].
  reflexivity.
Qed.

Lemma main_inside (src : ComputeShader.Image) (id : ComputeShader.uvec3) :
  let p := ComputeShader.pixel_coord_of id in
  ComputeShader.inside src p ->
  ComputeShader.main src id
  = [ComputeShader.Store p
       (Glsl.mkVec4 (1 - Glsl.r (ComputeShader.imageLoad src p))
                    (1 - Glsl.g (ComputeShader.imageLoad src p))
                    (1 - Glsl.b (ComputeShader.imageLoad src p)) 1)].
Proof.
  intros p (Hx & Hy). unfold ComputeShader.main. cbv zeta. fold p.
  cbn [ComputeShader.imageSize fst snd].
  destruct (Z.ltb_spec (fst p) (ComputeShader.width src)); [|lia].
  destruct (Z.ltb_spec (snd p) (ComputeShader.height src)); [|lia].
  reflexivity.
Qed.


Lemma invoke_size (src dst : ComputeShader.Image) (id : ComputeShader.uvec3) :
  ComputeShader.width (ComputeShader.invoke src dst id) = ComputeShader.width dst
  /\ ComputeShader.height (ComputeShader.invoke src dst id) = ComputeShader.height dst.
Proof.
  unfold ComputeShader.invoke, ComputeShader.main. cbv zeta.
  destruct (_ && _); cbn [fold_left ComputeShader.perform]; [|auto].
  unfold ComputeShader.imageStore. destruct (ComputeShader.insideb dst _); auto.
Qed.

(** An invocation leaves an inverted texel inverted: whatever it stores
    at (x, y) is computed from the input texel at (x, y). *)
Lemma invoke_keeps (src dst : ComputeShader.Image) (id : ComputeShader.uvec3)
    (x y : Z) :
  ComputeShader.inside src (x, y) ->
  ComputeShader.valid_texel (ComputeShader.texel src x y) ->
  ComputeShader.texel dst x y = ComputeShader.inverted (ComputeShader.texel src x y) ->
  ComputeShader.texel (ComputeShader.invoke src dst id) x y
  = ComputeShader.inverted (ComputeShader.texel src x y).
Proof.
  intros Hin Hv Hdst.
  unfold ComputeShader.invoke, ComputeShader.main. cbv zeta.
  destruct (_ && _); cbn [fold_left ComputeShader.perform]; [|exact Hdst].
  unfold ComputeShader.imageStore.
  destruct (ComputeShader.insideb dst _); [|exact Hdst].
  cbn [ComputeShader.texel].
  destruct ((x =? fst (ComputeShader.pixel_coord_of id))
            && (y =? snd (ComputeShader.pixel_coord_of id))) eqn:E; [|exact Hdst].
  apply andb_true_iff in E. destruct E as [Ex Ey].
  apply Z.eqb_eq in Ex, Ey.
  destruct (ComputeShader.pixel_coord_of id) as [px py]. cbn [fst snd] in *.
  subst px py.
  unfold ComputeShader.imageLoad.
  apply insideb_inside in Hin. rewrite Hin. cbn [fst snd].
  apply encode_inverted. exact Hv.
Qed.

(** The invocation of pixel (x, y) stores the inverted texel there. *)
Lemma invoke_hits (src dst : ComputeShader.Image) (id : ComputeShader.uvec3)
    (x y : Z) :
  ComputeShader.pixel_coord_of id = (x, y) ->
  ComputeShader.inside src (x, y) ->
  ComputeShader.inside dst (x, y) ->
  ComputeShader.valid_texel (ComputeShader.texel src x y) ->
  ComputeShader.texel (ComputeShader.invoke src dst id) x y
  = ComputeShader.inverted (ComputeShader.texel src x y).
Proof.
  intros Hp Hsrc Hdst Hv. unfold ComputeShader.invoke.
  pose proof (main_inside src id) as Hm. cbv zeta in Hm.
  rewrite Hp in Hm. rewrite (Hm Hsrc).
  cbn [fold_left ComputeShader.perform]. unfold ComputeShader.imageStore.
  apply insideb_inside in Hdst. rewrite Hdst.
  cbn [ComputeShader.texel fst snd]. rewrite !Z.eqb_refl. cbn [andb].
  unfold ComputeShader.imageLoad.
  apply insideb_inside in Hsrc. rewrite Hsrc. cbn [fst snd].
  apply encode_inverted. exact Hv.
Qed.

Lemma run_keeps (src : ComputeShader.Image) (order : list ComputeShader.uvec3)
    (x y : Z) :
  ComputeShader.inside src (x, y) ->
  ComputeShader.valid_texel (ComputeShader.texel src x y) ->
  forall dst : ComputeShader.Image,
    ComputeShader.texel dst x y = ComputeShader.inverted (ComputeShader.texel src x y) ->
    ComputeShader.texel (ComputeShader.run src order dst) x y
    = ComputeShader.inverted (ComputeShader.texel src x y).
Proof.
  intros Hin Hv. induction order as [|id order IH]; intros dst Hdst.
  - exact Hdst.
  - unfold ComputeShader.run. cbn [fold_left]. apply IH.
    apply invoke_keeps; assumption.
Qed.

Lemma run_hits (src : ComputeShader.Image) (order : list ComputeShader.uvec3)
    (id : ComputeShader.uvec3) (x y : Z) :
  In id order ->
  ComputeShader.pixel_coord_of id = (x, y) ->
  ComputeShader.inside src (x, y) ->
  ComputeShader.valid_texel (ComputeShader.texel src x y) ->
  forall dst : ComputeShader.Image,
    ComputeShader.inside dst (x, y) ->
    ComputeShader.texel (ComputeShader.run src order dst) x y
    = ComputeShader.inverted (ComputeShader.texel src x y).
Proof.
  intros Hid Hp Hsrc Hv.
  induction order as [|id' order IH]; intros dst Hdst; [destruct Hid|].
  unfold ComputeShader.run. cbn [fold_left].
  destruct Hid as [-> | Hid].
  - apply run_keeps; try assumption. apply invoke_hits; assumption.
  - apply IH; [exact Hid|].
    destruct (invoke_size src dst id') as [Hw Hh].
    unfold ComputeShader.inside in *. rewrite Hw, Hh. exact Hdst.
Qed.

Lemma axis_ids_In (groupCount localSize : nat) (v : Z) :
  0 <= v < Z.of_nat (groupCount * localSize) ->
  In v (ComputeShader.axis_ids groupCount localSize).
Proof.
  intros Hv. unfold ComputeShader.axis_ids.
  assert (Hl : (0 < localSize)%nat) by (destruct localSize; lia).
  apply in_flat_map. exists (Z.to_nat v / localSize)%nat. split.
  - apply in_seq. split; [lia|]. cbn [plus].
    apply Nat.Div0.div_lt_upper_bound. lia.
  - apply in_map_iff. exists (Z.to_nat v mod localSize)%nat. split.
    + pose proof (Nat.div_mod_eq (Z.to_nat v) localSize). lia.
    + apply in_seq. split; [lia|]. cbn [plus]. apply Nat.mod_upper_bound. lia.
Qed.

Lemma example_dispatch_In (x y : Z) :
  0 <= x < 256 -> 0 <= y < 256 -> In (x, y, 0) ComputeShader.example_dispatch.
Proof.
  intros Hx Hy. unfold ComputeShader.example_dispatch, ComputeShader.dispatch_ids.
  change (256 / 16)%nat with 16%nat.
  apply in_flat_map. exists 0. split; [apply axis_ids_In; lia|].
  apply in_flat_map. exists y. split; [apply axis_ids_In; lia|].
  apply in_map_iff. exists x. split; [reflexivity|].
  apply axis_ids_In; lia.
Qed.



(** ** subpass_2_compose.frag *)

Lemma compose_background (att : ComposeShader.Attachments) (coord : Q * Q) :
  ComposeShader.any_lessThan
    (Glsl.mkVec3 (Glsl.r (ComposeShader.samplerRed att))
                 (Glsl.g (ComposeShader.samplerGreen att))
                 (Glsl.b (ComposeShader.samplerBlue att)))
    ComposeShader.target = true ->
  Glsl.vec4_eq (ComposeShader.main att coord) (ComposeShader.checkerboard coord).
Proof.
  intros H. unfold ComposeShader.main, ComposeShader.checkerboard. cbv zeta.
  rewrite H.
  destruct (Glsl.ltb (ComposeShader.mod_ (fst coord) 40) 20);
    destruct (Glsl.ltb (ComposeShader.mod_ (snd coord) 40) 20);
    repeat split; reflexivity.
Qed.

Lemma ltb_lt (x y : Q) : Glsl.ltb x y = true <-> (x < y)%Q.
Proof.
  unfold Glsl.ltb. rewrite negb_true_iff. split.
  - intros H. apply Qnot_le_lt. intros Hle.
    apply Qle_bool_iff in Hle. congruence.
  - intros H. destruct (Qle_bool y x) eqn:E; [|reflexivity].
    apply Qle_bool_iff in E. exfalso. eapply Qlt_not_le; eauto.
Qed.

Lemma any_lessThan_true (x y : Glsl.vec3) :
  ComposeShader.any_lessThan x y = true
  <-> (Glsl.r3 x < Glsl.r3 y)%Q \/ (Glsl.g3 x < Glsl.g3 y)%Q
      \/ (Glsl.b3 x < Glsl.b3 y)%Q.
Proof.
  unfold ComposeShader.any_lessThan.
  rewrite !orb_true_iff, !ltb_lt. tauto.
Qed.

(** C6 (as the code has it). The compose shader shows channel r of the
    red attachment, g of the green and b of the blue one only where all
    three are at least 0.01.  Where any of the three is below 0.01 the
    pixel gets the checkerboard background, gray 0.1 where both
    mod(x,40) < 20 and mod(y,40) < 20 hold and black otherwise; that is so
    where all three are below 0.01, and also at a pixel that exactly one of
    the three colorizer triangles covers, since an attachment of the other
    subpass holds the clear colour there. *)
Theorem compose_shader_output (att : ComposeShader.Attachments) (coord : Q * Q) :
  let colorRed := Glsl.r (ComposeShader.samplerRed att) in
  let colorGreen := Glsl.g (ComposeShader.samplerGreen att) in
  let colorBlue := Glsl.b (ComposeShader.samplerBlue att) in
  ((1 # 100 <= colorRed)%Q /\ (1 # 100 <= colorGreen)%Q /\ (1 # 100 <= colorBlue)%Q ->
     ComposeShader.main att coord = Glsl.mkVec4 colorRed colorGreen colorBlue 1)
  /\ ((colorRed < 1 # 100)%Q \/ (colorGreen < 1 # 100)%Q \/ (colorBlue < 1 # 100)%Q ->
        Glsl.vec4_eq (ComposeShader.main att coord) (ComposeShader.checkerboard coord))
  /\ ((colorRed < 1 # 100)%Q /\ (colorGreen < 1 # 100)%Q /\ (colorBlue < 1 # 100)%Q ->
        Glsl.vec4_eq (ComposeShader.main att coord) (ComposeShader.checkerboard coord))
  /\ (forall (fragColor : Glsl.vec3) (instanceId : Z) (undef : Glsl.vec4),
        0 <= instanceId <= 2 ->
        Glsl.vec4_eq
          (ComposeShader.main
             (ComposeShader.covered_by_one fragColor instanceId undef) coord)
          (ComposeShader.checkerboard coord)).
Proof.
  intros colorRed colorGreen colorBlue. split; [|split; [|split]].
  - intros (Hr & Hg & Hb). unfold ComposeShader.main. cbv zeta.
    fold colorRed colorGreen colorBlue.
    destruct (ComposeShader.any_lessThan _ _) eqn:E; [|reflexivity].
    apply any_lessThan_true in E. cbn [Glsl.r3 Glsl.g3 Glsl.b3 ComposeShader.target] in E.
    exfalso. destruct E as [E | [E | E]]; eapply Qlt_not_le; eauto.
  - intros H. apply compose_background. apply any_lessThan_true. exact H.
  - intros (H & _). apply compose_background. apply any_lessThan_true.
    left. exact H.
  - intros fragColor instanceId undef Hi. apply compose_background.
    assert (Hcase : instanceId = 0 \/ instanceId = 1 \/ instanceId = 2) by lia.
    destruct Hcase as [-> | [-> | ->]]; apply any_lessThan_true;
      cbn; [right; right | right; right | left]; reflexivity.
Qed.

(** C6 (as stated) fails: at a pixel that only the red triangle covers,
    with the full red of the first uniform colour, the composed colour is
    the gray of the checkerboard, whose green and blue are not zero. *)
Lemma compose_one_triangle_counterexample :
  ~ ComposeShader.only_channel 0
      (ComposeShader.main
         (ComposeShader.covered_by_one (Glsl.mkVec3 1 0 0) 0 ComposeShader.clearColor)
         (1 # 2, 1 # 2)).
Proof.
  intros (H & _). destruct (H eq_refl) as (_ & Hg & _).
  vm_compute in Hg. discriminate Hg.
Qed.

Lemma compose_shader_output_witness :
  Glsl.vec4_eq
    (ComposeShader.main
       (ComposeShader.covered_by_one (Glsl.mkVec3 1 0 0) 0 (Glsl.mkVec4 1 1 1 1))
       (1 # 2, 1 # 2))
    (Glsl.mkVec4 (1 # 10) (1 # 10) (1 # 10) 1).
Proof.
  apply (proj2 (proj2 (proj2
           (compose_shader_output
              (ComposeShader.covered_by_one (Glsl.mkVec3 1 0 0) 0
                 (Glsl.mkVec4 1 1 1 1)) (1 # 2, 1 # 2))))
           (Glsl.mkVec3 1 0 0) 0 (Glsl.mkVec4 1 1 1 1)).
  lia.
Defined.

(** ** The draw-and-present loop *)

(** One turn of the loop, run on a script that has an answer for each of
    its calls. *)
Lemma iteration_eval (st : FrameLoop.Loop) (w : FrameLoop.World)
    (a_wait a_acquire : FrameLoop.Answer) (a_guard : list FrameLoop.Answer)
    (a_reset a_submit a_present : FrameLoop.Answer) (rest : list FrameLoop.Answer)
    (entry : option FrameLoop.Fence) :
  let i := FrameLoop.activeSyncIdx st in
  let imageIndex := FrameLoop.out a_acquire in
  FrameLoop.swapImagesFences st !! imageIndex = Some entry ->
  length a_guard = FrameLoop.guard_calls entry ->
  FrameLoop.script w
  = a_wait :: a_acquire :: a_guard ++ a_reset :: a_submit :: a_present :: rest ->
  exists (w' : FrameLoop.World) (new : list FrameLoop.Event),
    FrameLoop.trace w' = FrameLoop.trace w ++ new
    /\ if FrameLoop.is_success (FrameLoop.result a_submit)
       then FrameLoop.iteration st w
            = (FrameLoop.Value
                 (FrameLoop.mkLoop ((i + 1) mod FrameLoop.imagesInFlight)%nat
                    (<[imageIndex := Some i]> (FrameLoop.swapImagesFences st))),
               w')
            /\ map FrameLoop.op_of new = FrameLoop.turn_ops i imageIndex entry
            /\ FrameLoop.script w' = rest
       else FrameLoop.iteration st w
            = (FrameLoop.Thrown "failed to submit command buffer!", w')
            /\ map FrameLoop.op_of new = FrameLoop.failed_turn_ops i imageIndex entry
            /\ FrameLoop.script w' = a_present :: rest.
Proof.
  intros i imageIndex Hentry Hguard Hscript.
  destruct w as [g sc tr]. cbn [FrameLoop.script FrameLoop.trace] in *. subst sc.
  unfold FrameLoop.iteration. fold i.
  destruct entry as [f|].
  - destruct a_guard as [|a_g [|]]; try discriminate Hguard.
    unfold FrameLoop.bind, FrameLoop.native, FrameLoop.host, FrameLoop.at_,
      FrameLoop.ret, FrameLoop.throw.
    cbn [FrameLoop.script FrameLoop.trace FrameLoop.gpu app].
    fold imageIndex. rewrite Hentry.
    cbn [FrameLoop.script FrameLoop.trace FrameLoop.gpu app].
    destruct (FrameLoop.is_success (FrameLoop.result a_submit)); cbn [negb];
      cbn [FrameLoop.script FrameLoop.trace FrameLoop.gpu app];
      eexists; eexists; (split; [|split; [reflexivity|split; [|reflexivity]]]);
      cbn [FrameLoop.trace]; rewrite <- ?app_assoc; cbn [app]; reflexivity.
  - destruct a_guard as [|]; try discriminate Hguard.
    unfold FrameLoop.bind, FrameLoop.native, FrameLoop.host, FrameLoop.at_,
      FrameLoop.ret, FrameLoop.throw.
    cbn [FrameLoop.script FrameLoop.trace FrameLoop.gpu app].
    fold imageIndex. rewrite Hentry.
    cbn [FrameLoop.script FrameLoop.trace FrameLoop.gpu app].
    destruct (FrameLoop.is_success (FrameLoop.result a_submit)); cbn [negb];
      cbn [FrameLoop.script FrameLoop.trace FrameLoop.gpu app];
      eexists; eexists; (split; [|split; [reflexivity|split; [|reflexivity]]]);
      cbn [FrameLoop.trace]; rewrite <- ?app_assoc; cbn [app]; reflexivity.
Qed.





(** A turn throws only out of the check of [vkQueueSubmit]. *)
Lemma iteration_thrown (st : FrameLoop.Loop) (w w' : FrameLoop.World)
    (what : string) :
  FrameLoop.iteration st w = (FrameLoop.Thrown what, w') ->
  what = "failed to submit command buffer!"%string
  /\ exists pre ws cb ss f ans before,
       FrameLoop.trace w'
       = pre ++ [FrameLoop.Native (FrameLoop.vkQueueSubmit ws cb ss f) ans before]
       /\ FrameLoop.result ans <> FrameLoop.VK_SUCCESS.
Proof.
  destruct w as [g sc tr]. unfold FrameLoop.iteration.
  unfold FrameLoop.bind, FrameLoop.native, FrameLoop.host, FrameLoop.at_,
    FrameLoop.ret, FrameLoop.throw.
  cbn [FrameLoop.script FrameLoop.trace FrameLoop.gpu].
  destruct sc as [|a1 [|a2 sc]]; try discriminate.
  cbn [FrameLoop.script FrameLoop.trace FrameLoop.gpu].
  destruct (FrameLoop.swapImagesFences st !! FrameLoop.out a2) as [[f|]|];
    try discriminate.
  - destruct sc as [|a3 [|a4 [|a5 sc]]]; try discriminate;
      cbn [FrameLoop.script FrameLoop.trace FrameLoop.gpu].
    destruct (FrameLoop.is_success (FrameLoop.result a5)) eqn:E; cbn [negb].
    + destruct sc as [|a6 sc]; discriminate.
    + intros H. injection H as <- <-. split; [reflexivity|].
      cbn [FrameLoop.trace]. do 7 eexists. split; [reflexivity|].
      intros Hs. rewrite Hs in E. discriminate E.
  - destruct sc as [|a4 [|a5 sc]]; try discriminate;
      cbn [FrameLoop.script FrameLoop.trace FrameLoop.gpu].
    destruct (FrameLoop.is_success (FrameLoop.result a5)) eqn:E; cbn [negb].
    + destruct sc as [|a6 sc]; discriminate.
    + intros H. injection H as <- <-. split; [reflexivity|].
      cbn [FrameLoop.trace]. do 7 eexists. split; [reflexivity|].
      intros Hs. rewrite Hs in E. discriminate E.
Qed.

Lemma loop_thrown (fuel : nat) :
  forall (st : FrameLoop.Loop) (w w' : FrameLoop.World) (what : string),
    FrameLoop.loop fuel st w = (FrameLoop.Thrown what, w') ->
    what = "failed to submit command buffer!"%string
    /\ exists pre ws cb ss f ans before,
         FrameLoop.trace w'
         = pre ++ [FrameLoop.Native (FrameLoop.vkQueueSubmit ws cb ss f) ans before]
         /\ FrameLoop.result ans <> FrameLoop.VK_SUCCESS.
Proof.
  induction fuel as [|fuel IH]; intros st w w' what H; [discriminate H|].
  cbn [FrameLoop.loop] in H. unfold FrameLoop.bind at 1 in H.
  destruct (FrameLoop.native FrameLoop.glfwWindowShouldClose w)
    as [[closed| | |] w1] eqn:En; try discriminate H.
  - destruct (negb (FrameLoop.out closed =? 0)%nat); [discriminate H|].
    unfold FrameLoop.bind in H.
    destruct (FrameLoop.iteration st w1) as [[st1| | |] w2] eqn:E;
      try discriminate H.
    + eapply IH; eauto.
    + injection H as <- <-. eapply iteration_thrown; eauto.
  - unfold FrameLoop.native in En. destruct (FrameLoop.script w); discriminate En.
Qed.

(** C2 (as the code has it). Of the native calls of the loop only
    [vkQueueSubmit] has its result checked.  Whatever the waits, the
    acquire, the reset and the present return, a turn ends normally when
    the submit returns VK_SUCCESS, and throws "failed to submit command
    buffer!" right after the submit when it returns anything else; every
    call of the turn is made once, none is retried; and the loop as a
    whole throws only in this way. *)
Theorem only_submit_failure_aborts :
  (forall (st : FrameLoop.Loop) (w : FrameLoop.World)
      (a_wait a_acquire : FrameLoop.Answer) (a_guard : list FrameLoop.Answer)
      (a_reset a_submit a_present : FrameLoop.Answer)
      (rest : list FrameLoop.Answer) (entry : option FrameLoop.Fence),
      let i := FrameLoop.activeSyncIdx st in
      let imageIndex := FrameLoop.out a_acquire in
      FrameLoop.swapImagesFences st !! imageIndex = Some entry ->
      length a_guard = FrameLoop.guard_calls entry ->
      FrameLoop.script w
      = a_wait :: a_acquire :: a_guard ++ a_reset :: a_submit :: a_present :: rest ->
      exists (w' : FrameLoop.World) (new : list FrameLoop.Event),
        FrameLoop.trace w' = FrameLoop.trace w ++ new
        /\ (FrameLoop.result a_submit = FrameLoop.VK_SUCCESS ->
              FrameLoop.iteration st w
              = (FrameLoop.Value
                   (FrameLoop.mkLoop ((i + 1) mod FrameLoop.imagesInFlight)%nat
                      (<[imageIndex := Some i]> (FrameLoop.swapImagesFences st))),
                 w')
              /\ map FrameLoop.op_of new = FrameLoop.turn_ops i imageIndex entry)
        /\ (FrameLoop.result a_submit <> FrameLoop.VK_SUCCESS ->
              FrameLoop.iteration st w
              = (FrameLoop.Thrown "failed to submit command buffer!", w')
              /\ map FrameLoop.op_of new
                 = FrameLoop.failed_turn_ops i imageIndex entry))
  /\ (forall (fuel : nat) (st : FrameLoop.Loop) (w w' : FrameLoop.World)
        (what : string),
        FrameLoop.loop fuel st w = (FrameLoop.Thrown what, w') ->
        what = "failed to submit command buffer!"%string
        /\ exists pre ws cb ss f ans before,
             FrameLoop.trace w'
             = pre ++ [FrameLoop.Native (FrameLoop.vkQueueSubmit ws cb ss f)
                         ans before]
             /\ FrameLoop.result ans <> FrameLoop.VK_SUCCESS).
Proof.
  split.
  - intros st w a_wait a_acquire a_guard a_reset a_submit a_present rest entry
      i imageIndex Hentry Hguard Hscript.
    destruct (iteration_eval st w a_wait a_acquire a_guard a_reset a_submit
                a_present rest entry Hentry Hguard Hscript) as (w' & new & Htr & H).
    exists w', new. split; [exact Htr|]. split.
    + intros Hs. rewrite Hs in H. cbn [FrameLoop.is_success] in H.
      destruct H as (Hrun & Hops & _). split; assumption.
    + intros Hs.
      destruct (FrameLoop.result a_submit) eqn:E; try contradiction;
        cbn [FrameLoop.is_success] in H;
        destruct H as (Hrun & Hops & _); split; assumption.
  - intros fuel st w w' what H. eapply loop_thrown; eauto.
Qed.

(** C2 (as stated) fails: [vkQueuePresentKHR] returns
    VK_ERROR_OUT_OF_DATE_KHR and the loop goes on to its normal end. *)
Lemma unchecked_failure_counterexample :
  exists (st' : FrameLoop.Loop) (w' : FrameLoop.World),
    FrameLoop.loop 2 (FrameLoop.initial_loop 3)
      (FrameLoop.initial_world out_of_date_run) = (FrameLoop.Value st', w')
    /\ ~ Forall FrameLoop.failure_is_fatal (FrameLoop.trace w').
Proof.
  eexists. eexists. split.
  - vm_compute. reflexivity.
  - intros H. rewrite Forall_forall in H.
    specialize (H (FrameLoop.Native
                     (FrameLoop.vkQueuePresentKHR
                        (FrameLoop.renderFinishedSemaphores 0) 0)
                     (FrameLoop.mkAnswer [] FrameLoop.VK_ERROR_OUT_OF_DATE_KHR 0)
                     (FrameLoop.mkGpu (fun f' => if (f' =? 0)%nat then false else true)
                        [(0%nat, 0%nat)]))).
    cbn [FrameLoop.failure_is_fatal FrameLoop.result] in H.
    assert (Hin : FrameLoop.VK_ERROR_OUT_OF_DATE_KHR = FrameLoop.VK_SUCCESS);
      [|discriminate Hin].
    apply H. apply (list_elem_of_lookup_2 _ 6%nat). reflexivity.
Qed.

Lemma only_submit_failure_aborts_witness :
  exists w',
    FrameLoop.iteration (FrameLoop.initial_loop 3)
      (FrameLoop.initial_world
         [FrameLoop.mkAnswer [] FrameLoop.VK_ERROR_DEVICE_LOST 0;
          sample_answer 2;
          sample_answer 0;
          FrameLoop.mkAnswer [] FrameLoop.VK_ERROR_DEVICE_LOST 0;
          sample_answer 0])
    = (FrameLoop.Thrown "failed to submit command buffer!", w').
Proof.
  destruct (proj1 only_submit_failure_aborts (FrameLoop.initial_loop 3)
              (FrameLoop.initial_world
                 [FrameLoop.mkAnswer [] FrameLoop.VK_ERROR_DEVICE_LOST 0;
                  sample_answer 2;
                  sample_answer 0;
                  FrameLoop.mkAnswer [] FrameLoop.VK_ERROR_DEVICE_LOST 0;
                  sample_answer 0])
              (FrameLoop.mkAnswer [] FrameLoop.VK_ERROR_DEVICE_LOST 0)
              (sample_answer 2) [] (sample_answer 0)
              (FrameLoop.mkAnswer [] FrameLoop.VK_ERROR_DEVICE_LOST 0)
              (sample_answer 0) [] None eq_refl eq_refl eq_refl)
    as (w' & new & _ & _ & Hfail).
  exists w'. apply Hfail. discriminate.
Defined.

(** ** The guard of the loop *)

Section FrameLogic.
Import FrameLoop.

Lemma guarded_weaken (R R' : Gpu -> Prop) (w : World) :
  (forall g, R g -> R' g) -> guarded R w -> guarded R' w.
Proof.
  intros HR H Hfair. destruct (H Hfair) as [Hg Hc]. split; auto.
Qed.

Lemma triple_ret {A : Type} (a : A) (R' : A -> Gpu -> Prop) :
  triple (R' a) (ret a) R'.
Proof. intros w H. exact H. Qed.

Lemma triple_bind {A B : Type} (R : Gpu -> Prop) (R1 : A -> Gpu -> Prop)
    (R2 : B -> Gpu -> Prop) (m : M A) (k : A -> M B) :
  triple R m R1 -> (forall a, triple (R1 a) (k a) R2) ->
  triple R (bind m k) R2.
Proof.
  intros Hm Hk w H. unfold bind. specialize (Hm w H).
  destruct (m w) as [[a| | |] w1]; try exact Hm.
  apply Hk. exact Hm.
Qed.

Lemma triple_pre {A : Type} (R R0 : Gpu -> Prop) (m : M A)
    (R' : A -> Gpu -> Prop) :
  (forall g, R g -> R0 g) -> triple R0 m R' -> triple R m R'.
Proof.
  intros HR Hm w H. apply Hm. eapply guarded_weaken; eauto.
Qed.

Lemma triple_throw {A : Type} (R : Gpu -> Prop) (what : string)
    (R' : A -> Gpu -> Prop) :
  triple R (throw what) R'.
Proof.
  intros w H. unfold throw. eapply guarded_weaken; [|exact H]. auto.
Qed.

Lemma triple_host (R : Gpu -> Prop) (h : HostCall) :
  triple R (host h) (fun _ => R).
Proof.
  intros [g sc tr] H. unfold host, guarded in *. cbn [trace gpu] in *.
  intros Hfair. apply Forall_app in Hfair. destruct Hfair as [Hfair _].
  destruct (H Hfair) as [Hg Hc]. split; [exact Hg|].
  apply Forall_app. split; [exact Hc|]. repeat constructor.
Qed.

Lemma triple_at {A : Type} (R : Gpu -> Prop) (v : list A) (i : nat) :
  triple R (at_ v i) (fun a g => R g /\ v !! i = Some a).
Proof.
  intros w H. unfold at_. destruct (v !! i) as [a|] eqn:E.
  - eapply guarded_weaken; [|exact H]. auto.
  - eapply guarded_weaken; [|exact H]. auto.
Qed.

(** The rule of a native call: the device moves on by the work that has
    finished, the call is recorded, and takes effect. *)
Lemma triple_native (R : Gpu -> Prop) (c : Call) (R' : Answer -> Gpu -> Prop) :
  (forall g ans,
     R g ->
     let before := fold_left complete (completed ans) g in
     fair (Native c ans before) ->
     clean (Native c ans before) /\ R' ans (effect before c (result ans))) ->
  triple R (native c) R'.
Proof.
  intros Hstep [g sc tr] H. unfold native. cbn [script].
  destruct sc as [|ans rest].
  - eapply guarded_weaken; [|exact H]. auto.
  - cbn [gpu trace]. unfold guarded in *. cbn [trace gpu] in *.
    intros Hfair. apply Forall_app in Hfair. destruct Hfair as [Hfair He].
    destruct (H Hfair) as [Hg Hc].
    apply Forall_cons in He. destruct He as [He _].
    destruct (Hstep g ans Hg He) as [Hclean HR'].
    split; [exact HR'|].
    apply Forall_app. split; [exact Hc|]. repeat constructor. exact Hclean.
Qed.

(** Finished work only leaves the list of unfinished work. *)
Lemma pending_complete (g : Gpu) (f : Fence) (s : nat * Fence) :
  In s (pending (complete g f)) -> In s (pending g) /\ snd s <> f.
Proof.
  unfold complete.
  destruct (existsb (fun s => snd s =? f)%nat (pending g)) eqn:E.
  - cbn [pending]. intros H. apply filter_In in H. destruct H as [H1 H2].
    split; [exact H1|]. apply negb_true_iff, Nat.eqb_neq in H2. exact H2.
  - intros H. split; [exact H|]. intros Heq.
    assert (Hex : existsb (fun s => snd s =? f)%nat (pending g) = true).
    { apply existsb_exists. exists s. split; [exact H|].
      apply Nat.eqb_eq. exact Heq. }
    congruence.
Qed.

Lemma signaled_complete_other (g : Gpu) (f f' : Fence) :
  f' <> f -> signaled (complete g f) f' = signaled g f'.
Proof.
  intros Hne. unfold complete.
  destruct (existsb (fun s => snd s =? f)%nat (pending g)); [|reflexivity].
  cbn [signaled]. destruct (Nat.eqb_spec f' f); [contradiction|reflexivity].
Qed.

Lemma complete_idle_same (g : Gpu) (f : Fence) :
  idle f g -> complete g f = g.
Proof.
  intros Hidle. unfold complete.
  destruct (existsb (fun s => snd s =? f)%nat (pending g)) eqn:E; [|reflexivity].
  apply existsb_exists in E. destruct E as ([img f'] & Hin & Heq).
  cbn [snd] in Heq. apply Nat.eqb_eq in Heq. subst f'.
  exfalso. exact (Hidle img Hin).
Qed.

Lemma complete_owned (table : list (option Fence)) (g : Gpu) (f : Fence) :
  owned table g -> owned table (complete g f).
Proof.
  intros Ho img f' Hin. apply pending_complete in Hin.
  destruct Hin as [Hin Hne]. cbn [snd] in Hne.
  destruct (Ho img f' Hin) as [Hs Ht]. split; [|exact Ht].
  rewrite signaled_complete_other by exact Hne. exact Hs.
Qed.

Lemma complete_idle (g : Gpu) (f f' : Fence) :
  idle f' g -> idle f' (complete g f).
Proof.
  intros Hidle img Hin. apply pending_complete in Hin.
  exact (Hidle img (proj1 Hin)).
Qed.

Lemma complete_free (g : Gpu) (f : Fence) (img : nat) :
  free img g -> free img (complete g f).
Proof.
  intros Hfree f' Hin. apply pending_complete in Hin.
  exact (Hfree f' (proj1 Hin)).
Qed.

Lemma complete_unsignaled (g : Gpu) (f i : Fence) :
  idle i g -> signaled g i = false -> signaled (complete g f) i = false.
Proof.
  intros Hidle Hs. destruct (Nat.eq_dec i f) as [->|Hne].
  - rewrite complete_idle_same by exact Hidle. exact Hs.
  - rewrite signaled_complete_other by exact Hne. exact Hs.
Qed.

Lemma completes_owned (table : list (option Fence)) (fs : list Fence) :
  forall g, owned table g -> owned table (fold_left complete fs g).
Proof.
  induction fs as [|f fs IH]; intros g H; [exact H|].
  cbn [fold_left]. apply IH. apply complete_owned. exact H.
Qed.

Lemma completes_idle (f' : Fence) (fs : list Fence) :
  forall g, idle f' g -> idle f' (fold_left complete fs g).
Proof.
  induction fs as [|f fs IH]; intros g H; [exact H|].
  cbn [fold_left]. apply IH. apply complete_idle. exact H.
Qed.

Lemma completes_free (img : nat) (fs : list Fence) :
  forall g, free img g -> free img (fold_left complete fs g).
Proof.
  induction fs as [|f fs IH]; intros g H; [exact H|].
  cbn [fold_left]. apply IH. apply complete_free. exact H.
Qed.

Lemma completes_unsignaled (i : Fence) (fs : list Fence) :
  forall g, idle i g -> signaled g i = false ->
            signaled (fold_left complete fs g) i = false.
Proof.
  induction fs as [|f fs IH]; intros g Hidle Hs; [exact Hs|].
  cbn [fold_left]. apply IH.
  - apply complete_idle. exact Hidle.
  - apply complete_unsignaled; assumption.
Qed.

(** A signaled fence has no unfinished work behind it. *)
Lemma owned_signaled_idle (table : list (option Fence)) (g : Gpu) (f : Fence) :
  owned table g -> signaled g f = true -> idle f g.
Proof.
  intros Ho Hs img Hin. destruct (Ho img f Hin) as [Hf _]. congruence.
Qed.

(** One turn of the loop keeps the table sound for the device, and its
    submit is clean. *)
Lemma iteration_triple (st : Loop) :
  triple (owned (swapImagesFences st)) (iteration st)
         (fun st' => owned (swapImagesFences st')).
Proof.
  unfold iteration. cbv zeta.
  set (i := activeSyncIdx st). set (table := swapImagesFences st).
  (* glfwPollEvents *)
  eapply triple_bind; [apply triple_host|]. intros ?.
  (* vkWaitForFences on the fence of the slot *)
  eapply triple_bind.
  { apply (triple_native _ _ (fun _ g => owned table g /\ idle i g)).
    intros g ans Ho before [Hcons Hsucc]. cbn in Hcons, Hsucc |- *.
    split; [exact I|].
    assert (Hb : owned table before) by (apply completes_owned; exact Ho).
    split; [exact Hb|].
    eapply owned_signaled_idle; eauto. }
  intros ?.
  (* vkAcquireNextImageKHR *)
  eapply triple_bind.
  { apply (triple_native _ _ (fun _ g => owned table g /\ idle i g)).
    intros g ans [Ho Hi] before _. cbn. split; [exact I|]. split.
    - apply completes_owned; exact Ho.
    - apply completes_idle; exact Hi. }
  intros acquired. set (imageIndex := out acquired).
  (* swapImagesFences[imageIndex] *)
  eapply triple_bind; [apply triple_at|]. intros entry.
  (* the guard *)
  eapply (triple_bind _
            (fun _ g => owned table g /\ idle i g /\ free imageIndex g
                        /\ table !! imageIndex = Some entry)).
  { destruct entry as [f|].
    - eapply (triple_bind _
                (fun (_ : Answer) g =>
                   owned table g /\ idle i g /\ free imageIndex g
                   /\ table !! imageIndex = Some (Some f)));
        [|intros ?;
          apply (triple_ret tt
                   (fun _ g => owned table g /\ idle i g /\ free imageIndex g
                               /\ table !! imageIndex = Some (Some f)))].
      apply triple_native.
      intros g ans [[Ho Hi] He] before [Hcons Hsucc].
      cbn in Hcons, Hsucc |- *. split; [exact I|].
      assert (Hb : owned table before) by (apply completes_owned; exact Ho).
      split; [exact Hb|]. split; [apply completes_idle; exact Hi|].
      split; [|exact He].
      intros f' Hin. destruct (Hb imageIndex f' Hin) as [Hs Ht].
      rewrite He in Ht. injection Ht as <-.
      rewrite (Hcons Hsucc) in Hs. discriminate Hs.
    - eapply triple_pre;
        [|apply (triple_ret tt
                   (fun _ g => owned table g /\ idle i g /\ free imageIndex g
                               /\ table !! imageIndex = Some None))].
      intros g [[Ho Hi] He]. split; [exact Ho|]. split; [exact Hi|].
      split; [|exact He].
      intros f' Hin. destruct (Ho imageIndex f' Hin) as [_ Ht].
      rewrite He in Ht. discriminate Ht. }
  intros ?. set (table' := <[imageIndex := Some i]> table).
  (* vkResetFences *)
  eapply triple_bind.
  { apply (triple_native _ _
             (fun _ g => owned table' g /\ idle i g /\ free imageIndex g
                         /\ signaled g i = false
                         /\ table !! imageIndex = Some entry)).
    intros g ans (Ho & Hi & Hf & He) before [_ Hsucc].
    cbn in Hsucc |- *. split; [exact I|].
    rewrite Hsucc. cbn [is_success].
    assert (Hb : owned table before) by (apply completes_owned; exact Ho).
    assert (Hbi : idle i before) by (apply completes_idle; exact Hi).
    assert (Hbf : free imageIndex before) by (apply completes_free; exact Hf).
    split; [|split; [exact Hbi|split; [exact Hbf|split; [|exact He]]]].
    - intros img f' Hin. cbn [pending signaled] in *.
      destruct (Hb img f' Hin) as [Hs Ht]. split.
      + destruct (f' =? i)%nat; [reflexivity | exact Hs].
      + unfold table'. rewrite list_lookup_insert_ne; [exact Ht|].
        intros ->. exact (Hbf f' Hin).
    - cbn [signaled]. rewrite Nat.eqb_refl. reflexivity. }
  intros ?.
  (* vkQueueSubmit *)
  eapply triple_bind.
  { apply (triple_native _ _
             (fun ans g => is_success (result ans) = true -> owned table' g)).
    intros g ans (Ho & Hi & Hf & Hs & He) before _. cbn [clean effect].
    assert (Hb : owned table' before) by (apply completes_owned; exact Ho).
    assert (Hbi : idle i before) by (apply completes_idle; exact Hi).
    assert (Hbf : free imageIndex before) by (apply completes_free; exact Hf).
    assert (Hbs : signaled before i = false)
      by (apply completes_unsignaled; assumption).
    split; [exact Hbf|].
    intros Hok. rewrite Hok. intros img f' Hin.
    cbn [pending signaled] in *. apply in_app_or in Hin.
    destruct Hin as [Hin | [Hin | []]].
    - exact (Hb img f' Hin).
    - injection Hin as <- <-. split; [exact Hbs|].
      unfold table'. apply list_lookup_insert_eq.
      apply lookup_lt_Some in He. exact He. }
  intros submitted.
  destruct (is_success (result submitted)) eqn:Hok; cbn [negb].
  - (* vkQueuePresentKHR, usleep *)
    eapply triple_pre; [intros g Hg; exact (Hg Hok)|].
    eapply triple_bind.
    { apply (triple_native _ _ (fun _ g => owned table' g)).
      intros g ans Ho before _. cbn. split; [exact I|].
      apply completes_owned; exact Ho. }
    intros ?.
    eapply triple_bind; [apply triple_host|]. intros ?.
    intros w Hw. exact Hw.
  - apply triple_throw.
Qed.

Lemma loop_triple (fuel : nat) :
  forall st : Loop,
    triple (owned (swapImagesFences st)) (loop fuel st)
           (fun st' => owned (swapImagesFences st')).
Proof.
  induction fuel as [|fuel IH]; intros st.
  - intros w H. cbn [loop]. eapply guarded_weaken; [|exact H]. auto.
  - cbn [loop].
    eapply triple_bind.
    { apply (triple_native _ _ (fun _ g => owned (swapImagesFences st) g)).
      intros g ans Ho before _. cbn. split; [exact I|].
      apply completes_owned; exact Ho. }
    intros closed. destruct (negb (out closed =? 0)%nat).
    + intros w Hw. exact Hw.
    + eapply triple_bind; [apply iteration_triple|]. intros st'. apply IH.
Qed.

(** Every submit of a fair run of the loop is clean. *)
Lemma loop_clean (fuel images : nat) (answers : list Answer) :
  let w' := snd (loop fuel (initial_loop images) (initial_world answers)) in
  Forall fair (trace w') -> Forall clean (trace w').
Proof.
  intros w' Hfair.
  pose proof (loop_triple fuel (initial_loop images) (initial_world answers)) as H.
  assert (H0 : guarded (owned (swapImagesFences (initial_loop images)))
                 (initial_world answers)).
  { intros _. split; [|constructor]. intros img f Hin. destruct Hin. }
  specialize (H H0). subst w'.
  destruct (loop fuel (initial_loop images) (initial_world answers))
    as [[st'| | |] w1]; cbn [snd] in *; exact (proj2 (H Hfair)).
Qed.

End FrameLogic.

(** C4 (as the code has it). In every turn the loop reads the table entry
    of the acquired image; if it is not VK_NULL_HANDLE it waits on that
    fence after the acquire and before the submit, and it stores the fence
    of slot i in the table for that image.  Hence, in every run in which
    the waits and the fence resets, whose results the loop does not check,
    return VK_SUCCESS, no command buffer is submitted for an image while an
    earlier submission for that image is unfinished. *)
Theorem guard_before_submit :
  (forall (st : FrameLoop.Loop) (w : FrameLoop.World)
      (a_wait a_acquire a_guard a_reset a_submit a_present : FrameLoop.Answer)
      (rest : list FrameLoop.Answer) (f : FrameLoop.Fence),
      let i := FrameLoop.activeSyncIdx st in
      let imageIndex := FrameLoop.out a_acquire in
      FrameLoop.swapImagesFences st !! imageIndex = Some (Some f) ->
      FrameLoop.script w
      = a_wait :: a_acquire :: a_guard :: a_reset :: a_submit :: a_present :: rest ->
      FrameLoop.result a_submit = FrameLoop.VK_SUCCESS ->
      exists (st' : FrameLoop.Loop) (w' : FrameLoop.World)
             (new : list FrameLoop.Event),
        FrameLoop.iteration st w = (FrameLoop.Value st', w')
        /\ FrameLoop.trace w' = FrameLoop.trace w ++ new
        /\ map FrameLoop.op_of new
           = [FrameLoop.HostOp FrameLoop.glfwPollEvents;
              FrameLoop.NativeOp (FrameLoop.vkWaitForFences i);
              FrameLoop.NativeOp
                (FrameLoop.vkAcquireNextImageKHR
                   (FrameLoop.imageAvailableSemaphores i));
              FrameLoop.NativeOp (FrameLoop.vkWaitForFences f);
              FrameLoop.NativeOp (FrameLoop.vkResetFences i);
              FrameLoop.NativeOp
                (FrameLoop.vkQueueSubmit
                   (FrameLoop.imageAvailableSemaphores i) imageIndex
                   (FrameLoop.renderFinishedSemaphores i) i);
              FrameLoop.NativeOp
                (FrameLoop.vkQueuePresentKHR
                   (FrameLoop.renderFinishedSemaphores i) imageIndex);
              FrameLoop.HostOp (FrameLoop.usleep 150000)]
        /\ FrameLoop.swapImagesFences st' !! imageIndex = Some (Some i))
  /\ (forall (fuel images : nat) (answers : list FrameLoop.Answer),
        let w' := snd (FrameLoop.loop fuel (FrameLoop.initial_loop images)
                         (FrameLoop.initial_world answers)) in
        Forall FrameLoop.consistent (FrameLoop.trace w') ->
        Forall FrameLoop.unchecked_calls_succeeded (FrameLoop.trace w') ->
        Forall FrameLoop.clean (FrameLoop.trace w')).
Proof.
  split.
  - intros st w a_wait a_acquire a_guard a_reset a_submit a_present rest f
      i imageIndex Hentry Hscript Hsubmit.
    destruct (iteration_eval st w a_wait a_acquire [a_guard] a_reset a_submit
                a_present rest (Some f) Hentry eq_refl Hscript)
      as (w' & new & Htr & H).
    rewrite Hsubmit in H. cbn [FrameLoop.is_success] in H.
    destruct H as (Hrun & Hops & _).
    eexists; exists w', new. split; [exact Hrun|].
    split; [exact Htr|]. split; [exact Hops|].
    cbn [FrameLoop.swapImagesFences]. apply list_lookup_insert_eq.
    apply lookup_lt_Some in Hentry. exact Hentry.
  - intros fuel images answers w' Hcons Hsucc.
    apply loop_clean. fold w'.
    apply Forall_forall. intros e He. split.
    + rewrite Forall_forall in Hcons. apply Hcons. exact He.
    + rewrite Forall_forall in Hsucc. apply Hsucc. exact He.
Qed.

Lemma guard_before_submit_witness :
  Forall FrameLoop.clean
    (FrameLoop.trace
       (snd (FrameLoop.loop 3 (FrameLoop.initial_loop 2)
               (FrameLoop.initial_world guarded_run)))).
Proof.
  apply (proj2 guard_before_submit 3%nat 2%nat guarded_run).
  - vm_compute.
    repeat (constructor; [try exact I; intros _; reflexivity|]). constructor.
  - vm_compute.
    repeat (constructor; [try exact I; reflexivity|]). constructor.
Defined.

(** C4 (as stated) fails: the run is one the Vulkan API allows, the loop
    ends normally, and its second submit is made for image 0 while the
    command buffer of the first turn, whose fence is still unsignaled, is
    unfinished. *)
Lemma failed_guard_counterexample :
  let run := FrameLoop.loop 3 (FrameLoop.initial_loop 2)
               (FrameLoop.initial_world failed_guard_run) in
  (exists st', fst run = FrameLoop.Value st')
  /\ Forall FrameLoop.consistent (FrameLoop.trace (snd run))
  /\ ~ Forall FrameLoop.clean (FrameLoop.trace (snd run)).
Proof.
  cbv zeta. split; [|split].
  - eexists. vm_compute. reflexivity.
  - vm_compute.
    repeat (constructor; [try exact I; intros H; try discriminate H; reflexivity|]).
    constructor.
  - intros H. rewrite Forall_forall in H.
    specialize (H (FrameLoop.Native
                     (FrameLoop.vkQueueSubmit
                        (FrameLoop.imageAvailableSemaphores 1) 0
                        (FrameLoop.renderFinishedSemaphores 1) 1%nat)
                     (sample_answer 0)
                     (FrameLoop.mkGpu
                        (fun f' => if (f' =? 1)%nat then false
                                   else if (f' =? 0)%nat then false else true)
                        [(0%nat, 0%nat)]))).
    cbn [FrameLoop.clean FrameLoop.pending] in H.
    refine (H _ 0%nat _); [|left; reflexivity].
    apply (list_elem_of_lookup_2 _ 14%nat). vm_compute. reflexivity.
Qed.

(* ===================================================================== *)
(** * Part III: further properties of the code *)
(* ===================================================================== *)

(** ** Bits *)

Lemma testbit_below (a k n : Z) :
  0 <= a < 2 ^ k -> k <= n -> Z.testbit a n = false.
Proof.
  intros Ha Hn. destruct (Z.ltb_spec k 0) as [Hk|Hk].
  - rewrite Z.pow_neg_r in Ha by exact Hk. lia.
  - rewrite <- (Z.mod_small a (2 ^ k)) by exact Ha.
    apply Z.mod_pow2_bits_high. lia.
Qed.

(** [a & (1 << i)] is the bit [i] of [a], in its place. *)
Lemma single_bit (a : Z) (i : nat) :
  (i < 32)%nat ->
  Z.land a (CInt.uint32 (Z.shiftl 1 (Z.of_nat i)))
  = if Z.testbit a (Z.of_nat i) then 2 ^ Z.of_nat i else 0.
Proof.
  intros Hi. unfold CInt.uint32.
  rewrite Z.shiftl_1_l.
  assert (H32 : 2 ^ Z.of_nat i < 4294967296).
  { change 4294967296 with (2 ^ 32). apply Z.pow_lt_mono_r; lia. }
  rewrite Z.mod_small by (split; [apply Z.pow_nonneg; lia | exact H32]).
  apply Z.bits_inj'. intros n Hn.
  rewrite Z.land_spec, Z.pow2_bits_eqb by lia.
  destruct (Z.eqb_spec (Z.of_nat i) n) as [<-|Hne].
  - rewrite andb_true_r. destruct (Z.testbit a (Z.of_nat i)) eqn:E.
    + rewrite Z.pow2_bits_true by lia. reflexivity.
    + rewrite Z.bits_0. reflexivity.
  - rewrite andb_false_r. destruct (Z.testbit a (Z.of_nat i)).
    + rewrite Z.pow2_bits_false by lia. reflexivity.
    + rewrite Z.bits_0. reflexivity.
Qed.

Lemma land_contains (flags properties : Z) :
  (Z.land flags properties =? properties) = true
  <-> forall b, Z.testbit properties b = true -> Z.testbit flags b = true.
Proof.
  rewrite Z.eqb_eq. split.
  - intros H b Hb. rewrite <- H in Hb. rewrite Z.land_spec in Hb.
    apply andb_true_iff in Hb. tauto.
  - intros H. apply Z.bits_inj. intros b. rewrite Z.land_spec.
    destruct (Z.testbit properties b) eqn:E.
    + rewrite (H b E). reflexivity.
    + apply andb_false_r.
Qed.

(** Numbers with no bit in common are added by [|]. *)
Lemma lor_disjoint_add (a b k : Z) :
  0 <= k -> 0 <= a < 2 ^ k -> Z.lor a (b * 2 ^ k) = a + b * 2 ^ k.
Proof.
  intros Hk Ha.
  assert (Hland : Z.land a (b * 2 ^ k) = 0).
  { apply Z.bits_inj'. intros n Hn. rewrite Z.land_spec, Z.bits_0.
    destruct (Z.ltb_spec n k) as [Hlt|Hge].
    - rewrite Z.mul_pow2_bits_low by lia. apply andb_false_r.
    - rewrite (testbit_below a k n) by lia. reflexivity. }
  rewrite <- Z.lxor_lor by exact Hland.
  symmetry. apply Z.add_nocarry_lxor. exact Hland.
Qed.

Lemma is_success_true (r : FrameLoop.VkResult) :
  FrameLoop.is_success r = true <-> r = FrameLoop.VK_SUCCESS.
Proof. destruct r; cbn; split; intros H; try discriminate H; reflexivity. Qed.

(** ** [FindMemoryType] *)

Lemma filter_bit_testbit (a : Z) (i : nat) :
  (i < 32)%nat ->
  negb (MemoryType.filter_bit a i =? 0) = Z.testbit a (Z.of_nat i).
Proof.
  intros Hi. unfold MemoryType.filter_bit. rewrite single_bit by exact Hi.
  destruct (Z.testbit a (Z.of_nat i)).
  - assert (0 < 2 ^ Z.of_nat i) by (apply Z.pow_pos_nonneg; lia).
    destruct (Z.eqb_spec (2 ^ Z.of_nat i) 0); [lia | reflexivity].
  - reflexivity.
Qed.

Lemma suits_suitable (mp : MemoryType.VkPhysicalDeviceMemoryProperties)
    (typeFilter properties : Z) (i : nat) (t : MemoryType.VkMemoryType) :
  (i < 32)%nat ->
  MemoryType.memoryTypes mp !! i = Some t ->
  (negb (MemoryType.filter_bit typeFilter i =? 0)
   && (Z.land (MemoryType.propertyFlags t) properties =? properties) = true
   <-> MemoryType.suitable mp typeFilter properties i).
Proof.
  intros Hi Ht. rewrite filter_bit_testbit by exact Hi.
  rewrite andb_true_iff, land_contains. unfold MemoryType.suitable. split.
  - intros [H1 H2]. split; [exact H1|]. exists t. split; [exact Ht | exact H2].
  - intros [H1 (t' & Ht' & H2)]. rewrite Ht in Ht'. injection Ht' as <-.
    split; assumption.
Qed.

(** The loop from [i] on, with [left] turns to go. *)
Lemma search_spec (mp : MemoryType.VkPhysicalDeviceMemoryProperties)
    (typeFilter properties : Z) (left : nat) :
  forall i : nat,
    (i + left <= 32)%nat ->
    (i + left <= length (MemoryType.memoryTypes mp))%nat ->
    match MemoryType.search mp typeFilter properties i left with
    | FrameLoop.Value k =>
        (i <= k < i + left)%nat
        /\ MemoryType.suitable mp typeFilter properties k
        /\ forall j, (i <= j < k)%nat ->
                     ~ MemoryType.suitable mp typeFilter properties j
    | FrameLoop.Thrown what =>
        what = "failed to find suitable memory type!"%string
        /\ forall j, (i <= j < i + left)%nat ->
                     ~ MemoryType.suitable mp typeFilter properties j
    | _ => False
    end.
Proof.
  induction left as [|left IH]; intros i H32 Hlen.
  - cbn [MemoryType.search]. split; [reflexivity|]. intros j Hj. lia.
  - cbn [MemoryType.search].
    destruct (Nat.leb_spec 32 i) as [Hbig|_]; [lia|].
    destruct (lookup_lt_is_Some_2 (MemoryType.memoryTypes mp) i ltac:(lia))
      as [t Ht].
    pose proof (suits_suitable mp typeFilter properties i t ltac:(lia) Ht) as Hs.
    assert (Hnext :
      ~ MemoryType.suitable mp typeFilter properties i ->
      match MemoryType.search mp typeFilter properties (S i) left with
      | FrameLoop.Value k =>
          (i <= k < i + S left)%nat
          /\ MemoryType.suitable mp typeFilter properties k
          /\ forall j, (i <= j < k)%nat ->
                       ~ MemoryType.suitable mp typeFilter properties j
      | FrameLoop.Thrown what =>
          what = "failed to find suitable memory type!"%string
          /\ forall j, (i <= j < i + S left)%nat ->
                       ~ MemoryType.suitable mp typeFilter properties j
      | _ => False
      end).
    { intros Hno. specialize (IH (S i) ltac:(lia) ltac:(lia)).
      destruct (MemoryType.search mp typeFilter properties (S i) left)
        as [k|what| |]; try exact IH.
      - destruct IH as (Hk & Hsk & Hmin). split; [lia|]. split; [exact Hsk|].
        intros j Hj. destruct (Nat.eq_dec j i) as [->|Hne]; [exact Hno|].
        apply Hmin. lia.
      - destruct IH as (Hw & Hnone). split; [exact Hw|].
        intros j Hj. destruct (Nat.eq_dec j i) as [->|Hne]; [exact Hno|].
        apply Hnone. lia. }
    destruct (negb (MemoryType.filter_bit typeFilter i =? 0)) eqn:Ef.
    + rewrite Ht.
      destruct (Z.land (MemoryType.propertyFlags t) properties =? properties) eqn:Ep.
      * split; [lia|]. split; [apply Hs; reflexivity|]. intros j Hj. lia.
      * apply Hnext. intros Hsuit. apply Hs in Hsuit. discriminate Hsuit.
    + apply Hnext. intros Hsuit. apply Hs in Hsuit. discriminate Hsuit.
Qed.

Lemma search_thrown (mp : MemoryType.VkPhysicalDeviceMemoryProperties)
    (typeFilter properties : Z) (left : nat) :
  forall (i : nat) (what : string),
    MemoryType.search mp typeFilter properties i left = FrameLoop.Thrown what ->
    what = "failed to find suitable memory type!"%string.
Proof.
  induction left as [|left IH]; intros i what; cbn [MemoryType.search].
  - intros H. injection H as <-. reflexivity.
  - destruct (32 <=? i)%nat; [discriminate|].
    destruct (negb (MemoryType.filter_bit typeFilter i =? 0)); [|apply IH].
    destruct (MemoryType.memoryTypes mp !! i) as [t|]; [|discriminate].
    destruct (Z.land (MemoryType.propertyFlags t) properties =? properties);
      [discriminate | apply IH].
Qed.

(** X1. On a device that reports at most VK_MAX_MEMORY_TYPES memory
    types, [FindMemoryType] returns [i] exactly when [i] is the first of
    the reported memory types that suits the request: bit [i] of
    [typeFilter] is set and the type has every bit of [properties]. *)
Theorem FindMemoryType_first_suitable
    (mp : MemoryType.VkPhysicalDeviceMemoryProperties)
    (typeFilter properties : Z) (i : nat) :
  (MemoryType.memoryTypeCount mp <= MemoryType.VK_MAX_MEMORY_TYPES)%nat ->
  length (MemoryType.memoryTypes mp) = MemoryType.VK_MAX_MEMORY_TYPES ->
  (MemoryType.FindMemoryType mp typeFilter properties = FrameLoop.Value i
   <-> (i < MemoryType.memoryTypeCount mp)%nat
       /\ MemoryType.suitable mp typeFilter properties i
       /\ forall j, (j < i)%nat ->
                    ~ MemoryType.suitable mp typeFilter properties j).
Proof.
  unfold MemoryType.VK_MAX_MEMORY_TYPES. intros Hc Hl.
  pose proof (search_spec mp typeFilter properties (MemoryType.memoryTypeCount mp)
                0%nat ltac:(lia) ltac:(lia)) as H.
  unfold MemoryType.FindMemoryType. split.
  - intros E. rewrite E in H. destruct H as (Hk & Hs & Hmin).
    split; [lia|]. split; [exact Hs|]. intros j Hj. apply Hmin. lia.
  - intros (Hi & Hs & Hmin).
    destruct (MemoryType.search mp typeFilter properties 0
                (MemoryType.memoryTypeCount mp)) as [k|what| |]; try contradiction.
    + destruct H as (Hk & Hsk & Hmink). f_equal.
      destruct (Nat.lt_trichotomy k i) as [Hlt|[Heq|Hgt]].
      * exfalso. exact (Hmin k Hlt Hsk).
      * exact Heq.
      * exfalso. apply (Hmink i); [lia | exact Hs].
    + destruct H as (_ & Hnone). exfalso. apply (Hnone i); [lia | exact Hs].
Qed.

(** Of the two memory types of the sample device, the second is the
    first that is host-visible. *)
Lemma FindMemoryType_first_suitable_witness :
  (1 < MemoryType.memoryTypeCount sample_memory)%nat
  /\ MemoryType.suitable sample_memory 3 2 1.
Proof.
  destruct (proj1 (FindMemoryType_first_suitable sample_memory 3 2 1
                     ltac:(apply Nat.leb_le; reflexivity) eq_refl) eq_refl)
    as (Hlt & Hs & _).
  split; [exact Hlt | exact Hs].
Defined.

(** X2. On such a device [FindMemoryType] throws "failed to find
    suitable memory type!" exactly when none of the reported memory types
    suits the request; it throws nothing else, and it never reads past
    the array of memory types. *)
Theorem FindMemoryType_throws
    (mp : MemoryType.VkPhysicalDeviceMemoryProperties)
    (typeFilter properties : Z) :
  (MemoryType.memoryTypeCount mp <= MemoryType.VK_MAX_MEMORY_TYPES)%nat ->
  length (MemoryType.memoryTypes mp) = MemoryType.VK_MAX_MEMORY_TYPES ->
  (MemoryType.FindMemoryType mp typeFilter properties
   = FrameLoop.Thrown "failed to find suitable memory type!"
   <-> forall i, (i < MemoryType.memoryTypeCount mp)%nat ->
                 ~ MemoryType.suitable mp typeFilter properties i)
  /\ (forall what,
        MemoryType.FindMemoryType mp typeFilter properties = FrameLoop.Thrown what ->
        what = "failed to find suitable memory type!"%string)
  /\ MemoryType.FindMemoryType mp typeFilter properties <> FrameLoop.Undefined
  /\ MemoryType.FindMemoryType mp typeFilter properties <> FrameLoop.Blocked.
Proof.
  unfold MemoryType.VK_MAX_MEMORY_TYPES. intros Hc Hl.
  pose proof (search_spec mp typeFilter properties (MemoryType.memoryTypeCount mp)
                0%nat ltac:(lia) ltac:(lia)) as H.
  unfold MemoryType.FindMemoryType.
  destruct (MemoryType.search mp typeFilter properties 0
              (MemoryType.memoryTypeCount mp)) as [k|what| |]; try contradiction.
  - destruct H as (Hk & Hs & _).
    split; [|split; [|split]]; try discriminate.
    split; [discriminate|]. intros Hnone. exfalso. apply (Hnone k); [lia | exact Hs].
  - destruct H as (-> & Hnone).
    split; [|split; [|split]]; try discriminate.
    + split; [|reflexivity]. intros _ i Hi. apply Hnone. lia.
    + intros what E. injection E as <-. reflexivity.
Qed.

(** A request for host-visible memory that the filter limits to the
    device-local type of the sample device. *)
Lemma FindMemoryType_throws_witness :
  MemoryType.FindMemoryType sample_memory 1 2
  = FrameLoop.Thrown "failed to find suitable memory type!".
Proof.
  apply (proj2 (proj1 (FindMemoryType_throws sample_memory 1 2
                         ltac:(apply Nat.leb_le; reflexivity) eq_refl))).
  intros i Hi [Hbit (t & Ht & Hflags)].
  destruct i as [|[|i]].
  - injection Ht as <-. specialize (Hflags 1 eq_refl). discriminate Hflags.
  - discriminate Hbit.
  - unfold sample_memory in Hi. cbn in Hi. lia.
Defined.

(** ** [FindQueueFamily] and the choice of the physical device *)

Lemma next_succ (i : nat) :
  Z.of_nat i < QueueFamily.UINT32_MAX ->
  QueueFamily.next (Z.of_nat i) = Z.of_nat (S i).
Proof.
  unfold QueueFamily.next, QueueFamily.UINT32_MAX. intros H.
  rewrite Z.mod_small by lia. lia.
Qed.

(** The loop over the families [rest] that start at index [i]. *)
Lemma swapchain_scan_spec (device : QueueFamily.PhysicalDevice) (surface : N) :
  forall (rest : list QueueFamily.VkQueueFamilyProperties) (i : nat) (hasIdx : bool),
    (forall j, rest !! j = QueueFamily.queueFamilies device !! (i + j)%nat) ->
    Z.of_nat (i + length rest) <= QueueFamily.UINT32_MAX ->
    let r := QueueFamily.Swapchain.scan device surface rest (Z.of_nat i) hasIdx in
    (snd r = true
     <-> hasIdx = true
         \/ exists k, (i <= k < i + length rest)%nat /\ QueueFamily.graphics_at device k)
    /\ ((exists k, fst r = Z.of_nat k /\ (i <= k < i + length rest)%nat
                   /\ QueueFamily.presentable_at device surface k
                   /\ forall j, (i <= j < k)%nat ->
                                ~ QueueFamily.presentable_at device surface j)
        \/ (fst r = QueueFamily.UINT32_MAX
            /\ forall j, (i <= j < i + length rest)%nat ->
                         ~ QueueFamily.presentable_at device surface j)).
Proof.
  induction rest as [|q rest IH]; intros i hasIdx Hrest Hlen; cbv zeta.
  - cbn [QueueFamily.Swapchain.scan fst snd length]. split.
    + split; [intros ->; left; reflexivity|].
      intros [H|(k & Hk & _)]; [exact H | lia].
    + right. split; [reflexivity|]. intros j Hj. lia.
  - cbn [QueueFamily.Swapchain.scan length] in *.
    assert (Hq : QueueFamily.queueFamilies device !! i = Some q).
    { pose proof (Hrest 0%nat) as H0. rewrite Nat.add_0_r in H0.
      rewrite <- H0. reflexivity. }
    assert (Hrest' : forall j, rest !! j
                     = QueueFamily.queueFamilies device !! (S i + j)%nat).
    { intros j. pose proof (Hrest (S j)) as Hj.
      replace (i + S j)%nat with (S i + j)%nat in Hj by lia.
      rewrite <- Hj. reflexivity. }
    rewrite next_succ by lia.
    assert (Hstep : forall h,
      let r := QueueFamily.Swapchain.scan device surface rest (Z.of_nat (S i)) h in
      ~ QueueFamily.presentable_at device surface i ->
      ((exists k, fst r = Z.of_nat k /\ (i <= k < i + S (length rest))%nat
                   /\ QueueFamily.presentable_at device surface k
                   /\ forall j, (i <= j < k)%nat ->
                                ~ QueueFamily.presentable_at device surface j)
        \/ (fst r = QueueFamily.UINT32_MAX
            /\ forall j, (i <= j < i + S (length rest))%nat ->
                         ~ QueueFamily.presentable_at device surface j))).
    { intros h r Hno. subst r.
      destruct (IH (S i) h Hrest' ltac:(lia)) as [_ [H|H]].
      - left. destruct H as (k & Hf & Hk & Hp & Hmin). exists k.
        split; [exact Hf|]. split; [lia|]. split; [exact Hp|].
        intros j Hj. destruct (Nat.eq_dec j i) as [->|Hne]; [exact Hno|].
        apply Hmin. lia.
      - right. destruct H as (Hf & Hnone). split; [exact Hf|].
        intros j Hj. destruct (Nat.eq_dec j i) as [->|Hne]; [exact Hno|].
        apply Hnone. lia. }
    destruct (QueueFamily.graphics q) eqn:Eg.
    + assert (Hg : QueueFamily.graphics_at device i) by (exists q; split; assumption).
      destruct (Z.eqb_spec (QueueFamily.presentSupport device surface (Z.of_nat i)) 0)
        as [Ep|Ep]; cbn [negb].
      * split.
        -- destruct (IH (S i) true Hrest' ltac:(lia)) as [Hh _].
           split; [|intros _; apply Hh; left; reflexivity].
           intros _. right. exists i. split; [lia | exact Hg].
        -- apply Hstep. intros [_ Hp]. contradiction.
      * cbn [fst snd]. split.
        -- split; [|reflexivity]. intros _. right. exists i. split; [lia | exact Hg].
        -- left. exists i. split; [reflexivity|]. split; [lia|].
           split; [split; assumption|]. intros j Hj. lia.
    + assert (Hng : ~ QueueFamily.graphics_at device i).
      { intros (q' & Hq' & Hg'). rewrite Hq in Hq'. injection Hq' as <-. congruence. }
      split.
      * destruct (IH (S i) hasIdx Hrest' ltac:(lia)) as [Hh _]. cbv zeta in Hh.
        rewrite Hh. split.
        -- intros [H|(k & Hk & Hgk)]; [left; exact H|].
           right. exists k. split; [lia | exact Hgk].
        -- intros [H|(k & Hk & Hgk)]; [left; exact H|].
           right. exists k. split; [|exact Hgk].
           destruct (Nat.eq_dec k i) as [->|Hne]; [contradiction | lia].
      * apply Hstep. intros [Hg _]. contradiction.
Qed.

Lemma first_unique (P : nat -> Prop) (k k' : nat) :
  QueueFamily.first P k -> QueueFamily.first P k' -> k = k'.
Proof.
  intros [Hk Hmin] [Hk' Hmin'].
  destruct (Nat.lt_trichotomy k k') as [H|[H|H]].
  - exfalso. exact (Hmin' k H Hk).
  - exact H.
  - exfalso. exact (Hmin k' H Hk').
Qed.

Lemma graphics_at_lt (device : QueueFamily.PhysicalDevice) (k : nat) :
  QueueFamily.graphics_at device k ->
  (k < length (QueueFamily.queueFamilies device))%nat.
Proof.
  intros (q & Hq & _). eapply lookup_lt_Some. exact Hq.
Qed.

(** The facts about the swapchain variant that the theorems below
    share. *)
Lemma swapchain_find (surface : N) (device : QueueFamily.PhysicalDevice) :
  QueueFamily.representable device ->
  let idx := fst (QueueFamily.Swapchain.FindQueueFamily surface device) in
  let hasIdx := snd (QueueFamily.Swapchain.FindQueueFamily surface device) in
  (hasIdx = true <-> exists k, QueueFamily.graphics_at device k)
  /\ (forall k, QueueFamily.first (QueueFamily.presentable_at device surface) k ->
                idx = Z.of_nat k /\ idx <> QueueFamily.UINT32_MAX)
  /\ (idx = QueueFamily.UINT32_MAX
      <-> forall k, ~ QueueFamily.presentable_at device surface k).
Proof.
  intros Hrep idx hasIdx.
  pose proof (swapchain_scan_spec device surface (QueueFamily.queueFamilies device)
                0%nat false ltac:(intros j; reflexivity) Hrep) as [Hh Hi].
  cbv zeta in Hh, Hi. change (Z.of_nat 0) with 0 in Hh, Hi.
  fold (QueueFamily.Swapchain.FindQueueFamily surface device) in Hh, Hi.
  fold idx in Hi. fold hasIdx in Hh.
  assert (Hgr : hasIdx = true <-> exists k, QueueFamily.graphics_at device k).
  { rewrite Hh. split.
    - intros [H|(k & _ & Hg)]; [discriminate H | exists k; exact Hg].
    - intros (k & Hg). right. exists k. split; [|exact Hg].
      pose proof (graphics_at_lt device k Hg). lia. }
  assert (Hmax : idx = QueueFamily.UINT32_MAX
                 <-> forall k, ~ QueueFamily.presentable_at device surface k).
  { split.
    - intros E k Hp. destruct Hi as [(k' & Hf & Hk' & _)|(_ & Hnone)].
      + unfold QueueFamily.representable in Hrep. lia.
      + apply (Hnone k); [|exact Hp].
        pose proof (graphics_at_lt device k (proj1 Hp)). lia.
    - intros Hnone. destruct Hi as [(k' & _ & _ & Hp & _)|(Hf & _)]; [|exact Hf].
      exfalso. exact (Hnone k' Hp). }
  split; [exact Hgr|]. split; [|exact Hmax].
  intros k Hfirst. destruct Hi as [(k' & Hf & Hk' & Hp & Hmin)|(_ & Hnone)].
  - assert (k = k').
    { apply (first_unique _ k k' Hfirst). split; [exact Hp|].
      intros j Hj. apply Hmin. lia. }
    subst k'. split; [exact Hf|].
    unfold QueueFamily.representable in Hrep. lia.
  - exfalso. destruct Hfirst as [Hp _]. apply (Hnone k); [|exact Hp].
    pose proof (graphics_at_lt device k (proj1 Hp)). lia.
Qed.

Lemma offscreen_as_swapchain (device : QueueFamily.PhysicalDevice) (surface : N) :
  (forall idx, QueueFamily.presentSupport device surface idx <> 0) ->
  forall (families : list QueueFamily.VkQueueFamilyProperties) (idx : Z)
         (hasIdx : bool),
    QueueFamily.Offscreen.scan families idx hasIdx
    = QueueFamily.Swapchain.scan device surface families idx hasIdx.
Proof.
  intros Hp. induction families as [|q rest IH]; intros idx hasIdx; [reflexivity|].
  cbn [QueueFamily.Offscreen.scan QueueFamily.Swapchain.scan].
  destruct (QueueFamily.graphics q).
  - destruct (Z.eqb_spec (QueueFamily.presentSupport device surface idx) 0) as [E|E].
    + exfalso. exact (Hp idx E).
    + reflexivity.
  - apply IH.
Qed.

(** X3. [FindQueueFamily] of vktriangle.cpp and of the compute example
    sets [*hasIdx] exactly when the device has a queue family with the
    graphics bit; it then returns the index of the first such family, and
    it returns UINT32_MAX exactly when [*hasIdx] stays false. *)
Theorem FindQueueFamily_offscreen (device : QueueFamily.PhysicalDevice) :
  QueueFamily.representable device ->
  let idx := fst (QueueFamily.Offscreen.FindQueueFamily device) in
  let hasIdx := snd (QueueFamily.Offscreen.FindQueueFamily device) in
  (hasIdx = true <-> exists k, QueueFamily.graphics_at device k)
  /\ (forall k, QueueFamily.first (QueueFamily.graphics_at device) k ->
                idx = Z.of_nat k)
  /\ (hasIdx = false <-> idx = QueueFamily.UINT32_MAX).
Proof.
  intros Hrep idx hasIdx.
  set (d' := QueueFamily.mkPhysicalDevice (QueueFamily.handle device)
               (QueueFamily.queueFamilies device) (fun _ _ => 1)).
  assert (Hsame : QueueFamily.Offscreen.FindQueueFamily device
                  = QueueFamily.Swapchain.FindQueueFamily 0%N d').
  { unfold QueueFamily.Offscreen.FindQueueFamily,
      QueueFamily.Swapchain.FindQueueFamily.
    apply (offscreen_as_swapchain d' 0%N). intros ? ; cbn. discriminate. }
  assert (Hp : forall k, QueueFamily.presentable_at d' 0%N k
                         <-> QueueFamily.graphics_at device k).
  { intros k. unfold QueueFamily.presentable_at. cbn [QueueFamily.presentSupport d'].
    split; [intros [H _]; exact H|]. intros H. split; [exact H | discriminate]. }
  destruct (swapchain_find 0%N d' Hrep) as (H1 & H2 & H3).
  subst idx hasIdx. rewrite Hsame. split; [|split].
  - rewrite H1. split; intros (k & Hk); exists k; exact Hk.
  - intros k [Hk Hmin]. refine (proj1 (H2 k _)).
    split; [exact (proj2 (Hp k) Hk)|].
    intros j Hj Hpj. exact (Hmin j Hj (proj1 (Hp j) Hpj)).
  - rewrite H3. split.
    + intros Hf k Hk.
      assert (Ht : snd (QueueFamily.Swapchain.FindQueueFamily 0%N d') = true)
        by (apply H1; exists k; exact (proj1 Hk)).
      congruence.
    + intros Hnone. apply not_true_is_false. intros E.
      apply H1 in E. destruct E as (k & Hk). apply (Hnone k).
      exact (proj2 (Hp k) Hk).
Qed.

(** The graphics family of the sample device is its second one. *)
Lemma FindQueueFamily_offscreen_witness :
  fst (QueueFamily.Offscreen.FindQueueFamily sample_device) = 1.
Proof.
  refine (proj1 (proj2 (FindQueueFamily_offscreen sample_device _)) 1%nat _).
  - unfold QueueFamily.representable, QueueFamily.UINT32_MAX. cbn. lia.
  - split.
    + eexists. split; reflexivity.
    + intros j Hj (q & Hq & Hg). destruct j as [|j]; [|lia].
      injection Hq as <-. discriminate Hg.
Defined.

(** X4. [FindQueueFamily] of the swapchain examples returns the index of
    the first queue family that has the graphics bit and can present to
    the surface, and UINT32_MAX exactly when there is none; but it sets
    [*hasIdx] as soon as any family has the graphics bit.  So it returns
    UINT32_MAX with [*hasIdx] true exactly when the device has a graphics
    family and none of its graphics families can present. *)
Theorem FindQueueFamily_swapchain (surface : N)
    (device : QueueFamily.PhysicalDevice) :
  QueueFamily.representable device ->
  let idx := fst (QueueFamily.Swapchain.FindQueueFamily surface device) in
  let hasIdx := snd (QueueFamily.Swapchain.FindQueueFamily surface device) in
  (hasIdx = true <-> exists k, QueueFamily.graphics_at device k)
  /\ (forall k, QueueFamily.first (QueueFamily.presentable_at device surface) k ->
                idx = Z.of_nat k /\ idx <> QueueFamily.UINT32_MAX)
  /\ (idx = QueueFamily.UINT32_MAX
      <-> forall k, ~ QueueFamily.presentable_at device surface k)
  /\ (hasIdx = true /\ idx = QueueFamily.UINT32_MAX
      <-> (exists k, QueueFamily.graphics_at device k)
          /\ forall k, ~ QueueFamily.presentable_at device surface k).
Proof.
  intros Hrep idx hasIdx.
  destruct (swapchain_find surface device Hrep) as (H1 & H2 & H3).
  fold idx in H2, H3. fold hasIdx in H1.
  split; [exact H1|]. split; [exact H2|]. split; [exact H3|].
  rewrite H1, H3. reflexivity.
Qed.

(** The sample device has a graphics family that cannot present. *)
Lemma FindQueueFamily_swapchain_witness :
  snd (QueueFamily.Swapchain.FindQueueFamily 9 sample_device) = true
  /\ fst (QueueFamily.Swapchain.FindQueueFamily 9 sample_device)
     = QueueFamily.UINT32_MAX.
Proof.
  refine (proj2 (proj2 (proj2 (proj2
            (FindQueueFamily_swapchain 9 sample_device _)))) _).
  - unfold QueueFamily.representable, QueueFamily.UINT32_MAX. cbn. lia.
  - split.
    + exists 1%nat. eexists. split; reflexivity.
    + intros k [_ Hp]. apply Hp. reflexivity.
Defined.

Lemma external_scan_null (device : QueueFamily.PhysicalDevice)
    (families : list QueueFamily.VkQueueFamilyProperties) :
  forall (idx : Z) (hasIdx : bool),
    QueueFamily.ExternalMemory.scan device QueueFamily.VK_NULL_HANDLE families
      idx hasIdx
    = QueueFamily.Offscreen.scan families idx hasIdx.
Proof.
  induction families as [|q rest IH]; intros idx hasIdx; [reflexivity|].
  cbn [QueueFamily.ExternalMemory.scan QueueFamily.Offscreen.scan].
  change (negb (QueueFamily.VK_NULL_HANDLE =? QueueFamily.VK_NULL_HANDLE)%N)
    with false.
  cbv iota. rewrite IH. reflexivity.
Qed.

Lemma external_scan_surface (device : QueueFamily.PhysicalDevice) (surface : N)
    (families : list QueueFamily.VkQueueFamilyProperties) :
  surface <> QueueFamily.VK_NULL_HANDLE ->
  forall (idx : Z) (hasIdx : bool),
    QueueFamily.ExternalMemory.scan device surface families idx hasIdx
    = QueueFamily.Swapchain.scan device surface families idx hasIdx.
Proof.
  intros Hs. induction families as [|q rest IH]; intros idx hasIdx; [reflexivity|].
  cbn [QueueFamily.ExternalMemory.scan QueueFamily.Swapchain.scan].
  destruct (N.eqb_spec surface QueueFamily.VK_NULL_HANDLE) as [E|E];
    [contradiction|]. cbn [negb].
  rewrite !IH. reflexivity.
Qed.

(** X5. [FindQueueFamily] of vktriangle_external_memory.cpp is the
    function of vktriangle.cpp when it is given VK_NULL_HANDLE for the
    surface, as by the producer thread, and the function of
    vktriangle_glfw.cpp when it is given a surface. *)
Theorem FindQueueFamily_external_memory (surface : N)
    (device : QueueFamily.PhysicalDevice) :
  QueueFamily.ExternalMemory.FindQueueFamily surface device
  = if (surface =? QueueFamily.VK_NULL_HANDLE)%N
    then QueueFamily.Offscreen.FindQueueFamily device
    else QueueFamily.Swapchain.FindQueueFamily surface device.
Proof.
  destruct (N.eqb_spec surface QueueFamily.VK_NULL_HANDLE) as [->|Hs].
  - apply external_scan_null.
  - apply external_scan_surface. exact Hs.
Qed.

Lemma pick_first (find : QueueFamily.PhysicalDevice -> Z * bool)
    (pre post : list QueueFamily.PhysicalDevice)
    (device : QueueFamily.PhysicalDevice) :
  (forall d, In d pre -> snd (find d) = false) ->
  snd (find device) = true ->
  forall (physicalDevice : N) (idx : Z),
    QueueFamily.pick find (pre ++ device :: post) physicalDevice idx
    = (QueueFamily.handle device, fst (find device)).
Proof.
  intros Hpre Hd. induction pre as [|d pre IH]; intros physicalDevice idx.
  - cbn [app QueueFamily.pick]. destruct (find device) as [i h].
    cbn [snd] in Hd. subst h. reflexivity.
  - cbn [app QueueFamily.pick].
    pose proof (Hpre d (or_introl eq_refl)) as Hf.
    destruct (find d) as [i h]. cbn [snd] in Hf. subst h.
    apply IH. intros d' Hin. apply Hpre. right. exact Hin.
Qed.

(** X6. Step 2 of the swapchain examples selects the first physical
    device that has a queue family with the graphics bit, whether or not
    that device can present: the queue family index it goes on with is
    the first graphics family of that device that can present, and
    UINT32_MAX when that device has none, whatever the devices after it
    offer. *)
Theorem physical_device_selection (surface : N)
    (pre post : list QueueFamily.PhysicalDevice)
    (device : QueueFamily.PhysicalDevice) (uninitialized : N * Z) :
  Forall QueueFamily.representable (pre ++ [device]) ->
  (forall d, In d pre -> forall k, ~ QueueFamily.graphics_at d k) ->
  (exists k, QueueFamily.graphics_at device k) ->
  QueueFamily.handle device <> QueueFamily.VK_NULL_HANDLE ->
  let selected :=
    QueueFamily.select_physical_device
      (QueueFamily.Swapchain.FindQueueFamily surface)
      (pre ++ device :: post) uninitialized in
  selected
  = Returns (QueueFamily.handle device,
             fst (QueueFamily.Swapchain.FindQueueFamily surface device))
  /\ (forall k, QueueFamily.first (QueueFamily.presentable_at device surface) k ->
        selected = Returns (QueueFamily.handle device, Z.of_nat k))
  /\ ((forall k, ~ QueueFamily.presentable_at device surface k) ->
        selected = Returns (QueueFamily.handle device, QueueFamily.UINT32_MAX)).
Proof.
  intros Hrep Hpre Hd Hh selected.
  apply Forall_app in Hrep. destruct Hrep as [Hrpre Hrd].
  apply Forall_cons in Hrd. destruct Hrd as [Hrd _].
  destruct (swapchain_find surface device Hrd) as (H1 & H2 & H3).
  assert (E : selected
              = Returns (QueueFamily.handle device,
                         fst (QueueFamily.Swapchain.FindQueueFamily surface device))).
  { subst selected. unfold QueueFamily.select_physical_device.
    rewrite length_app. cbn [length].
    replace (length pre + S (length post) =? 0)%nat with false
      by (symmetry; apply Nat.eqb_neq; lia).
    rewrite (pick_first (QueueFamily.Swapchain.FindQueueFamily surface) pre post device).
    - destruct (N.eqb_spec (QueueFamily.handle device) QueueFamily.VK_NULL_HANDLE);
        [contradiction | reflexivity].
    - intros d Hin. apply not_true_is_false. intros Ht.
      rewrite Forall_forall in Hrpre.
      assert (Hrdd : QueueFamily.representable d).
      { apply Hrpre. apply list_elem_of_In. exact Hin. }
      destruct (swapchain_find surface d Hrdd) as (Hd1 & _).
      apply Hd1 in Ht. destruct Ht as (k & Hk). exact (Hpre d Hin k Hk).
    - apply H1. exact Hd. }
  split; [exact E|]. split.
  - intros k Hk. rewrite E. destruct (H2 k Hk) as [-> _]. reflexivity.
  - intros Hnone. rewrite E. rewrite (proj2 H3 Hnone). reflexivity.
Qed.

(** After a device without a graphics family, the sample device is
    selected with the queue family index UINT32_MAX. *)
Lemma physical_device_selection_witness :
  QueueFamily.select_physical_device (QueueFamily.Swapchain.FindQueueFamily 9)
    ([transfer_device] ++ sample_device :: []) (0%N, 0)
  = Returns (7%N, QueueFamily.UINT32_MAX).
Proof.
  refine (proj2 (proj2 (physical_device_selection 9 [transfer_device] []
                          sample_device (0%N, 0) _ _ _ _)) _).
  - repeat constructor;
      unfold QueueFamily.representable, QueueFamily.UINT32_MAX; cbn; lia.
  - intros d [<-|[]] k (q & Hq & Hg). destruct k as [|k]; [|discriminate Hq].
    injection Hq as <-. discriminate Hg.
  - exists 1%nat. eexists. split; reflexivity.
  - discriminate.
  - intros k [_ Hp]. apply Hp. reflexivity.
Defined.

(** ** vkmininfo: the version numbers *)

(** The packed value, as a sum: the four fields do not overlap. *)
Lemma version_sum (variant major minor patch : Z) :
  0 <= variant < 8 -> 0 <= major < 128 -> 0 <= minor < 1024 -> 0 <= patch < 4096 ->
  Version.VK_MAKE_API_VERSION variant major minor patch
  = patch + (minor + (major + variant * 128) * 1024) * 4096.
Proof.
  intros Hv HM Hm Hp. unfold Version.VK_MAKE_API_VERSION, CInt.uint32.
  rewrite !Z.shiftl_mul_pow2 by lia.
  change (2 ^ 29) with 536870912. change (2 ^ 22) with 4194304.
  change (2 ^ 12) with 4096.
  rewrite !Z.mod_small by (rewrite ?Z.mod_small by lia; lia).
  rewrite (Z.lor_comm (variant * 536870912)).
  replace (variant * 536870912) with (variant * 2 ^ 29) by reflexivity.
  rewrite (lor_disjoint_add (major * 4194304) variant 29) by lia.
  rewrite (Z.lor_comm _ (minor * 4096)).
  replace (major * 4194304 + variant * 2 ^ 29)
    with ((major + variant * 128) * 2 ^ 22) by (change (2 ^ 29) with 536870912; change (2 ^ 22) with 4194304; lia).
  rewrite (lor_disjoint_add (minor * 4096) _ 22) by lia.
  rewrite Z.lor_comm.
  replace (minor * 4096 + (major + variant * 128) * 2 ^ 22)
    with ((minor + (major + variant * 128) * 1024) * 2 ^ 12) by (change (2 ^ 12) with 4096; change (2 ^ 22) with 4194304; lia).
  rewrite (lor_disjoint_add patch _ 12) by lia.
  reflexivity.
Qed.

(** The four fields, by division. *)
Lemma version_fields (e : Z) :
  Version.GetVersionInfo e
  = Version.mkVersionInfo ((e mod 4294967296 / 536870912) mod 256)
      ((e mod 4294967296 / 4194304) mod 128 mod 256)
      ((e mod 4294967296 / 4096) mod 1024 mod 65536)
      ((e mod 4294967296) mod 4096 mod 65536).
Proof.
  unfold Version.GetVersionInfo, Version.VK_API_VERSION_VARIANT,
    Version.VK_API_VERSION_MAJOR, Version.VK_API_VERSION_MINOR,
    Version.VK_API_VERSION_PATCH, CInt.uint8, CInt.uint16, CInt.uint32.
  change 127 with (Z.ones 7). change 1023 with (Z.ones 10).
  change 4095 with (Z.ones 12).
  rewrite !Z.shiftr_div_pow2, !Z.land_ones by lia.
  reflexivity.
Qed.

(** X7. [GetVersionInfo] gives back the four numbers that
    VK_MAKE_API_VERSION packed, when each fits its field: a variant below
    8, a major number below 128, a minor number below 1024 and a patch
    number below 4096. *)
Theorem version_decodes_encoded (variant major minor patch : Z) :
  0 <= variant < 8 -> 0 <= major < 128 -> 0 <= minor < 1024 -> 0 <= patch < 4096 ->
  Version.GetVersionInfo (Version.VK_MAKE_API_VERSION variant major minor patch)
  = Version.mkVersionInfo variant major minor patch.
Proof.
  intros Hv HM Hm Hp. rewrite version_fields, version_sum by assumption.
  f_equal; Z.to_euclidean_division_equations; lia.
Qed.

(** The version 1.3.250. *)
Lemma version_decodes_encoded_witness :
  Version.GetVersionInfo (Version.VK_MAKE_API_VERSION 0 1 3 250)
  = Version.mkVersionInfo 0 1 3 250.
Proof.
  apply version_decodes_encoded; lia.
Defined.

(** X8. The four numbers [GetVersionInfo] reads from a 32-bit value
    are within the ranges of the fields, and VK_MAKE_API_VERSION packs
    them into the same value again: no bit of the value is lost. *)
Theorem version_encodes_decoded (encodedVersion : Z) :
  0 <= encodedVersion < 4294967296 ->
  let info := Version.GetVersionInfo encodedVersion in
  0 <= Version.variant info < 8
  /\ 0 <= Version.major info < 128
  /\ 0 <= Version.minor info < 1024
  /\ 0 <= Version.patch info < 4096
  /\ Version.VK_MAKE_API_VERSION (Version.variant info) (Version.major info)
       (Version.minor info) (Version.patch info)
     = encodedVersion.
Proof.
  intros He info. subst info. rewrite version_fields.
  cbn [Version.variant Version.major Version.minor Version.patch].
  assert (H1 : 0 <= (encodedVersion mod 4294967296 / 536870912) mod 256 < 8)
    by (Z.to_euclidean_division_equations; lia).
  assert (H2 : 0 <= (encodedVersion mod 4294967296 / 4194304) mod 128 mod 256 < 128)
    by (Z.to_euclidean_division_equations; lia).
  assert (H3 : 0 <= (encodedVersion mod 4294967296 / 4096) mod 1024 mod 65536 < 1024)
    by (Z.to_euclidean_division_equations; lia).
  assert (H4 : 0 <= (encodedVersion mod 4294967296) mod 4096 mod 65536 < 4096)
    by (Z.to_euclidean_division_equations; lia).
  split; [exact H1|]. split; [exact H2|]. split; [exact H3|]. split; [exact H4|].
  rewrite version_sum by assumption.
  Z.to_euclidean_division_equations; lia.
Qed.

(** The value 0x00400000 is the version 1.0.0. *)
Lemma version_encodes_decoded_witness :
  Version.VK_MAKE_API_VERSION
    (Version.variant (Version.GetVersionInfo 4194304))
    (Version.major (Version.GetVersionInfo 4194304))
    (Version.minor (Version.GetVersionInfo 4194304))
    (Version.patch (Version.GetVersionInfo 4194304))
  = 4194304.
Proof.
  apply (version_encodes_decoded 4194304). lia.
Defined.

(** ** vkmininfo: the list of extensions and the flag lists *)

Lemma maxWidth_from (exts : list Info.VkExtensionProperties) :
  forall v0 : Z,
    10 <= v0 <= 256 ->
    let w := fold_left
               (fun value extA =>
                  Z.max value
                    (CInt.uint32
                       (Z.of_nat (Info.strnlen (Info.extensionName extA) 256))))
               exts v0 in
    v0 <= w <= 256
    /\ forall ext, In ext exts ->
         Z.of_nat (Info.strnlen (Info.extensionName ext) 256) <= w.
Proof.
  induction exts as [|e exts IH]; intros v0 Hv; cbv zeta.
  - cbn [fold_left]. split; [lia|]. intros ext [].
  - cbn [fold_left].
    assert (Hs : CInt.uint32 (Z.of_nat (Info.strnlen (Info.extensionName e) 256))
                 = Z.of_nat (Info.strnlen (Info.extensionName e) 256)).
    { unfold CInt.uint32, Info.strnlen. apply Z.mod_small. lia. }
    rewrite Hs.
    assert (Hl : Z.of_nat (Info.strnlen (Info.extensionName e) 256) <= 256)
      by (unfold Info.strnlen; lia).
    destruct (IH (Z.max v0 (Z.of_nat (Info.strnlen (Info.extensionName e) 256)))
                ltac:(lia)) as [Hw Hall].
    split; [lia|]. intros ext [<-|Hin]; [lia|]. apply Hall. exact Hin.
Qed.

Lemma spaces_length (n : nat) : String.length (Info.spaces n) = n.
Proof. induction n as [|n IH]; [reflexivity|]. cbn. rewrite IH. reflexivity. Qed.

Lemma append_assoc (a b c : string) :
  ((a ++ b) ++ c = a ++ (b ++ c))%string.
Proof. induction a as [|x a IH]; [reflexivity|]. cbn. rewrite IH. reflexivity. Qed.

(** X9. [DumpExtensions] prints one line for every extension, and
    when no name is longer than 256 characters the lines are aligned: the
    name starts after four spaces and is filled up with spaces on the
    right, so that " : version " starts at the same column in every line,
    the width of the longest name (at least 10) plus 6. *)
Theorem DumpExtensions_aligned (header : string)
    (exts : list Info.VkExtensionProperties) (ext : Info.VkExtensionProperties) :
  (forall e, In e exts -> (String.length (Info.extensionName e) <= 256)%nat) ->
  In ext exts ->
  let column := Z.to_nat (Info.maxWidth exts + 6) in
  exists fill : nat,
    Info.extension_line (Info.maxWidth exts) ext
    = ("    " ++ Info.extensionName ext ++ Info.spaces fill
         ++ " : version " ++ Info.decimal (Info.specVersion ext)
         ++ String "010" EmptyString)%string
    /\ (4 + String.length (Info.extensionName ext) + fill = column)%nat
    /\ In (Info.extension_line (Info.maxWidth exts) ext)
          (Info.DumpExtensions header exts).
Proof.
  intros Hnames Hin column.
  destruct (maxWidth_from exts 10 ltac:(lia)) as [Hw Hall].
  fold (Info.maxWidth exts) in Hw, Hall.
  specialize (Hall ext Hin). specialize (Hnames ext Hin).
  unfold Info.strnlen in Hall.
  exists (Z.to_nat (Info.maxWidth exts + 2) - String.length (Info.extensionName ext))%nat.
  split; [|split].
  - unfold Info.extension_line. do 1 f_equal.
    assert (E : CInt.int32
                  (CInt.uint32 (CInt.uint32 (- Info.maxWidth exts) - 2))
                = - (Info.maxWidth exts + 2)).
    { unfold CInt.uint32, CInt.int32.
      replace ((- Info.maxWidth exts) mod 4294967296)
        with (4294967296 - Info.maxWidth exts)
        by (apply Z.mod_unique with (q := -1); lia).
      rewrite (Z.mod_small (4294967296 - Info.maxWidth exts - 2)) by lia.
      replace ((4294967296 - Info.maxWidth exts - 2 + 2147483648) mod 4294967296)
        with (2147483648 - Info.maxWidth exts - 2)
        by (apply Z.mod_unique with (q := 1); lia).
      lia. }
    rewrite E. unfold Info.pad.
    destruct (Z.ltb_spec (- (Info.maxWidth exts + 2)) 0); [|lia].
    replace (Z.abs (- (Info.maxWidth exts + 2))) with (Info.maxWidth exts + 2) by lia.
    rewrite !append_assoc. reflexivity.
  - subst column. lia.
  - unfold Info.DumpExtensions. right. apply in_map. exact Hin.
Qed.

(** The two sample extensions: the longest name has 18 characters,
    so the versions start at column 24. *)
Lemma DumpExtensions_aligned_witness :
  exists fill : nat,
    Info.extension_line (Info.maxWidth sample_extensions)
      (Info.mkExtension "VK_KHR_surface" 25)
    = ("    " ++ "VK_KHR_surface" ++ Info.spaces fill
         ++ " : version " ++ "25" ++ String "010" EmptyString)%string
    /\ (4 + 14 + fill = 24)%nat
    /\ In (Info.extension_line (Info.maxWidth sample_extensions)
             (Info.mkExtension "VK_KHR_surface" 25))
          (Info.DumpExtensions "Instance Extensions" sample_extensions).
Proof.
  refine (DumpExtensions_aligned "Instance Extensions" sample_extensions
            (Info.mkExtension "VK_KHR_surface" 25) _ _).
  - intros e [<-|[<-|[]]]; cbn; lia.
  - left. reflexivity.
Defined.

Lemma mod_pow2_succ (a : Z) (n : nat) :
  a mod 2 ^ Z.of_nat (S n)
  = a mod 2 ^ Z.of_nat n
    + (if Z.testbit a (Z.of_nat n) then 2 ^ Z.of_nat n else 0).
Proof.
  rewrite Nat2Z.inj_succ, Z.pow_succ_r by lia.
  rewrite (Z.mul_comm 2), Z.rem_mul_r by (try apply Z.pow_nonzero; lia).
  rewrite <- Z.testbit_spec' by lia.
  destruct (Z.testbit a (Z.of_nat n)); cbn [Z.b2z]; lia.
Qed.

Lemma flag_lines_spec (flags : Z) (left : nat) :
  forall shift : nat,
    (shift + left <= 32)%nat ->
    Info.flag_lines flags shift left
    = map (fun s => 2 ^ Z.of_nat s)
          (List.filter (fun s => Z.testbit flags (Z.of_nat s)) (seq shift left))
    /\ fold_right Z.add 0 (Info.flag_lines flags shift left)
       = flags mod 2 ^ Z.of_nat (shift + left) - flags mod 2 ^ Z.of_nat shift.
Proof.
  induction left as [|left IH]; intros shift Hs.
  - cbn [Info.flag_lines seq List.filter map fold_right].
    rewrite Nat.add_0_r. split; [reflexivity | lia].
  - cbn [Info.flag_lines seq List.filter].
    destruct (IH (S shift) ltac:(lia)) as [IH1 IH2].
    rewrite single_bit by lia.
    replace (shift + S left)%nat with (S shift + left)%nat by lia.
    pose proof (mod_pow2_succ flags shift) as Hm.
    assert (Hpos : 0 < 2 ^ Z.of_nat shift) by (apply Z.pow_pos_nonneg; lia).
    destruct (Z.testbit flags (Z.of_nat shift)).
    + destruct (Z.eqb_spec (2 ^ Z.of_nat shift) 0) as [E|E]; [lia|].
      cbn [negb app map fold_right]. rewrite IH1, <- IH1, IH2.
      split; [reflexivity | lia].
    + cbn [Z.eqb negb app]. rewrite IH1, <- IH1, IH2.
      split; [reflexivity | lia].
Qed.

(** X10. For 32-bit flags, [DumpPhysicalDeviceInfos] prints one
    line for every bit that is set, from the lowest bit up, each with
    the value of that bit alone; the printed values add up to the flags,
    so no flag is left out and none is printed twice. *)
Theorem printed_flags_decompose (flags : Z) :
  0 <= flags < 4294967296 ->
  Info.printed_flags flags
  = map (fun s => 2 ^ Z.of_nat s)
        (List.filter (fun s => Z.testbit flags (Z.of_nat s)) (seq 0 32))
  /\ fold_right Z.add 0 (Info.printed_flags flags) = flags.
Proof.
  intros Hf. destruct (flag_lines_spec flags 32 0 ltac:(lia)) as [H1 H2].
  split; [exact H1|]. unfold Info.printed_flags. rewrite H2.
  change (2 ^ Z.of_nat (0 + 32)) with 4294967296.
  change (2 ^ Z.of_nat 0) with 1.
  rewrite Z.mod_1_r, Z.mod_small by lia. lia.
Qed.

(** DEVICE_LOCAL | HOST_VISIBLE | HOST_COHERENT. *)
Lemma printed_flags_decompose_witness :
  Info.printed_flags 7 = [1; 2; 4]
  /\ fold_right Z.add 0 (Info.printed_flags 7) = 7.
Proof.
  apply (printed_flags_decompose 7). lia.
Defined.

(** ** [BuildShader] *)

Lemma LoadSPIRV_cases (fs : Spirv.FileSystem) (name : string) :
  match fs name with
  | None => Spirv.LoadSPIRV fs name = Throws ("failed to open file: " ++ name)
  | Some content =>
      if (length content mod 4 =? 0)%nat
      then Spirv.LoadSPIRV fs name = Returns (Spirv.words_of_bytes content)
           /\ (length (Spirv.words_of_bytes content) * 4 = length content)%nat
           /\ Spirv.bytes_of_words (Spirv.words_of_bytes content) = content
      else Spirv.LoadSPIRV fs name
           = Throws ("spirv file is not divisable by 4: " ++ name)
  end.
Proof.
  unfold Spirv.LoadSPIRV. cbv zeta.
  destruct (fs name) as [content|]; [|reflexivity].
  destruct (Nat.eqb_spec (length content mod 4) 0) as [Hz|Hnz]; cbn [negb];
    [|reflexivity].
  assert (Hlen : length content = (4 * (length content / 4))%nat).
  { pose proof (Nat.div_mod_eq (length content) 4). lia. }
  rewrite (file_read_whole _ _ Hlen).
  destruct (words_of_bytes_whole _ _ Hlen) as (Hl & Hb & _).
  split; [reflexivity|]. split; [lia | exact Hb].
Qed.

Lemma words_nil (content : list byte) :
  (length (Spirv.words_of_bytes content) * 4 = length content)%nat ->
  (length (Spirv.words_of_bytes content) =? 0)%nat = true <-> content = [].
Proof.
  intros H. rewrite Nat.eqb_eq. split.
  - intros E. rewrite E in H. destruct content; [reflexivity | discriminate H].
  - intros ->. reflexivity.
Qed.

(** X11. [BuildShader] returns a shader module exactly when the
    file filename.spv exists, is not empty, has a whole number of 32-bit
    words, and [vkCreateShaderModule] answers VK_SUCCESS for the words
    of the file with [codeSize] the size of the file in bytes; the module
    returned is the one the driver wrote. *)
Theorem BuildShader_returns (fs : Spirv.FileSystem)
    (vkCreateShaderModule
       : Shader.VkShaderModuleCreateInfo -> FrameLoop.VkResult * N)
    (filename : string) (module : N) :
  Shader.BuildShader fs vkCreateShaderModule filename = Returns module
  <-> exists content : list byte,
        fs (filename ++ ".spv")%string = Some content
        /\ (length content mod 4 = 0)%nat
        /\ content <> []
        /\ Spirv.bytes_of_words (Spirv.words_of_bytes content) = content
        /\ vkCreateShaderModule
             (Shader.mkShaderModuleCreateInfo (length content)
                (Spirv.words_of_bytes content))
           = (FrameLoop.VK_SUCCESS, module).
Proof.
  unfold Shader.BuildShader.
  pose proof (LoadSPIRV_cases fs (filename ++ ".spv")) as H.
  destruct (fs (filename ++ ".spv")%string) as [content|].
  - destruct (Nat.eqb_spec (length content mod 4) 0) as [Hz|Hnz].
    + destruct H as (-> & Hlen & Hbytes). pose proof (words_nil content Hlen) as Hnil.
      destruct (length (Spirv.words_of_bytes content) =? 0)%nat eqn:E.
      * split; [discriminate|]. intros (c & Hc & _ & Hne & _).
        injection Hc as <-. exfalso. apply Hne. apply Hnil. reflexivity.
      * rewrite Hlen.
        destruct (vkCreateShaderModule
                    (Shader.mkShaderModuleCreateInfo (length content)
                       (Spirv.words_of_bytes content))) as [result m] eqn:Ec.
        split.
        -- destruct (FrameLoop.is_success result) eqn:Es; cbn [negb];
             [|discriminate].
           intros Hr. injection Hr as ->. apply is_success_true in Es. subst result.
           exists content.
           split; [reflexivity|]. split; [exact Hz|]. split.
           ++ intros Hc. apply Hnil in Hc. discriminate Hc.
           ++ split; [exact Hbytes | exact Ec].
        -- intros (c & Hc & _ & _ & _ & Hcreate).
           injection Hc as <-.
           rewrite Ec in Hcreate. injection Hcreate as -> ->. reflexivity.
    + rewrite H. split; [discriminate|].
      intros (c & Hc & Hz & _). injection Hc as <-. contradiction.
  - rewrite H. split; [discriminate|]. intros (c & Hc & _). discriminate Hc.
Qed.

(** The shader of two words. *)
Lemma BuildShader_returns_witness :
  Shader.BuildShader sample_files sample_create "triangle.vert" = Returns 42%N.
Proof.
  apply BuildShader_returns.
  exists [x03; x02; x23; x07; x00; x00; x01; x00].
  repeat split; try reflexivity. discriminate.
Defined.

(** X12. [BuildShader] throws in four cases, each with its own text:
    the file filename.spv cannot be opened; its size is not a multiple of
    4; it is empty ("failed to load shader!"); or [vkCreateShaderModule]
    answers something else than VK_SUCCESS.  It throws nothing else. *)
Theorem BuildShader_throws (fs : Spirv.FileSystem)
    (vkCreateShaderModule
       : Shader.VkShaderModuleCreateInfo -> FrameLoop.VkResult * N)
    (filename : string) (what : string) :
  let name := (filename ++ ".spv")%string in
  Shader.BuildShader fs vkCreateShaderModule filename = Throws what
  <-> (fs name = None /\ what = ("failed to open file: " ++ name)%string)
      \/ exists content,
           fs name = Some content
           /\ (((length content mod 4 <> 0)%nat
                /\ what = ("spirv file is not divisable by 4: " ++ name)%string)
               \/ (content = [] /\ what = "failed to load shader!"%string)
               \/ ((length content mod 4 = 0)%nat /\ content <> []
                   /\ fst (vkCreateShaderModule
                             (Shader.mkShaderModuleCreateInfo (length content)
                                (Spirv.words_of_bytes content)))
                      <> FrameLoop.VK_SUCCESS
                   /\ what = "failed to create shader module!"%string)).
Proof.
  intros name. subst name. unfold Shader.BuildShader.
  pose proof (LoadSPIRV_cases fs (filename ++ ".spv")) as H.
  destruct (fs (filename ++ ".spv")%string) as [content|].
  - destruct (Nat.eqb_spec (length content mod 4) 0) as [Hz|Hnz].
    + destruct H as (-> & Hlen & Hbytes). pose proof (words_nil content Hlen) as Hnil.
      destruct (length (Spirv.words_of_bytes content) =? 0)%nat eqn:E.
      * assert (Hc : content = []) by (apply Hnil; reflexivity).
        split.
        -- intros Hw. injection Hw as <-. right. exists content.
           split; [reflexivity|]. right. left. split; [exact Hc | reflexivity].
        -- intros [[Hn _]|(c & Hs & [[Hm _]|[[_ ->]|(_ & Hne & _)]])];
             try discriminate Hn; injection Hs as <-;
             [contradiction | reflexivity | contradiction].
      * assert (Hc : content <> []).
        { intros Hc. apply Hnil in Hc. discriminate Hc. }
        rewrite Hlen.
        destruct (vkCreateShaderModule
                    (Shader.mkShaderModuleCreateInfo (length content)
                       (Spirv.words_of_bytes content))) as [result m] eqn:Ec.
        cbn [fst].
        destruct (FrameLoop.is_success result) eqn:Es; cbn [negb].
        -- apply is_success_true in Es. split; [discriminate|].
           intros [[Hn _]|(c & Hs & [[Hm _]|[[He _]|(_ & _ & Hr & _)]])];
             try discriminate Hn; injection Hs as <-; try contradiction.
           rewrite Ec in Hr. cbn [fst] in Hr. contradiction.
        -- split.
           ++ intros Hw. injection Hw as <-. right. exists content.
              split; [reflexivity|]. right. right.
              split; [exact Hz|]. split; [exact Hc|]. split; [|reflexivity].
              intros Hr. rewrite Ec in Hr. cbn [fst] in Hr. subst result.
              discriminate Es.
           ++ intros [[Hn _]|(c & Hs & [[Hm _]|[[He _]|(_ & _ & _ & ->)]])];
                try discriminate Hn; injection Hs as <-;
                [contradiction | contradiction | reflexivity].
    + rewrite H. split.
      * intros Hw. injection Hw as <-. right. exists content.
        split; [reflexivity|]. left. split; [exact Hnz | reflexivity].
      * intros [[Hn _]|(c & Hs & [[_ ->]|[[He _]|(Hm & _)]])];
          try discriminate Hn; injection Hs as <-;
          [reflexivity | subst content; exfalso; apply Hnz; reflexivity
          | contradiction].
  - rewrite H. split.
    + intros Hw. injection Hw as <-. left. split; reflexivity.
    + intros [[_ ->]|(c & Hs & _)]; [reflexivity | discriminate Hs].
Qed.

(** The truncated file. *)
Lemma BuildShader_throws_witness :
  Shader.BuildShader sample_files sample_create "broken"
  = Throws "spirv file is not divisable by 4: broken.spv".
Proof.
  apply BuildShader_throws. right.
  exists [x03; x02; x23]. split; [reflexivity|].
  left. split; [discriminate | reflexivity].
Defined.

(** ** The compute example: the source image and its way through the
    shader *)

Lemma red_of_cases (x y : Z) :
  ComputeExample.red_of x y = 0 \/ ComputeExample.red_of x y = 255.
Proof.
  unfold ComputeExample.red_of, CInt.uint8.
  destruct (xorb (Z.land x 8 =? 0) (Z.land y 8 =? 0)); cbn [Z.b2z];
    [right | left]; reflexivity.
Qed.

Lemma texel_word_sum (x y : Z) :
  0 <= x < 256 -> 0 <= y < 256 ->
  ComputeExample.texel_word x y
  = ComputeExample.red_of x y + 256 * x + 65536 * y + 16777216 * 255.
Proof.
  intros Hx Hy. unfold ComputeExample.texel_word. cbv zeta.
  pose proof (red_of_cases x y) as Hr.
  assert (E8 : CInt.int32 (Z.shiftl x 8) = x * 2 ^ 8).
  { unfold CInt.int32. rewrite Z.shiftl_mul_pow2 by lia.
    change (2 ^ 8) with 256. rewrite Z.mod_small by lia. lia. }
  assert (E16 : CInt.int32 (Z.shiftl y 16) = y * 2 ^ 16).
  { unfold CInt.int32. rewrite Z.shiftl_mul_pow2 by lia.
    change (2 ^ 16) with 65536. rewrite Z.mod_small by lia. lia. }
  assert (E24 : CInt.int32 (Z.shiftl 255 24) = (-1) * 2 ^ 24)
    by reflexivity.
  rewrite E8, E16, E24.
  rewrite (lor_disjoint_add (ComputeExample.red_of x y) x 8)
    by (change (2 ^ 8) with 256; lia).
  rewrite (lor_disjoint_add _ y 16)
    by (change (2 ^ 8) with 256; change (2 ^ 16) with 65536; lia).
  rewrite (lor_disjoint_add _ (-1) 24)
    by (change (2 ^ 8) with 256; change (2 ^ 16) with 65536;
        change (2 ^ 24) with 16777216; lia).
  unfold CInt.uint32.
  change (2 ^ 8) with 256; change (2 ^ 16) with 65536;
    change (2 ^ 24) with 16777216.
  symmetry. apply Z.mod_unique with (q := -1); lia.
Qed.

Lemma word_bytes (r x y a : Z) :
  0 <= r < 256 -> 0 <= x < 256 -> 0 <= y < 256 -> 0 <= a < 256 ->
  Spirv.bytes_of_word (Z.to_N (r + 256 * x + 65536 * y + 16777216 * a))
  = [Spirv.byte_of_N (Z.to_N r); Spirv.byte_of_N (Z.to_N x);
     Spirv.byte_of_N (Z.to_N y); Spirv.byte_of_N (Z.to_N a)].
Proof.
  intros Hr Hx Hy Ha. unfold Spirv.bytes_of_word.
  repeat f_equal; apply N2Z.inj; rewrite ?N2Z.inj_mod, ?N2Z.inj_div, ?Z2N.id by lia;
    change (Z.of_N 256) with 256; change (Z.of_N 65536) with 65536;
    change (Z.of_N 16777216) with 16777216;
    Z.to_euclidean_division_equations; lia.
Qed.

Lemma byte_value (v : Z) :
  0 <= v < 256 -> Z.of_N (Byte.to_N (Spirv.byte_of_N (Z.to_N v))) = v.
Proof.
  intros Hv. unfold Spirv.byte_of_N.
  destruct (Byte.of_N (Z.to_N v)) as [b|] eqn:E.
  - apply Byte.to_of_N in E. rewrite E. lia.
  - apply Byte.of_N_None_iff in E. lia.
Qed.

Lemma store32_inside (mem : Ppm.Memory) (p : N) (i w : Z) (c : nat) :
  (c < 4)%nat ->
  ComputeExample.store32 mem p i w (p + 4 * Z.to_N i + N.of_nat c)%N
  = nth c (Spirv.bytes_of_word (Z.to_N w)) x00.
Proof.
  intros Hc. unfold ComputeExample.store32. cbv zeta.
  destruct (N.leb_spec (p + 4 * Z.to_N i) (p + 4 * Z.to_N i + N.of_nat c)); [|lia].
  destruct (N.ltb_spec (p + 4 * Z.to_N i + N.of_nat c) (p + 4 * Z.to_N i + 4));
    [|lia].
  cbn [andb]. f_equal. lia.
Qed.

Lemma store32_outside (mem : Ppm.Memory) (p : N) (i w : Z) (a : N) :
  (a < p + 4 * Z.to_N i \/ p + 4 * Z.to_N i + 4 <= a)%N ->
  ComputeExample.store32 mem p i w a = mem a.
Proof.
  intros Ha. unfold ComputeExample.store32. cbv zeta.
  destruct (N.leb_spec (p + 4 * Z.to_N i) a);
    destruct (N.ltb_spec a (p + 4 * Z.to_N i + 4)); cbn [andb];
    try reflexivity; lia.
Qed.

Lemma fold_store_other (p : N) (l : list (Z * Z)) :
  forall (mem : Ppm.Memory) (a : N),
    (forall xy, In xy l ->
       (a < p + 4 * Z.to_N (fst xy * 256 + snd xy)
        \/ p + 4 * Z.to_N (fst xy * 256 + snd xy) + 4 <= a)%N) ->
    fold_left (ComputeExample.store_texel p) l mem a = mem a.
Proof.
  induction l as [|xy l IH]; intros mem a Ha; [reflexivity|].
  cbn [fold_left]. rewrite IH.
  - unfold ComputeExample.store_texel. apply store32_outside. apply Ha. left. reflexivity.
  - intros xy' Hin. apply Ha. right. exact Hin.
Qed.

Lemma fold_store_lookup (p : N) (l : list (Z * Z)) :
  (forall xy, In xy l -> 0 <= fst xy /\ 0 <= snd xy < 256) ->
  forall (mem : Ppm.Memory) (x y : Z) (c : nat),
    In (x, y) l -> (c < 4)%nat ->
    fold_left (ComputeExample.store_texel p) l mem
      (p + 4 * Z.to_N (x * 256 + y) + N.of_nat c)%N
    = nth c (Spirv.bytes_of_word (Z.to_N (ComputeExample.texel_word x y))) x00.
Proof.
  induction l as [|xy l IH]; intros Hl mem x y c Hin Hc; [destruct Hin|].
  cbn [fold_left].
  assert (Hl' : forall xy, In xy l -> 0 <= fst xy /\ 0 <= snd xy < 256)
    by (intros xy' H'; apply Hl; right; exact H').
  assert (Hdec : forall a b : Z * Z, {a = b} + {a <> b})
    by (intros [a1 a2] [b1 b2]; destruct (Z.eq_dec a1 b1), (Z.eq_dec a2 b2);
        [left; congruence | right; congruence ..]).
  destruct (in_dec Hdec (x, y) l) as [Hlater|Hnot].
  - apply IH; assumption.
  - destruct Hin as [->|Hin]; [|contradiction].
    rewrite fold_store_other.
    + unfold ComputeExample.store_texel. cbn [fst snd]. apply store32_inside. exact Hc.
    + intros [x' y'] Hin'. cbn [fst snd].
      destruct (Hl' _ Hin') as [Hx' Hy']. cbn [fst snd] in Hx', Hy'.
      destruct (Hl (x, y) (or_introl eq_refl)) as [Hx Hy]. cbn [fst snd] in Hx, Hy.
      assert (Hne : x' * 256 + y' <> x * 256 + y).
      { intros E. apply Hnot.
        replace (x, y) with (x', y'); [exact Hin'|].
        f_equal; lia. }
      lia.
Qed.

Lemma nested_fold (p : N) (ys : list Z) (xs : list Z) :
  forall mem : Ppm.Memory,
    fold_left
      (fun mem x =>
         fold_left
           (fun mem y =>
              ComputeExample.store32 mem p (x * 256 + y)
                (ComputeExample.texel_word x y))
           ys mem)
      xs mem
    = fold_left (ComputeExample.store_texel p) (flat_map (fun x => map (pair x) ys) xs) mem.
Proof.
  induction xs as [|x xs IH]; intros mem; [reflexivity|].
  cbn [fold_left flat_map]. rewrite fold_left_app, <- IH. f_equal.
  clear IH. revert mem.
  induction ys as [|y ys IHy]; intros mem; [reflexivity|].
  cbn [fold_left map]. rewrite IHy. reflexivity.
Qed.

Lemma fill_source_flat (mem : Ppm.Memory) (p : N) :
  ComputeExample.fill_source mem p
  = fold_left (ComputeExample.store_texel p)
      (flat_map (fun x => map (pair x) (ComputeExample.range 256))
                (ComputeExample.range 256)) mem.
Proof.
  unfold ComputeExample.fill_source.
  exact (nested_fold p (ComputeExample.range 256) (ComputeExample.range 256) mem).
Qed.

Lemma range_In (n : nat) (v : Z) :
  In v (ComputeExample.range n) <-> 0 <= v < Z.of_nat n.
Proof.
  unfold ComputeExample.range. rewrite in_map_iff. split.
  - intros (k & <- & Hk). apply in_seq in Hk. lia.
  - intros Hv. exists (Z.to_nat v). split; [lia|]. apply in_seq. lia.
Qed.

(** What the fill loop leaves at the texel of row [x], column [y]. *)
Lemma fill_source_lookup (mem : Ppm.Memory) (p : N) (x y : Z) (c : nat) :
  0 <= x < 256 -> 0 <= y < 256 -> (c < 4)%nat ->
  ComputeExample.fill_source mem p (p + 4 * Z.to_N (x * 256 + y) + N.of_nat c)%N
  = nth c [Spirv.byte_of_N (Z.to_N (ComputeExample.red_of x y));
           Spirv.byte_of_N (Z.to_N x); Spirv.byte_of_N (Z.to_N y);
           Spirv.byte_of_N 255] x00.
Proof.
  intros Hx Hy Hc. rewrite fill_source_flat, fold_store_lookup.
  - rewrite texel_word_sum by assumption.
    rewrite word_bytes; try lia; [reflexivity|].
    destruct (red_of_cases x y) as [-> | ->]; lia.
  - intros [x' y'] Hin. apply in_flat_map in Hin.
    destruct Hin as (x'' & Hx'' & Hin). apply in_map_iff in Hin.
    destruct Hin as (y'' & E & Hy''). injection E as <- <-.
    apply range_In in Hx'', Hy''. cbn [fst snd]. lia.
  - apply in_flat_map. exists x. split; [apply range_In; lia|].
    apply in_map. apply range_In. lia.
  - exact Hc.
Qed.

(** X13. The fill loop of the compute example writes, for its loop
    variables x and y, the bytes red, x, y, 255 at the texel of row x and
    column y (it indexes the image as [x * 256 + y]).  So when the rows
    of the linear image lie 1024 bytes apart and the image starts at
    offset 0, the dump of the source image has, at the pixel of row
    [row] and column [col], the bytes red, [row], [col], where red is
    the checkerboard of 8x8 squares: 0 where bit 3 of row and column
    agree and 255 where they differ. *)
Theorem compute_source_dump (content : Ppm.Memory) (mapped : N)
    (layout : Ppm.SubresourceLayout) (extent : N * N) (row col c : nat) :
  Ppm.offset layout = 0%N -> Ppm.rowPitch layout = 1024%N ->
  (row < 256)%nat -> (col < 256)%nat -> (c < 3)%nat ->
  let file :=
    Ppm.dump_of Ppm.compute_source extent mapped layout
      (ComputeExample.mapped_at (ComputeExample.fill_source content 0) mapped) in
  Ppm.pixel_data 256 256 file !! (3 * (row * 256 + col) + c)%nat
  = Some (nth c [Spirv.byte_of_N
                   (Z.to_N (ComputeExample.red_of (Z.of_nat row) (Z.of_nat col)));
                 Spirv.byte_of_N (N.of_nat row);
                 Spirv.byte_of_N (N.of_nat col)] x00).
Proof.
  intros Hoff Hpitch Hrow Hcol Hc file. subst file.
  unfold Ppm.dump_of. cbn [Ppm.render_size fst snd].
  rewrite pixel_data_dump.
  change (N.to_nat 256) with 256%nat.
  rewrite write_rows_lookup by assumption.
  f_equal. unfold ComputeExample.mapped_at. rewrite Hoff, Hpitch.
  replace (mapped + 0 + N.of_nat row * 1024 + 4 * N.of_nat col + N.of_nat c - mapped)%N
    with (0 + 4 * Z.to_N (Z.of_nat row * 256 + Z.of_nat col) + N.of_nat c)%N by lia.
  rewrite fill_source_lookup by lia.
  destruct c as [|[|[|c]]]; cbn [nth]; try lia;
    try reflexivity; f_equal; lia.
Qed.

(** The first pixel of row 8 is red. *)
Lemma compute_source_dump_witness :
  Ppm.pixel_data 256 256
    (Ppm.dump_of Ppm.compute_source (256, 256)%N 4096 tight_layout
       (ComputeExample.mapped_at
          (ComputeExample.fill_source (fun _ => x00) 0) 4096))
    !! (3 * (8 * 256 + 0) + 0)%nat
  = Some xff.
Proof.
  apply (compute_source_dump (fun _ => x00) 4096 tight_layout (256, 256)%N
           8 0 0); [reflexivity | reflexivity | lia | lia | lia].
Defined.

Lemma source_texel (content : Ppm.Memory) (layout : Ppm.SubresourceLayout)
    (x y : Z) :
  Ppm.offset layout = 0%N -> Ppm.rowPitch layout = 1024%N ->
  0 <= x < 256 -> 0 <= y < 256 ->
  ComputeShader.texel
    (ComputeExample.linear_image 256 256 layout
       (ComputeExample.fill_source content 0)) x y
  = Glsl.mkTexel (ComputeExample.red_of y x) y x 255.
Proof.
  intros Hoff Hpitch Hx Hy.
  cbn [ComputeExample.linear_image ComputeShader.texel].
  assert (Hch : forall c, (c < 4)%nat ->
            ComputeExample.channel (ComputeExample.fill_source content 0) layout x y c
            = Z.of_N (Byte.to_N
                (nth c [Spirv.byte_of_N (Z.to_N (ComputeExample.red_of y x));
                        Spirv.byte_of_N (Z.to_N y); Spirv.byte_of_N (Z.to_N x);
                        Spirv.byte_of_N 255] x00))).
  { intros c Hc. unfold ComputeExample.channel, Ppm.texel_addr.
    rewrite Hoff, Hpitch.
    replace (0 + 0 + N.of_nat (Z.to_nat y) * 1024 + 4 * N.of_nat (Z.to_nat x)
             + N.of_nat c)%N
      with (0 + 4 * Z.to_N (y * 256 + x) + N.of_nat c)%N by lia.
    rewrite fill_source_lookup by lia. reflexivity. }
  rewrite !Hch by lia. cbn [nth].
  rewrite !byte_value; try lia; [reflexivity|].
  destruct (red_of_cases y x) as [-> | ->]; lia.
Qed.

(** X14. The output of the compute example, from the fill loop
    through the dispatch of 16x16 workgroups: with such a layout of the
    source image and an output image of 256x256, the texel at (x, y) of
    the output is (255 - red, 255 - y, 255 - x, 255), where red is the
    checkerboard value of row y and column x, in whatever order the
    invocations run. *)
Theorem compute_example_output (content : Ppm.Memory)
    (layout : Ppm.SubresourceLayout) (dst : ComputeShader.Image)
    (order : list ComputeShader.uvec3) (x y : Z) :
  Ppm.offset layout = 0%N -> Ppm.rowPitch layout = 1024%N ->
  ComputeShader.imageSize dst = (256, 256) ->
  Permutation order ComputeShader.example_dispatch ->
  0 <= x < 256 -> 0 <= y < 256 ->
  ComputeShader.texel
    (ComputeShader.run
       (ComputeExample.linear_image 256 256 layout
          (ComputeExample.fill_source content 0))
       order dst) x y
  = Glsl.mkTexel (255 - ComputeExample.red_of y x) (255 - y) (255 - x) 255.
Proof.
  intros Hoff Hpitch Hdst Hperm Hx Hy.
  unfold ComputeShader.imageSize in Hdst. injection Hdst as Hdw Hdh.
  pose proof (source_texel content layout x y Hoff Hpitch Hx Hy) as Hsrc.
  rewrite (run_hits _ order (x, y, 0) x y).
  - rewrite Hsrc. reflexivity.
  - eapply Permutation_in; [symmetry; exact Hperm|].
    apply example_dispatch_In; lia.
  - apply pixel_coord_small; lia.
  - unfold ComputeShader.inside. cbn. lia.
  - rewrite Hsrc. unfold ComputeShader.valid_texel. cbn.
    destruct (red_of_cases y x) as [-> | ->]; lia.
  - unfold ComputeShader.inside. cbn [fst snd]. lia.
Qed.

Lemma compute_example_output_witness :
  ComputeShader.texel
    (ComputeShader.run
       (ComputeExample.linear_image 256 256 tight_layout
          (ComputeExample.fill_source (fun _ => x00) 0))
       ComputeShader.example_dispatch blank_image) 3 5
  = Glsl.mkTexel 255 250 252 255.
Proof.
  apply (compute_example_output (fun _ => x00) tight_layout blank_image
           ComputeShader.example_dispatch 3 5);
    [reflexivity | reflexivity | reflexivity | reflexivity | lia | lia].
Defined.

Lemma run_size (src : ComputeShader.Image) (order : list ComputeShader.uvec3) :
  forall dst : ComputeShader.Image,
    ComputeShader.width (ComputeShader.run src order dst) = ComputeShader.width dst
    /\ ComputeShader.height (ComputeShader.run src order dst)
       = ComputeShader.height dst.
Proof.
  induction order as [|id order IH]; intros dst; [split; reflexivity|].
  unfold ComputeShader.run in *. cbn [fold_left].
  destruct (IH (ComputeShader.invoke src dst id)) as [Hw Hh].
  destruct (invoke_size src dst id) as [Hw' Hh'].
  split; congruence.
Qed.

(** X15. Running compute.comp on its own output gives the colours
    of the first input back: at a texel that both dispatches cover and
    that lies inside the three images, the red, green and blue of the
    second output are those of the input, and alpha is 255 whatever it
    was in the input. *)
Theorem compute_shader_twice (src dst1 dst2 : ComputeShader.Image)
    (order1 order2 : list ComputeShader.uvec3) (x y z1 z2 : Z) :
  0 <= x < 2147483648 -> 0 <= y < 2147483648 ->
  ComputeShader.inside src (x, y) ->
  ComputeShader.inside dst1 (x, y) ->
  ComputeShader.inside dst2 (x, y) ->
  ComputeShader.valid_texel (ComputeShader.texel src x y) ->
  In (x, y, z1) order1 -> In (x, y, z2) order2 ->
  let once := ComputeShader.run src order1 dst1 in
  let twice := ComputeShader.run once order2 dst2 in
  ComputeShader.texel twice x y
  = Glsl.mkTexel (Glsl.red (ComputeShader.texel src x y))
                 (Glsl.green (ComputeShader.texel src x y))
                 (Glsl.blue (ComputeShader.texel src x y)) 255.
Proof.
  intros Hx Hy Hsrc Hd1 Hd2 Hv Hin1 Hin2 once twice.
  assert (Honce : ComputeShader.texel once x y
                  = ComputeShader.inverted (ComputeShader.texel src x y)).
  { apply (run_hits src order1 (x, y, z1) x y); auto.
    apply pixel_coord_small; lia. }
  assert (Hin_once : ComputeShader.inside once (x, y)).
  { destruct (run_size src order1 dst1) as [Hw Hh].
    unfold ComputeShader.inside in *. fold once in Hw, Hh. rewrite Hw, Hh.
    exact Hd1. }
  subst twice.
  rewrite (run_hits once order2 (x, y, z2) x y); auto.
  - rewrite Honce. unfold ComputeShader.inverted. cbn [Glsl.red Glsl.green Glsl.blue].
    f_equal; lia.
  - apply pixel_coord_small; lia.
  - rewrite Honce. unfold ComputeShader.valid_texel, ComputeShader.inverted in *.
    cbn [Glsl.red Glsl.green Glsl.blue Glsl.alpha]. lia.
Qed.

Lemma compute_shader_twice_witness :
  ComputeShader.texel
    (ComputeShader.run
       (ComputeShader.run sample_image [(3, 5, 0)] blank_image)
       [(3, 5, 0)] blank_image) 3 5
  = Glsl.mkTexel 3 5 7 255.
Proof.
  apply (compute_shader_twice sample_image blank_image blank_image
           [(3, 5, 0)] [(3, 5, 0)] 3 5 0 0); try lia;
    try (unfold ComputeShader.inside; simpl; lia);
    try (left; reflexivity).
  unfold ComputeShader.valid_texel. simpl.
  change (3 mod 256) with 3. change (5 mod 256) with 5. lia.
Defined.

(** ** The uniform data of the subpass example *)

Lemma rotate_colors (u : list Q) :
  length u = 12%nat ->
  length (Uniform.rotate 4 u) = 12%nat
  /\ Uniform.colors (Uniform.rotate 4 u) 0 = Uniform.colors u 1
  /\ Uniform.colors (Uniform.rotate 4 u) 1 = Uniform.colors u 2
  /\ Uniform.colors (Uniform.rotate 4 u) 2 = Uniform.colors u 0
  /\ Uniform.rotate 4 (Uniform.rotate 4 (Uniform.rotate 4 u)) = u.
Proof.
  intros Hlen.
  do 12 (destruct u as [|? u]; [discriminate Hlen|]).
  destruct u; [|discriminate Hlen].
  repeat split; reflexivity.
Qed.

Lemma colors_determine (u u' : list Q) :
  length u = 12%nat -> length u' = 12%nat ->
  (forall v, (v < 3)%nat -> Uniform.colors u' v = Uniform.colors u v) -> u' = u.
Proof.
  intros Hlen Hlen' H.
  do 12 (destruct u as [|? u]; [discriminate Hlen|]).
  destruct u; [|discriminate Hlen].
  do 12 (destruct u' as [|? u']; [discriminate Hlen'|]).
  destruct u'; [|discriminate Hlen'].
  pose proof (H 0%nat ltac:(lia)) as H0. pose proof (H 1%nat ltac:(lia)) as H1.
  pose proof (H 2%nat ltac:(lia)) as H2.
  cbv in H0, H1, H2. congruence.
Qed.

(** X16. Every turn of the draw loop of vktriangle_subpass.cpp
    whose [vkMapMemory] succeeds moves the three colours of the uniform
    buffer one place on: after n turns colour v of the buffer is colour
    (v + n) mod 3 of the start, and after a multiple of three turns the
    buffer holds the data of the start again. *)
Theorem uniform_rotation (mapped : list FrameLoop.VkResult) :
  forall u : list Q,
    length u = 12%nat ->
    Forall (fun r => r = FrameLoop.VK_SUCCESS) mapped ->
    exists u' : list Q,
      Uniform.frames mapped u = Returns u'
      /\ length u' = 12%nat
      /\ (forall v, (v < 3)%nat ->
            Uniform.colors u' v = Uniform.colors u ((v + length mapped) mod 3)%nat)
      /\ ((length mapped mod 3 = 0)%nat -> u' = u).
Proof.
  assert (Hmain : forall mapped u,
    length u = 12%nat ->
    Forall (fun r => r = FrameLoop.VK_SUCCESS) mapped ->
    exists u' : list Q,
      Uniform.frames mapped u = Returns u'
      /\ length u' = 12%nat
      /\ (forall v, (v < 3)%nat ->
            Uniform.colors u' v
            = Uniform.colors u ((v + length mapped) mod 3)%nat)).
  { clear mapped. induction mapped as [|r rest IH]; intros u Hlen Hok.
    - exists u. split; [reflexivity|]. split; [exact Hlen|].
      intros v Hv. rewrite Nat.add_0_r, Nat.mod_small by lia. reflexivity.
    - apply Forall_cons in Hok. destruct Hok as [-> Hok].
      destruct (rotate_colors u Hlen) as (Hl & H0 & H1 & H2 & _).
      destruct (IH (Uniform.rotate 4 u) Hl Hok) as (u' & Hf & Hl' & Hc).
      exists u'. cbn [Uniform.frames Uniform.update FrameLoop.is_success negb].
      split; [exact Hf|]. split; [exact Hl'|].
      intros v Hv. rewrite (Hc v Hv). cbn [length].
      assert (Hm : ((v + S (length rest)) mod 3
                    = ((v + length rest) mod 3 + 1) mod 3)%nat).
      { replace (v + S (length rest))%nat with ((v + length rest) + 1)%nat by lia.
        rewrite Nat.Div0.add_mod_idemp_l. reflexivity. }
      rewrite Hm.
      pose proof (Nat.mod_upper_bound (v + length rest) 3 ltac:(lia)) as Hb.
      destruct ((v + length rest) mod 3)%nat as [|[|[|k]]]; try lia; assumption. }
  intros u Hlen Hok.
  destruct (Hmain mapped u Hlen Hok) as (u' & Hf & Hl' & Hc).
  exists u'. split; [exact Hf|]. split; [exact Hl'|]. split; [exact Hc|].
  intros H3. apply colors_determine; [exact Hlen | exact Hl'|].
  intros v Hv. rewrite (Hc v Hv).
  rewrite <- Nat.Div0.add_mod_idemp_r, H3, Nat.add_0_r, Nat.mod_small by lia.
  reflexivity.
Qed.

(** Three turns on the data of the example. *)
Lemma uniform_rotation_witness :
  exists u' : list Q,
    Uniform.frames
      [FrameLoop.VK_SUCCESS; FrameLoop.VK_SUCCESS; FrameLoop.VK_SUCCESS]
      Uniform.uniformData
    = Returns u'
    /\ length u' = 12%nat
    /\ (forall v, (v < 3)%nat ->
          Uniform.colors u' v = Uniform.colors Uniform.uniformData ((v + 3) mod 3)%nat)
    /\ ((3 mod 3 = 0)%nat -> u' = Uniform.uniformData).
Proof.
  apply (uniform_rotation
           [FrameLoop.VK_SUCCESS; FrameLoop.VK_SUCCESS; FrameLoop.VK_SUCCESS]
           Uniform.uniformData).
  - reflexivity.
  - repeat constructor.
Defined.

(** ** The background of subpass_2_compose.frag *)

Lemma mod_period (x : Q) (k : Z) :
  (ComposeShader.mod_ (x + inject_Z k * 40) 40 == ComposeShader.mod_ x 40)%Q.
Proof.
  unfold ComposeShader.mod_.
  assert (E : ((x + inject_Z k * 40) / 40 == x / 40 + inject_Z k)%Q) by field.
  assert (F : Qfloor ((x + inject_Z k * 40) / 40) = Qfloor (x / 40) + k).
  { rewrite (Qfloor_comp _ _ E).
    apply Qfloor_unique.
    - rewrite inject_Z_plus. apply Qplus_le_l. apply Qfloor_le.
    - replace (Qfloor (x / 40) + k + 1) with ((Qfloor (x / 40) + 1) + k) by lia.
      rewrite inject_Z_plus. apply Qplus_lt_l. apply Qlt_floor. }
  rewrite F, inject_Z_plus. ring.
Qed.

Lemma ltb_comp (x x' y : Q) : (x == x')%Q -> Glsl.ltb x y = Glsl.ltb x' y.
Proof.
  intros E. unfold Glsl.ltb. f_equal.
  destruct (Qle_bool y x) eqn:H1, (Qle_bool y x') eqn:H2; try reflexivity.
  - apply Qle_bool_iff in H1. rewrite E in H1. apply Qle_bool_iff in H1. congruence.
  - apply Qle_bool_iff in H2. rewrite <- E in H2. apply Qle_bool_iff in H2. congruence.
Qed.

(** X17. The output of subpass_2_compose.frag repeats every 40
    pixels in both directions: with the same values of the three input
    attachments, the fragment at (x + 40 i, y + 40 j) gets the colour of
    the fragment at (x, y). *)
Theorem compose_background_period (att : ComposeShader.Attachments)
    (x y : Q) (i j : Z) :
  ComposeShader.main att (x + inject_Z i * 40, y + inject_Z j * 40)%Q
  = ComposeShader.main att (x, y).
Proof.
  unfold ComposeShader.main. cbn [fst snd].
  rewrite (ltb_comp _ _ 20 (mod_period x i)), (ltb_comp _ _ 20 (mod_period y j)).
  reflexivity.
Qed.

(** ** The draw-and-present loop: what is in flight *)

(** The rules of [triple], for a condition on the calls that every host
    call meets. *)
Section FrameBound.
Import FrameLoop InFlight.

Variable C : Event -> Prop.
Hypothesis C_host : forall h, C (Host h).

Lemma guarded_by_weaken (R R' : Gpu -> Prop) (w : World) :
  (forall g, R g -> R' g) -> guarded_by C R w -> guarded_by C R' w.
Proof.
  intros HR H Hfair. destruct (H Hfair) as [Hg Hc]. split; auto.
Qed.

Lemma by_ret {A : Type} (a : A) (R' : A -> Gpu -> Prop) :
  triple_by C (R' a) (ret a) R'.
Proof. intros w H. exact H. Qed.

Lemma by_bind {A B : Type} (R : Gpu -> Prop) (R1 : A -> Gpu -> Prop)
    (R2 : B -> Gpu -> Prop) (m : M A) (k : A -> M B) :
  triple_by C R m R1 -> (forall a, triple_by C (R1 a) (k a) R2) ->
  triple_by C R (bind m k) R2.
Proof.
  intros Hm Hk w H. unfold bind. specialize (Hm w H).
  destruct (m w) as [[a| | |] w1]; try exact Hm.
  apply Hk. exact Hm.
Qed.

Lemma by_pre {A : Type} (R R0 : Gpu -> Prop) (m : M A)
    (R' : A -> Gpu -> Prop) :
  (forall g, R g -> R0 g) -> triple_by C R0 m R' -> triple_by C R m R'.
Proof.
  intros HR Hm w H. apply Hm. eapply guarded_by_weaken; eauto.
Qed.

Lemma by_throw {A : Type} (R : Gpu -> Prop) (what : string)
    (R' : A -> Gpu -> Prop) :
  triple_by C R (throw what) R'.
Proof.
  intros w H. unfold throw. eapply guarded_by_weaken; [|exact H]. auto.
Qed.

Lemma by_host (R : Gpu -> Prop) (h : HostCall) :
  triple_by C R (host h) (fun _ => R).
Proof.
  intros [g sc tr] H. unfold host, guarded_by in *. cbn [trace gpu] in *.
  intros Hfair. apply Forall_app in Hfair. destruct Hfair as [Hfair _].
  destruct (H Hfair) as [Hg Hc]. split; [exact Hg|].
  apply Forall_app. split; [exact Hc|]. repeat constructor. apply C_host.
Qed.

Lemma by_at {A : Type} (R : Gpu -> Prop) (v : list A) (i : nat) :
  triple_by C R (at_ v i) (fun a g => R g /\ v !! i = Some a).
Proof.
  intros w H. unfold at_. destruct (v !! i) as [a|] eqn:E.
  - eapply guarded_by_weaken; [|exact H]. auto.
  - eapply guarded_by_weaken; [|exact H]. auto.
Qed.

Lemma by_native (R : Gpu -> Prop) (c : Call) (R' : Answer -> Gpu -> Prop) :
  (forall g ans,
     R g ->
     let before := fold_left complete (completed ans) g in
     fair (Native c ans before) ->
     C (Native c ans before) /\ R' ans (effect before c (result ans))) ->
  triple_by C R (native c) R'.
Proof.
  intros Hstep [g sc tr] H. unfold native. cbn [script].
  destruct sc as [|ans rest].
  - eapply guarded_by_weaken; [|exact H]. auto.
  - cbn [gpu trace]. unfold guarded_by in *. cbn [trace gpu] in *.
    intros Hfair. apply Forall_app in Hfair. destruct Hfair as [Hfair He].
    destruct (H Hfair) as [Hg Hc].
    apply Forall_cons in He. destruct He as [He _].
    destruct (Hstep g ans Hg He) as [Hclean HR'].
    split; [exact HR'|].
    apply Forall_app. split; [exact Hc|]. repeat constructor. exact Hclean.
Qed.

End FrameBound.

(** The unfinished command buffers stay on the fences of the slots. *)
Section InFlightProofs.
Import FrameLoop InFlight.

Lemma NoDup_map_filter {A B : Type} (f : A -> B) (P : A -> bool) (l : list A) :
  List.NoDup (map f l) -> List.NoDup (map f (List.filter P l)).
Proof.
  induction l as [|a l IH]; intros H; [constructor|].
  cbn [map] in H. apply List.NoDup_cons_iff in H. destruct H as [Hnot Hnd].
  cbn [List.filter]. destruct (P a).
  - cbn [map]. apply List.NoDup_cons; [|apply IH; exact Hnd].
    intros Hin. apply Hnot.
    apply in_map_iff in Hin. destruct Hin as (x & Hx & Hin).
    apply filter_In in Hin. apply in_map_iff. exists x. tauto.
  - apply IH. exact Hnd.
Qed.

Lemma complete_slots (g : Gpu) (f : Fence) : slots g -> slots (complete g f).
Proof.
  intros [Hnd Hlt]. split.
  - unfold complete.
    destruct (existsb (fun s => snd s =? f)%nat (pending g)); [|exact Hnd].
    cbn [pending]. apply NoDup_map_filter. exact Hnd.
  - intros img f' Hin. apply pending_complete in Hin. exact (Hlt img f' (proj1 Hin)).
Qed.

Lemma completes_slots (fs : list Fence) :
  forall g, slots g -> slots (fold_left complete fs g).
Proof.
  induction fs as [|f fs IH]; intros g H; [exact H|].
  cbn [fold_left]. apply IH. apply complete_slots. exact H.
Qed.

Lemma slots_bounded (g : Gpu) :
  slots g -> (length (pending g) <= imagesInFlight)%nat.
Proof.
  intros [Hnd Hlt]. rewrite <- (length_map snd).
  change imagesInFlight with (length [0%nat; 1%nat]).
  apply List.NoDup_incl_length; [exact Hnd|].
  intros f Hin. apply in_map_iff in Hin. destruct Hin as ([img f'] & <- & Hin).
  cbn [snd]. pose proof (Hlt img f' Hin) as H. unfold imagesInFlight in H.
  destruct f' as [|[|f']]; [left; reflexivity | right; left; reflexivity | lia].
Qed.

End InFlightProofs.

(** One turn, and the loop, keep [InFlight.inv]. *)
Section InFlightLoop.
Import FrameLoop InFlight.

Lemma sound_host (h : HostCall) : sound (Host h).
Proof. split; exact I. Qed.

Lemma sound_other (c : Call) (ans : Answer) (before : Gpu) :
  slots before ->
  (forall ws cb ss f, c <> vkQueueSubmit ws cb ss f) ->
  sound (Native c ans before).
Proof.
  intros Hs Hc. split; [apply slots_bounded; exact Hs|].
  destruct c; try exact I. exfalso. eapply Hc. reflexivity.
Qed.

Lemma iteration_sound (st : Loop) :
  triple_by sound (inv st) (iteration st) (fun st' => inv st').
Proof.
  unfold iteration. cbv zeta.
  set (i := activeSyncIdx st). set (table := swapImagesFences st).
  (* glfwPollEvents *)
  eapply by_bind; [apply by_host; exact sound_host|]. intros ?.
  (* vkWaitForFences on the fence of the slot *)
  eapply by_bind.
  { apply (by_native _ _ _
             (fun _ g => (i < imagesInFlight)%nat /\ owned table g /\ slots g
                         /\ idle i g)).
    intros g ans (Hi & Ho & Hs) before [Hcons Hsucc]. cbn in Hcons, Hsucc.
    assert (Hb : owned table before) by (apply completes_owned; exact Ho).
    assert (Hbs : slots before) by (apply completes_slots; exact Hs).
    split; [apply sound_other; [exact Hbs | discriminate]|].
    cbn [effect]. split; [exact Hi|]. split; [exact Hb|]. split; [exact Hbs|].
    eapply owned_signaled_idle; eauto. }
  intros ?.
  (* vkAcquireNextImageKHR *)
  eapply by_bind.
  { apply (by_native _ _ _
             (fun _ g => (i < imagesInFlight)%nat /\ owned table g /\ slots g
                         /\ idle i g)).
    intros g ans (Hi & Ho & Hs & Hidle) before _.
    assert (Hbs : slots before) by (apply completes_slots; exact Hs).
    split; [apply sound_other; [exact Hbs | discriminate]|].
    cbn [effect]. split; [exact Hi|]. split; [apply completes_owned; exact Ho|].
    split; [exact Hbs|]. apply completes_idle; exact Hidle. }
  intros acquired. set (imageIndex := out acquired).
  (* swapImagesFences[imageIndex] *)
  eapply by_bind; [apply by_at|]. intros entry.
  (* the guard *)
  eapply (by_bind _ _
            (fun _ g => (i < imagesInFlight)%nat /\ owned table g /\ slots g
                        /\ idle i g /\ free imageIndex g
                        /\ table !! imageIndex = Some entry)).
  { destruct entry as [f|].
    - eapply (by_bind _ _
                (fun (_ : Answer) g =>
                   (i < imagesInFlight)%nat /\ owned table g /\ slots g
                   /\ idle i g /\ free imageIndex g
                   /\ table !! imageIndex = Some (Some f)));
        [|intros ?;
          apply (by_ret _ tt
                   (fun _ g => (i < imagesInFlight)%nat /\ owned table g /\ slots g
                               /\ idle i g /\ free imageIndex g
                               /\ table !! imageIndex = Some (Some f)))].
      apply by_native.
      intros g ans [(Hi & Ho & Hs & Hidle) He] before [Hcons Hsucc].
      cbn in Hcons, Hsucc.
      assert (Hb : owned table before) by (apply completes_owned; exact Ho).
      assert (Hbs : slots before) by (apply completes_slots; exact Hs).
      split; [apply sound_other; [exact Hbs | discriminate]|].
      cbn [effect]. split; [exact Hi|]. split; [exact Hb|]. split; [exact Hbs|].
      split; [apply completes_idle; exact Hidle|]. split; [|exact He].
      intros f' Hin. destruct (Hb imageIndex f' Hin) as [Hsg Ht].
      rewrite He in Ht. injection Ht as <-.
      rewrite (Hcons Hsucc) in Hsg. discriminate Hsg.
    - eapply by_pre;
        [|apply (by_ret _ tt
                   (fun _ g => (i < imagesInFlight)%nat /\ owned table g /\ slots g
                               /\ idle i g /\ free imageIndex g
                               /\ table !! imageIndex = Some None))].
      intros g [(Hi & Ho & Hs & Hidle) He].
      split; [exact Hi|]. split; [exact Ho|]. split; [exact Hs|].
      split; [exact Hidle|]. split; [|exact He].
      intros f' Hin. destruct (Ho imageIndex f' Hin) as [_ Ht].
      rewrite He in Ht. discriminate Ht. }
  intros ?. set (table' := <[imageIndex := Some i]> table).
  (* vkResetFences *)
  eapply by_bind.
  { apply (by_native _ _ _
             (fun _ g => (i < imagesInFlight)%nat /\ owned table' g /\ slots g
                         /\ idle i g /\ free imageIndex g
                         /\ signaled g i = false
                         /\ table !! imageIndex = Some entry)).
    intros g ans (Hi & Ho & Hs & Hidle & Hf & He) before [_ Hsucc].
    cbn in Hsucc.
    assert (Hb : owned table before) by (apply completes_owned; exact Ho).
    assert (Hbs : slots before) by (apply completes_slots; exact Hs).
    assert (Hbi : idle i before) by (apply completes_idle; exact Hidle).
    assert (Hbf : free imageIndex before) by (apply completes_free; exact Hf).
    split; [apply sound_other; [exact Hbs | discriminate]|].
    cbn [effect]. rewrite Hsucc. cbn [is_success].
    split; [exact Hi|].
    split; [|split; [exact Hbs|split; [exact Hbi|split; [exact Hbf|split; [|exact He]]]]].
    - intros img f' Hin. cbn [pending signaled] in *.
      destruct (Hb img f' Hin) as [Hsg Ht]. split.
      + destruct (f' =? i)%nat; [reflexivity | exact Hsg].
      + unfold table'. rewrite list_lookup_insert_ne; [exact Ht|].
        intros ->. exact (Hbf f' Hin).
    - cbn [signaled]. rewrite Nat.eqb_refl. reflexivity. }
  intros ?.
  (* vkQueueSubmit *)
  eapply by_bind.
  { apply (by_native _ _ _
             (fun ans g => is_success (result ans) = true ->
                           (i < imagesInFlight)%nat /\ owned table' g /\ slots g)).
    intros g ans (Hi & Ho & Hs & Hidle & Hf & Hsg & He) before _.
    assert (Hb : owned table' before) by (apply completes_owned; exact Ho).
    assert (Hbsl : slots before) by (apply completes_slots; exact Hs).
    assert (Hbi : idle i before) by (apply completes_idle; exact Hidle).
    assert (Hbf : free imageIndex before) by (apply completes_free; exact Hf).
    assert (Hbs : signaled before i = false)
      by (apply completes_unsignaled; assumption).
    split.
    - split; [apply slots_bounded; exact Hbsl|]. cbn [fence_free].
      split; [exact Hbs | exact Hbi].
    - cbn [effect]. intros Hok. rewrite Hok.
      split; [exact Hi|]. split.
      + intros img f' Hin.
        cbn [pending signaled] in *. apply in_app_or in Hin.
        destruct Hin as [Hin | [Hin | []]].
        * exact (Hb img f' Hin).
        * injection Hin as <- <-. split; [exact Hbs|].
          unfold table'. apply list_lookup_insert_eq.
          apply lookup_lt_Some in He. exact He.
      + destruct Hbsl as [Hnd Hlt]. split.
        * cbn [pending]. rewrite map_app. cbn [map snd].
          apply List.NoDup_app.
          -- exact Hnd.
          -- repeat constructor. intros [].
          -- intros f' Hin [<-|[]].
             apply in_map_iff in Hin. destruct Hin as ([img f''] & E & Hin).
             cbn [snd] in E. subst f''. exact (Hbi img Hin).
        * cbn [pending]. intros img f' Hin. apply in_app_or in Hin.
          destruct Hin as [Hin | [Hin | []]].
          -- exact (Hlt img f' Hin).
          -- injection Hin as <- <-. exact Hi. }
  intros submitted.
  destruct (is_success (result submitted)) eqn:Hok; cbn [negb].
  - (* vkQueuePresentKHR, usleep *)
    eapply by_pre; [intros g Hg; exact (Hg Hok)|].
    eapply by_bind.
    { apply (by_native _ _ _
               (fun _ g => (i < imagesInFlight)%nat /\ owned table' g /\ slots g)).
      intros g ans (Hi & Ho & Hs) before _.
      assert (Hbs : slots before) by (apply completes_slots; exact Hs).
      split; [apply sound_other; [exact Hbs | discriminate]|].
      cbn [effect]. split; [exact Hi|]. split; [|exact Hbs].
      apply completes_owned; exact Ho. }
    intros ?.
    eapply by_bind; [apply by_host; exact sound_host|]. intros ?.
    eapply by_pre; [|apply by_ret].
    intros g (Hi & Ho & Hs). unfold inv.
    cbn [activeSyncIdx swapImagesFences].
    split; [apply Nat.mod_upper_bound; discriminate|]. split; assumption.
  - apply by_throw.
Qed.

Lemma loop_sound_triple (fuel : nat) :
  forall st : Loop,
    triple_by sound (inv st) (loop fuel st) (fun st' => inv st').
Proof.
  induction fuel as [|fuel IH]; intros st.
  - intros w H. cbn [loop]. eapply guarded_by_weaken; [|exact H]. auto.
  - cbn [loop].
    eapply by_bind.
    { apply (by_native _ _ _ (fun _ g => inv st g)).
      intros g ans (Hi & Ho & Hs) before _.
      assert (Hbs : slots before) by (apply completes_slots; exact Hs).
      split; [apply sound_other; [exact Hbs | discriminate]|].
      cbn [effect]. split; [exact Hi|]. split; [|exact Hbs].
      apply completes_owned; exact Ho. }
    intros closed. destruct (negb (out closed =? 0)%nat).
    + intros w Hw. exact Hw.
    + eapply by_bind; [apply iteration_sound|]. intros st'. apply IH.
Qed.

Lemma loop_sound (fuel images : nat) (answers : list Answer) :
  let w' := snd (loop fuel (initial_loop images) (initial_world answers)) in
  Forall fair (trace w') -> Forall sound (trace w').
Proof.
  intros w' Hfair.
  pose proof (loop_sound_triple fuel (initial_loop images) (initial_world answers))
    as H.
  assert (H0 : guarded_by sound (inv (initial_loop images)) (initial_world answers)).
  { intros _. split; [|constructor].
    split; [unfold imagesInFlight; cbn; lia|]. split.
    - intros img f Hin. destruct Hin.
    - split; [constructor|]. intros img f Hin. destruct Hin. }
  specialize (H H0). subst w'.
  destruct (loop fuel (initial_loop images) (initial_world answers))
    as [[st'| | |] w1]; cbn [snd] in *; exact (proj2 (H Hfair)).
Qed.

End InFlightLoop.

Lemma fair_split (tr : list FrameLoop.Event) :
  Forall FrameLoop.consistent tr ->
  Forall FrameLoop.unchecked_calls_succeeded tr ->
  Forall FrameLoop.fair tr.
Proof.
  intros Hcons Hsucc. apply Forall_forall. intros e He. split.
  - rewrite Forall_forall in Hcons. apply Hcons. exact He.
  - rewrite Forall_forall in Hsucc. apply Hsucc. exact He.
Qed.

(** X18. In any run of the draw loop from its start, in which the
    driver answers as the Vulkan API allows and the calls whose result
    the loop does not check succeed, at most [imagesInFlight] (two)
    submitted command buffers are unfinished at any call the loop makes,
    however many images the swapchain has. *)
Theorem frames_in_flight_bounded (fuel images : nat)
    (answers : list FrameLoop.Answer) :
  let w' := snd (FrameLoop.loop fuel (FrameLoop.initial_loop images)
                   (FrameLoop.initial_world answers)) in
  Forall FrameLoop.consistent (FrameLoop.trace w') ->
  Forall FrameLoop.unchecked_calls_succeeded (FrameLoop.trace w') ->
  Forall InFlight.bounded (FrameLoop.trace w').
Proof.
  intros w' Hcons Hsucc.
  pose proof (loop_sound fuel images answers (fair_split _ Hcons Hsucc)) as H.
  eapply Forall_impl; [exact H|]. intros e He. exact (proj1 He).
Qed.

Lemma frames_in_flight_bounded_witness :
  Forall InFlight.bounded
    (FrameLoop.trace
       (snd (FrameLoop.loop 3 (FrameLoop.initial_loop 2)
               (FrameLoop.initial_world guarded_run)))).
Proof.
  apply (frames_in_flight_bounded 3%nat 2%nat guarded_run).
  - vm_compute.
    repeat (constructor; [try exact I; intros _; reflexivity|]). constructor.
  - vm_compute.
    repeat (constructor; [try exact I; reflexivity|]). constructor.
Defined.

(** X19. In such a run, the fence the loop passes to [vkQueueSubmit]
    is unsignaled at the call, and no unfinished command buffer is going
    to signal it: the fence of a slot is never given to a second
    submission while the first is unfinished. *)
Theorem submit_fence_unused (fuel images : nat)
    (answers : list FrameLoop.Answer) :
  let w' := snd (FrameLoop.loop fuel (FrameLoop.initial_loop images)
                   (FrameLoop.initial_world answers)) in
  Forall FrameLoop.consistent (FrameLoop.trace w') ->
  Forall FrameLoop.unchecked_calls_succeeded (FrameLoop.trace w') ->
  Forall InFlight.fence_free (FrameLoop.trace w').
Proof.
  intros w' Hcons Hsucc.
  pose proof (loop_sound fuel images answers (fair_split _ Hcons Hsucc)) as H.
  eapply Forall_impl; [exact H|]. intros e He. exact (proj2 He).
Qed.

Lemma submit_fence_unused_witness :
  Forall InFlight.fence_free
    (FrameLoop.trace
       (snd (FrameLoop.loop 3 (FrameLoop.initial_loop 2)
               (FrameLoop.initial_world guarded_run)))).
Proof.
  apply (submit_fence_unused 3%nat 2%nat guarded_run).
  - vm_compute.
    repeat (constructor; [try exact I; intros _; reflexivity|]). constructor.
  - vm_compute.
    repeat (constructor; [try exact I; reflexivity|]). constructor.
Defined.



(** ** [CopyImageToLinearImage] *)

Ltac copy_step d c :=
  let E := fresh "E" in
  destruct (FrameLoop.is_success (CopyImage.answer d c)) eqn:E;
  cbn [negb].

(** X21. [CopyImageToLinearImage] returns exactly when the eight
    calls whose result it checks answer VK_SUCCESS and [FindMemoryType]
    finds a host-visible memory type for the readable image.  It has
    then made its seventeen calls in the order of the source, and of the
    four objects it created the fence and the command buffer are
    released: the readable image and its memory are what is left. *)
Theorem CopyImageToLinearImage_returns (d : CopyImage.Driver) :
  let run := CopyImage.CopyImageToLinearImage d CopyImage.start in
  (fst run = FrameLoop.Value tt
   <-> (forall c, In c CopyImage.checked_calls ->
                  CopyImage.answer d c = FrameLoop.VK_SUCCESS)
       /\ exists i,
            MemoryType.FindMemoryType (CopyImage.memProperties d)
              (CopyImage.memoryTypeBits d)
              CopyImage.VK_MEMORY_PROPERTY_HOST_VISIBLE_BIT
            = FrameLoop.Value i)
  /\ (fst run = FrameLoop.Value tt ->
        CopyImage.live (snd run)
        = [CopyImage.readableImageMemory; CopyImage.readableImage]
        /\ CopyImage.calls (snd run)
           = [CopyImage.vkCreateImage; CopyImage.vkGetImageMemoryRequirements;
              CopyImage.vkGetPhysicalDeviceMemoryProperties;
              CopyImage.vkAllocateMemory; CopyImage.vkBindImageMemory;
              CopyImage.vkAllocateCommandBuffers; CopyImage.vkBeginCommandBuffer;
              CopyImage.vkCmdPipelineBarrier; CopyImage.vkCmdPipelineBarrier;
              CopyImage.vkCmdCopyImage; CopyImage.vkCmdPipelineBarrier;
              CopyImage.vkEndCommandBuffer; CopyImage.vkCreateFence;
              CopyImage.vkQueueSubmit; CopyImage.vkWaitForFences;
              CopyImage.vkDestroyFence; CopyImage.vkFreeCommandBuffers]).
Proof.
  cbv zeta.
  assert (Hall : (forall c, In c CopyImage.checked_calls ->
                    CopyImage.answer d c = FrameLoop.VK_SUCCESS)
                 <-> Forall (fun c => FrameLoop.is_success (CopyImage.answer d c) = true)
                       CopyImage.checked_calls).
  { rewrite Forall_forall. split.
    - intros H c Hc. apply list_elem_of_In in Hc. rewrite (H c Hc). reflexivity.
    - intros H c Hc. apply list_elem_of_In in Hc. specialize (H c Hc).
      destruct (CopyImage.answer d c); try discriminate H. reflexivity. }
  rewrite Hall. clear Hall. unfold CopyImage.checked_calls.
  unfold CopyImage.CopyImageToLinearImage, CopyImage.bind, CopyImage.checked,
    CopyImage.call, CopyImage.release, CopyImage.FindMemoryType, CopyImage.start.
  cbn [CopyImage.live CopyImage.calls app].
  copy_step d CopyImage.vkCreateImage.
  2: { cbn [fst]. split; [|discriminate]. split; [discriminate|].
       intros [H _]. apply Forall_cons in H. destruct H as [H _]. congruence. }
  cbn [CopyImage.live CopyImage.calls app].
  destruct (MemoryType.FindMemoryType (CopyImage.memProperties d)
              (CopyImage.memoryTypeBits d)
              CopyImage.VK_MEMORY_PROPERTY_HOST_VISIBLE_BIT) as [i|what| |] eqn:Ef.
  2-4: cbn [fst]; (split; [|discriminate]); (split; [discriminate|]);
       intros [_ [i Hi]]; discriminate Hi.
  cbn [CopyImage.live CopyImage.calls app].
  copy_step d CopyImage.vkAllocateMemory.
  2: { cbn [fst]. split; [|discriminate]. split; [discriminate|].
       intros [H _]. repeat (apply Forall_cons in H; destruct H as [? H]).
       congruence. }
  cbn [CopyImage.live CopyImage.calls app].
  copy_step d CopyImage.vkAllocateCommandBuffers.
  2: { cbn [fst]. split; [|discriminate]. split; [discriminate|].
       intros [H _]. repeat (apply Forall_cons in H; destruct H as [? H]).
       congruence. }
  cbn [CopyImage.live CopyImage.calls app].
  copy_step d CopyImage.vkBeginCommandBuffer.
  2: { cbn [fst]. split; [|discriminate]. split; [discriminate|].
       intros [H _]. repeat (apply Forall_cons in H; destruct H as [? H]).
       congruence. }
  cbn [CopyImage.live CopyImage.calls app].
  copy_step d CopyImage.vkEndCommandBuffer.
  2: { cbn [fst]. split; [|discriminate]. split; [discriminate|].
       intros [H _]. repeat (apply Forall_cons in H; destruct H as [? H]).
       congruence. }
  cbn [CopyImage.live CopyImage.calls app].
  copy_step d CopyImage.vkCreateFence.
  2: { cbn [fst]. split; [|discriminate]. split; [discriminate|].
       intros [H _]. repeat (apply Forall_cons in H; destruct H as [? H]).
       congruence. }
  cbn [CopyImage.live CopyImage.calls app].
  copy_step d CopyImage.vkQueueSubmit.
  2: { cbn [fst]. split; [|discriminate]. split; [discriminate|].
       intros [H _]. repeat (apply Forall_cons in H; destruct H as [? H]).
       congruence. }
  cbn [CopyImage.live CopyImage.calls app].
  copy_step d CopyImage.vkWaitForFences.
  2: { cbn [fst]. split; [|discriminate]. split; [discriminate|].
       intros [H _]. repeat (apply Forall_cons in H; destruct H as [? H]).
       congruence. }
  cbn [CopyImage.live CopyImage.calls app fst snd List.filter CopyImage.same negb].
  split.
  - split; [|reflexivity]. intros _. split; [|exists i; reflexivity].
    repeat (apply Forall_cons; split; [assumption|]). constructor.
  - intros _. split; reflexivity.
Qed.

Lemma CopyImageToLinearImage_returns_witness :
  fst (CopyImage.CopyImageToLinearImage sample_driver CopyImage.start)
  = FrameLoop.Value tt.
Proof.
  apply (proj2 (proj1 (CopyImageToLinearImage_returns sample_driver))).
  split.
  - intros c _. reflexivity.
  - exists 1%nat. reflexivity.
Defined.

Ltac throw_case :=
  let H := fresh "H" in
  intros H; injection H as <- <-; cbn [CopyImage.calls CopyImage.live];
  split; [intros Hin; repeat (destruct Hin as [Hin|Hin]; [discriminate Hin|]);
          destruct Hin|];
  split; [intros Hin; repeat (destruct Hin as [Hin|Hin]; [discriminate Hin|]);
          destruct Hin|];
  eexists; split; [reflexivity|]; unfold CopyImage.failures; cbn; tauto.

(** X22. When [CopyImageToLinearImage] throws, it has released
    nothing: neither [vkDestroyFence] nor [vkFreeCommandBuffers] has been
    called, so every object created up to the failing call still exists.
    The last call made, the text of the error and the objects left are
    one of the nine cases of [CopyImage.failures]. *)
Theorem CopyImageToLinearImage_throws (d : CopyImage.Driver) (what : string)
    (s' : CopyImage.State) :
  CopyImage.CopyImageToLinearImage d CopyImage.start = (FrameLoop.Thrown what, s') ->
  ~ In CopyImage.vkDestroyFence (CopyImage.calls s')
  /\ ~ In CopyImage.vkFreeCommandBuffers (CopyImage.calls s')
  /\ exists c,
       last (CopyImage.calls s') = Some c
       /\ In (c, what, CopyImage.live s') CopyImage.failures.
Proof.
  unfold CopyImage.CopyImageToLinearImage, CopyImage.bind, CopyImage.checked,
    CopyImage.call, CopyImage.release, CopyImage.FindMemoryType, CopyImage.start.
  cbn [CopyImage.live CopyImage.calls app].
  copy_step d CopyImage.vkCreateImage; [|throw_case].
  cbn [CopyImage.live CopyImage.calls app].
  destruct (MemoryType.FindMemoryType (CopyImage.memProperties d)
              (CopyImage.memoryTypeBits d)
              CopyImage.VK_MEMORY_PROPERTY_HOST_VISIBLE_BIT) as [i|what'| |] eqn:Ef;
    try discriminate.
  2: { apply search_thrown in Ef. subst what'. throw_case. }
  cbn [CopyImage.live CopyImage.calls app].
  copy_step d CopyImage.vkAllocateMemory; [|throw_case].
  cbn [CopyImage.live CopyImage.calls app].
  copy_step d CopyImage.vkAllocateCommandBuffers; [|throw_case].
  cbn [CopyImage.live CopyImage.calls app].
  copy_step d CopyImage.vkBeginCommandBuffer; [|throw_case].
  cbn [CopyImage.live CopyImage.calls app].
  copy_step d CopyImage.vkEndCommandBuffer; [|throw_case].
  cbn [CopyImage.live CopyImage.calls app].
  copy_step d CopyImage.vkCreateFence; [|throw_case].
  cbn [CopyImage.live CopyImage.calls app].
  copy_step d CopyImage.vkQueueSubmit; [|throw_case].
  cbn [CopyImage.live CopyImage.calls app].
  copy_step d CopyImage.vkWaitForFences; [|throw_case].
  discriminate.
Qed.

(** A failed wait leaves the fence, the command buffer, the memory and
    the image. *)
Lemma CopyImageToLinearImage_throws_witness :
  exists c,
    last (CopyImage.calls
            (snd (CopyImage.CopyImageToLinearImage failing_wait CopyImage.start)))
    = Some c
    /\ In (c, "failed to wait for fence!"%string,
           CopyImage.live
             (snd (CopyImage.CopyImageToLinearImage failing_wait CopyImage.start)))
          CopyImage.failures.
Proof.
  destruct (CopyImageToLinearImage_throws failing_wait "failed to wait for fence!"
              (snd (CopyImage.CopyImageToLinearImage failing_wait CopyImage.start))
              eq_refl)
    as (_ & _ & H).
  exact H.
Defined.
